(** * ai-cli: the math-markup segmentation and rendering core

    A shallow embedding of [AIClient.render_latex], [AIClient.render_response]
    and [AIClient.render_math_to_image] of [src/ai_cli.py], together with the
    fragment of Python's [str] and [re] those functions rely on.

    - a Python [str] is a sequence of Unicode code points: [list Z];
    - a compiled pattern is a [regex] term transcribed from the pattern text
      and run by a backtracking matcher that enumerates the ways to match in
      the order Python's engine tries them;
    - code that can raise returns [option] ([None] is a raised exception, or
      a loop that did not finish within its fuel);
    - optional back ends (pylatexenc, sympy, matplotlib, the terminal) are
      fields of a record of capabilities;
    - the console records what it is asked to print; a [str] is read as
      markup, and a parameter says on which texts the console raises.

    The conversation ([AIClient.send_message], [AIClient._stream_response],
    [AIClient.get_system_prompt], [AIClient.clear_history]), the
    configuration file ([Config]) and the loop of [interactive_mode] follow,
    in the modules [Chat], [Config] and [Shell]:

    - a value read from JSON is a term of [Json.value], and the operations
      the code applies to it raise as Python's do on a value of the wrong
      type; code that can raise returns [Json.result];
    - the server, the JSON parser with the exceptions it raises, the file
      system with its failures and [str.lower] are parameters; the history
      and the variables of the loop are passed as state. *)

From Stdlib Require Uint63.
From Stdlib Require Import Floats Ascii String.
From Stdlib Require Import ZArith List Bool Lia.
Import ListNotations.

Open Scope Z_scope.

Notation "x <- a ;; b" :=
  (match a with Some x => b | None => None end)
  (right associativity, at level 60, a at next level).

(** ** Python strings *)

Module Py.

Definition char := Z.
Definition str := list char.

(** An ASCII literal of the source as code points. *)
Definition lit (s : string) : str :=
  map (fun a => Z.of_N (N_of_ascii a)) (list_ascii_of_string s).

Definition len (s : str) : Z := Z.of_nat (length s).

(** [s[i:j]] for [0 <= i], [0 <= j]. *)
Definition slice (s : str) (i j : nat) : str := firstn (j - i) (skipn i s).

Definition mem (c : char) (cs : str) : bool := existsb (Z.eqb c) cs.

Fixpoint lstrip (p : char -> bool) (s : str) : str :=
  match s with
  | c :: s' => if p c then lstrip p s' else s
  | [] => []
  end.

Definition rstrip (p : char -> bool) (s : str) : str := rev (lstrip p (rev s)).

(** [str.isspace] on one code point, the set [str.strip()] removes. *)
Definition isspace (c : char) : bool :=
  ((9 <=? c) && (c <=? 13)) || ((28 <=? c) && (c <=? 32))
  || (c =? 133) || (c =? 160) || (c =? 5760)
  || ((8192 <=? c) && (c <=? 8202))
  || (c =? 8232) || (c =? 8233) || (c =? 8239) || (c =? 8287) || (c =? 12288).

(** [s.strip()] *)
Definition strip (s : str) : str := rstrip isspace (lstrip isspace s).

(** [s.strip(chars)] *)
Definition strip_chars (chars : str) (s : str) : str :=
  rstrip (fun c => mem c chars) (lstrip (fun c => mem c chars) s).

(** First code points of the runs of ten decimal digits (category Nd) of the
    interpreter's Unicode database (14.0): [\d] of a [str] pattern matches
    exactly these, and [int] of such a character is its offset in its run. *)
Definition decimal_bases : list Z :=
  [48; 1632; 1776; 1984; 2406; 2534; 2662; 2790; 2918; 3046; 3174; 3302;
   3430; 3558; 3664; 3792; 3872; 4160; 4240; 6112; 6160; 6470; 6608; 6784;
   6800; 6992; 7088; 7232; 7248; 42528; 43216; 43264; 43472; 43504; 43600;
   44016; 65296; 66720; 68912; 69734; 69872; 69942; 70096; 70384; 70736;
   70864; 71248; 71360; 71472; 71904; 72016; 72784; 73040; 73120; 92768;
   92864; 93008; 120782; 120792; 120802; 120812; 120822; 123200; 123632;
   125264; 130032].

Definition in_run (c base : Z) : bool := (base <=? c) && (c <? base + 10).

Definition isdecimal (c : char) : bool := existsb (in_run c) decimal_bases.

(** [int(d)] for a one-character string; raises [ValueError] otherwise. *)
Definition int (d : char) : option Z :=
  match find (in_run d) decimal_bases with
  | Some base => Some (d - base)
  | None => None
  end.

(** [chr(n)]; raises [ValueError] outside the code-point range. *)
Definition chr (n : Z) : option char :=
  if (0 <=? n) && (n <=? 1114111) then Some n else None.

(** [''.join(f(d) for d in s)] where [f] yields one character or raises. *)
Fixpoint join_map (f : char -> option char) (s : str) : option str :=
  match s with
  | [] => Some []
  | d :: s' => c <- f d ;; r <- join_map f s' ;; Some (c :: r)
  end.

(** *** Regular expressions

    The constructs the program's patterns are built from.  Every quantifier
    of the source ranges over a one-character class. *)
Inductive regex : Type :=
| Str (l : str)                           (* a run of literal characters *)
| Class (p : char -> bool)                (* [.] (DOTALL), [[^..]], [\d] *)
| Star (greedy : bool) (p : char -> bool) (* [X*] and [X*?] *)
| Plus (greedy : bool) (p : char -> bool) (* [X+] and [X+?] *)
| Group (r : regex)                       (* [( .. )] *)
| NotAfter (c : char)                     (* [(?<!c)] *)
| Cat (r1 r2 : regex).

Infix "+++" := Cat (right associativity, at level 61).

Fixpoint is_prefix (l s : str) : bool :=
  match l, s with
  | [], _ => true
  | a :: l', b :: s' => (a =? b) && is_prefix l' s'
  | _ :: _, [] => false
  end.

(** Length of the longest prefix of [s] inside the class [p]. *)
Fixpoint prefix_len (p : char -> bool) (s : str) : nat :=
  match s with
  | c :: s' => if p c then S (prefix_len p s') else O
  | [] => O
  end.

(** The character before the cursor once [n] characters of [s] are consumed,
    [prev] being the one before [s]. *)
Definition last_char (prev : option char) (s : str) (n : nat) : option char :=
  match n with
  | O => prev
  | S k => nth_error s k
  end.

Definition counts (greedy : bool) (lo n : nat) : list nat :=
  if greedy then rev (seq lo n) else seq lo n.

(** [runs r prev s]: every way [r] matches a prefix of [s], as (characters
    consumed, captured groups), in the order the backtracking engine reaches
    them; [prev] is the character before [s] in the subject string. *)
Fixpoint runs (r : regex) (prev : option char) (s : str)
  : list (nat * list str) :=
  match r with
  | Str l => if is_prefix l s then [(length l, [])] else []
  | Class p =>
      match s with
      | c :: _ => if p c then [(1%nat, [])] else []
      | [] => []
      end
  | Star g p => map (fun k => (k, [])) (counts g 0 (S (prefix_len p s)))
  | Plus g p => map (fun k => (k, [])) (counts g 1 (prefix_len p s))
  | Group r' =>
      map (fun ng => (fst ng, firstn (fst ng) s :: snd ng)) (runs r' prev s)
  | NotAfter c =>
      match prev with
      | Some x => if x =? c then [] else [(O, [])]
      | None => [(O, [])]
      end
  | Cat r1 r2 =>
      flat_map
        (fun a =>
           map (fun b => ((fst a + fst b)%nat, snd a ++ snd b))
               (runs r2 (last_char prev s (fst a)) (skipn (fst a) s)))
        (runs r1 prev s)
  end.

(** A match object: [m.start()], [m.end()] and the groups from 1 on. *)
Record rmatch : Type := MkMatch {
  m_start : nat;
  m_end : nat;
  m_groups : list str
}.

(** [m.group(k)] for [k >= 1]; an unset group reads as the empty string here. *)
Definition group (k : nat) (m : rmatch) : str := nth (k - 1) (m_groups m) [].

(** The match of [r] anchored at [pos], look-behind reading [text[pos-1]]. *)
Definition match_at (r : regex) (text : str) (pos : nat) : option rmatch :=
  match runs r (last_char None text pos) (skipn pos text) with
  | (n, gs) :: _ => Some (MkMatch pos (pos + n) gs)
  | [] => None
  end.

Fixpoint search_upto (r : regex) (text : str) (tries : nat) (pos : nat)
  : option rmatch :=
  match tries with
  | O => None
  | S k =>
      match match_at r text pos with
      | Some m => Some m
      | None => search_upto r text k (S pos)
      end
  end.

(** [pattern.search(text, pos)]: the leftmost match starting at or after
    [pos] (every start up to [len(text)] is tried). *)
Definition search (r : regex) (text : str) (pos : nat) : option rmatch :=
  search_upto r text (S (length text) - pos) pos.

(** The loop of [re.sub(pattern, repl, text)] with a callable [repl]: copy
    the text up to the next match, append the replacement, continue from the
    end of the match.  [fuel] bounds the number of matches; a match of at
    least one character always leaves enough of it (the interpreter's
    special step after an empty match is not modelled: no pattern of the
    program matches the empty string). *)
Fixpoint sub_loop (fuel : nat) (r : regex) (repl : rmatch -> option str)
    (text : str) (pos : nat) : option str :=
  match fuel with
  | O => None
  | S fuel' =>
      match search r text pos with
      | None => Some (skipn pos text)
      | Some m =>
          rep <- repl m ;;
          rest <- sub_loop fuel' r repl text (m_end m) ;;
          Some (slice text pos (m_start m) ++ rep ++ rest)
      end
  end.

Definition re_sub (r : regex) (repl : rmatch -> option str) (text : str)
  : option str :=
  sub_loop (S (length text)) r repl text O.

(** [text.replace(old, new)] for a non-empty [old]: every occurrence, from
    the left, not overlapping. *)
Fixpoint replace_loop (fuel : nat) (old new : str) (text : str) : str :=
  match fuel with
  | O => text
  | S fuel' =>
      if is_prefix old text
      then new ++ replace_loop fuel' old new (skipn (length old) text)
      else match text with
           | [] => []
           | c :: text' => c :: replace_loop fuel' old new text'
           end
  end.

Definition replace (old new : str) (text : str) : str :=
  replace_loop (S (length text)) old new text.

End Py.

(** ** The client's rendering functions *)

Module AIClient.
Import Py.

Definition bytes := list Z.

(** The optional capabilities probed when the module is imported, and the
    library calls behind them.  A call that raises is [None]. *)
Record backends : Type := MkBackends {
  LATEX_SUPPORT : bool;        (* PIL and matplotlib import *)
  SYMPY_SUPPORT : bool;        (* sympy and its LaTeX parser import *)
  PYLATEXENC_SUPPORT : bool;   (* pylatexenc imports *)
  RICH_IMAGE_SUPPORT : bool;   (* rich.image imports *)
  KITTY_SUPPORT : bool;        (* 'kitty' in TERM or KITTY_WINDOW_ID is set *)
  ITERM_SUPPORT : bool;        (* TERM_PROGRAM == 'iTerm.app' *)
  (* LatexNodes2Text().latex_to_text(latex) *)
  latex_to_text : str -> option str;
  (* sympy.pretty(parse_latex(latex), use_unicode=True, wrap_line=False) *)
  sympy_pretty : str -> option str;
  (* the figure with [text] drawn at its centre, saved as PNG; the flag
     selects the figure size and the font size *)
  savefig_png : str -> bool -> option bytes
}.

(** *** GlyphTable: the two dictionaries of [unicode_replace], in insertion
    order.  The key [r'\\alpha'] is the pattern of the literal [\alpha]. *)
Definition greek : list (str * str) :=
  [ (lit "\alpha", [0x03B1]); (lit "\Alpha", [0x0391]);
    (lit "\beta", [0x03B2]); (lit "\Beta", [0x0392]);
    (lit "\gamma", [0x03B3]); (lit "\Gamma", [0x0393]);
    (lit "\delta", [0x03B4]); (lit "\Delta", [0x0394]);
    (lit "\epsilon", [0x03B5]); (lit "\varepsilon", [0x03B5]);
    (lit "\Epsilon", [0x0395]);
    (lit "\zeta", [0x03B6]); (lit "\eta", [0x03B7]);
    (lit "\theta", [0x03B8]); (lit "\vartheta", [0x03D1]);
    (lit "\iota", [0x03B9]); (lit "\kappa", [0x03BA]);
    (lit "\lambda", [0x03BB]); (lit "\Lambda", [0x039B]);
    (lit "\mu", [0x03BC]); (lit "\nu", [0x03BD]);
    (lit "\xi", [0x03BE]); (lit "\Xi", [0x039E]);
    (lit "\pi", [0x03C0]); (lit "\Pi", [0x03A0]);
    (lit "\rho", [0x03C1]); (lit "\sigma", [0x03C3]);
    (lit "\tau", [0x03C4]); (lit "\upsilon", [0x03C5]);
    (lit "\Upsilon", [0x03A5]);
    (lit "\phi", [0x03C6]); (lit "\varphi", [0x03D5]);
    (lit "\Phi", [0x03A6]);
    (lit "\chi", [0x03C7]); (lit "\psi", [0x03C8]); (lit "\Psi", [0x03A8]);
    (lit "\omega", [0x03C9]); (lit "\Omega", [0x03A9]) ].

Definition symbols : list (str * str) :=
  [ (lit "\infty", [0x221E]); (lit "\pm", [0x00B1]); (lit "\mp", [0x2213]);
    (lit "\sum", [0x2211]); (lit "\prod", [0x220F]); (lit "\int", [0x222B]);
    (lit "\partial", [0x2202]); (lit "\nabla", [0x2207]);
    (lit "\sqrt", [0x221A]);
    (lit "\approx", [0x2248]); (lit "\neq", [0x2260]); (lit "\le", [0x2264]);
    (lit "\ge", [0x2265]);
    (lit "\times", [0x00D7]); (lit "\div", [0x00F7]); (lit "\to", [0x2192]);
    (lit "\leftarrow", [0x2190]) ].

(** [for pat, rep in table.items(): result = re.sub(pat, rep, result)] *)
Definition sub_table (table : list (str * str)) (result : str) : option str :=
  fold_left
    (fun acc pr =>
       r <- acc ;; re_sub (Str (fst pr)) (fun _ => Some (snd pr)) r)
    table (Some result).

Definition is_char (a : char) : char -> bool := fun c => c =? a.
Definition not_in (cs : str) : char -> bool := fun c => negb (mem c cs).
Definition any_char : char -> bool := fun _ => true.

Definition SPACE : char := 32.
Definition NEWLINE : char := 10.
Definition RETURN : char := 13.
Definition BACKSLASH : char := 92.
Definition DOLLAR : char := 36.

(** [\\frac\{([^}]+)\}\{([^}]+)\}] *)
Definition frac_re : regex :=
  Str (lit "\frac{") +++ Group (Plus true (not_in (lit "}"))) +++
  Str (lit "}{") +++ Group (Plus true (not_in (lit "}"))) +++ Str (lit "}").

(** [\^ *\{ *(\d+) *\}] and [\_ *\{ *(\d+) *\}] *)
Definition braced_re (mark : string) : regex :=
  Str (lit mark) +++ Star true (is_char SPACE) +++ Str (lit "{") +++
  Star true (is_char SPACE) +++ Group (Plus true isdecimal) +++
  Star true (is_char SPACE) +++ Str (lit "}").

(** [\^ *(\d+)] and [\_ *(\d+)] *)
Definition plain_re (mark : string) : regex :=
  Str (lit mark) +++ Star true (is_char SPACE) +++ Group (Plus true isdecimal).

(** [''.join(chr(base + int(d)) for d in match.group(1))] *)
Definition script_digits (base : Z) (m : rmatch) : option str :=
  join_map (fun d => n <- int d ;; chr (base + n)) (group 1 m).

Definition superscript_digits := script_digits 0x2070.
Definition subscript_digits := script_digits 0x2080.

Definition unicode_replace (latex : str) : option str :=
  let result := strip_chars (lit " {}") latex in
  result <- sub_table greek result ;;
  result <- sub_table symbols result ;;
  result <- re_sub frac_re
              (fun m => Some (group 1 m ++ lit "/" ++ group 2 m)) result ;;
  result <- re_sub (braced_re "^") superscript_digits result ;;
  result <- re_sub (braced_re "_") subscript_digits result ;;
  result <- re_sub (plain_re "^") superscript_digits result ;;
  result <- re_sub (plain_re "_") subscript_digits result ;;
  Some (replace (lit "^-1") [0x207B; 0x00B9]
         (replace (lit "^3") [0x00B3]
           (replace (lit "^2") [0x00B2] result))).

(** The four patterns of [render_latex], all compiled with DOTALL. *)
Definition text_patterns : list regex :=
  [ Str (lit "$$") +++ Group (Plus false any_char) +++ Str (lit "$$");
    Str (lit "$") +++ Group (Plus false (not_in [DOLLAR; NEWLINE])) +++
      Str (lit "$");
    Str (lit "\[") +++ Group (Plus false any_char) +++ Str (lit "\]");
    Str (lit "\(") +++ Group (Plus false any_char) +++ Str (lit "\)") ].

(** The patterns of [render_response] with their [is_inline] flag. *)
Definition image_patterns : list (regex * bool) :=
  [ (NotAfter BACKSLASH +++ Str (lit "$$") +++
       Group (Star false (not_in [DOLLAR])) +++
       NotAfter BACKSLASH +++ Str (lit "$$"), false);
    (NotAfter BACKSLASH +++ Str (lit "$") +++
       Group (Star false (not_in [DOLLAR; NEWLINE; RETURN])) +++
       NotAfter BACKSLASH +++ Str (lit "$"), true);
    (Str (lit "\[") +++ Group (Plus false any_char) +++ Str (lit "\]"), false);
    (Str (lit "\(") +++ Group (Plus false any_char) +++ Str (lit "\)"), true) ].

(** A span of the scanned text: the text between two matches, or a match of
    one of the patterns with the flag of that pattern. *)
Inductive span : Type :=
| PlainText (text : str)
| MathSpan (m : rmatch) (is_inline : bool).

(** What [console.print] was asked to show, in order: a [Markdown] object,
    an image, or a [str].  How the console draws a block is the display
    library's business; what it does with a [str] is not, see
    [print_str]. *)
Inductive block : Type :=
| Markdown (text : str)
| Image (img_bytes : bytes) (width : Z)
| Plain (text : str).

Definition LBRACKET : char := 91.

Section Rendering.

Variable B : backends.

(** The console of the display library reads a [str] it is asked to print
    as markup, and raises [MarkupError] on a tag it cannot close, such as
    [[/x]] with no [[x]] before it.  [markup_error text] says that it does
    so on [text]. *)
Variable markup_error : str -> bool.

(** [console.print(text)] raises: a text without an opening bracket has no
    tag. *)
Definition rejected (text : str) : bool :=
  mem LBRACKET text && markup_error text.

(** [console.print(text)] for a [str]; [None] is the [MarkupError]. *)
Definition print_str (text : str) : option (list block) :=
  if rejected text then None else Some [Plain text].

(** [len(sympy_result) > len(converted) * 1.2].  The product is a binary64
    float; for lengths below 2^53 the comparison of the integer with it
    agrees with the exact one, [5 * len(sympy_result) > 6 * len(converted)]:
    when 5 divides the length the product rounds to the integer itself, and
    otherwise it is at least 0.2 away from every integer. *)
Definition measurably_longer (sympy_result converted : str) : bool :=
  6 * len converted <? 5 * len sympy_result.

Definition replace_math (m : rmatch) : option str :=
  let latex := strip (group 1 m) in
  match (if PYLATEXENC_SUPPORT B then latex_to_text B latex else None) with
  | Some pylatex_result => Some pylatex_result
  | None =>
      converted <- unicode_replace latex ;;
      match (if SYMPY_SUPPORT B then sympy_pretty B latex else None) with
      | Some pretty =>
          let sympy_result := replace [NEWLINE] [SPACE] pretty in
          if measurably_longer sympy_result converted
          then Some sympy_result
          else Some converted
      | None => Some converted
      end
  end.

(** [for pat in patterns: text = re.sub(pat, replace_math, text)] *)
Definition render_latex (text : str) : option str :=
  fold_left (fun acc pat => t <- acc ;; re_sub pat replace_math t)
            text_patterns (Some text).

(** The body of the [try]; any exception gives [None]. *)
Definition render_math_to_image (latex : str) (inline : bool)
  : option bytes :=
  let math_delim := if inline then lit "$" else lit "$$" in
  savefig_png B (math_delim ++ latex ++ math_delim) inline.

(** The [for pat, is_inline_flag in patterns] loop: the state is
    [(match, min_start, best_is_inline)]. *)
Definition best_step (text : str) (pos : nat)
    (st : option rmatch * nat * bool) (p : regex * bool)
  : option rmatch * nat * bool :=
  match search (fst p) text pos with
  | Some m =>
      if (m_start m <? snd (fst st))%nat
      then (Some m, m_start m, snd p)
      else st
  | None => st
  end.

Definition best_match (text : str) (pos : nat) : option rmatch * nat * bool :=
  fold_left (best_step text pos) image_patterns (None, length text, false).

(** The [while pos < text_len] loop, as the spans it walks through. *)
Fixpoint scan (fuel : nat) (text : str) (pos : nat) : option (list span) :=
  match fuel with
  | O => None
  | S fuel' =>
      if (pos <? length text)%nat then
        match best_match text pos with
        | (None, _, _) => Some [PlainText (skipn pos text)]
        | (Some m, _, best_is_inline) =>
            rest <- scan fuel' text (m_end m) ;;
            Some (PlainText (slice text pos (m_start m))
                  :: MathSpan m best_is_inline :: rest)
        end
      else Some []
  end.

Definition segment (text : str) : option (list span) :=
  scan (S (length text)) text O.

(** What the loop body prints for one span; [None] is an exception.  The
    [except] around the print of the text between two spans shows the same
    text again as a [Text] object when the first print raises; the print of
    the fragment that could not be drawn is outside any [try]. *)
Definition emit (s : span) : option (list block) :=
  match s with
  | PlainText t =>
      match strip t with
      | [] => Some []
      | _ :: _ => Some [Markdown t]
      end
  | MathSpan m best_is_inline =>
      let latex := strip (group 1 m) in
      match render_math_to_image latex best_is_inline with
      | Some (b :: img) =>
          Some [Image (b :: img) (if best_is_inline then 50 else 80)]
      | _ => print_str (lit "$" ++ latex ++ lit "$")
      end
  end.

(** The prints of the loop, span after span, up to the first that raises. *)
Fixpoint emit_all (spans : list span) : option (list block) :=
  match spans with
  | [] => Some []
  | s :: rest =>
      shown <- emit s ;;
      more <- emit_all rest ;;
      Some (shown ++ more)
  end.

Definition render_response (text : str) : option (list block) :=
  let supports_images := KITTY_SUPPORT B || ITERM_SUPPORT B in
  if negb (LATEX_SUPPORT B) || negb supports_images
     || negb (RICH_IMAGE_SUPPORT B)
  then rendered <- render_latex text ;; Some [Markdown rendered]
  else spans <- segment text ;; emit_all spans.

End Rendering.

End AIClient.

(** ** Definitions used to state the properties *)

Import Py AIClient.

(** The least number of characters a match of [r] consumes. *)
Fixpoint min_len (r : regex) : nat :=
  match r with
  | Str l => length l
  | Class _ => 1
  | Star _ _ => 0
  | Plus _ _ => 1
  | Group r' => min_len r'
  | NotAfter _ => 0
  | Cat r1 r2 => min_len r1 + min_len r2
  end.

(** The literal character every match of [r] starts with, when [r] opens
    with a literal. *)
Definition first_char (r : regex) : option char :=
  match r with
  | Str (c :: _) => Some c
  | Cat (Str (c :: _)) _ => Some c
  | Cat (NotAfter _) (Cat (Str (c :: _)) _) => Some c
  | _ => None
  end.

(** [latex = match.group(1).strip()], the content of a math span. *)
Definition content (m : rmatch) : str := strip (group 1 m).

(** The stretch of the input a span stands for. *)
Definition source (text : str) (s : span) : str :=
  match s with
  | PlainText t => t
  | MathSpan m _ => slice text (m_start m) (m_end m)
  end.

(** The four delimiter pairs with their [is_inline] flag, in the order of
    the pattern lists. *)
Definition delimiters : list (str * str * bool) :=
  [ (lit "$$", lit "$$", false); (lit "$", lit "$", true);
    (lit "\[", lit "\]", false); (lit "\(", lit "\)", true) ].

(** A span put back together from its content: plain text as it is, a math
    span as its trimmed content between a pair of delimiters. *)
Definition reconstruct (open close : str) (s : span) : str :=
  match s with
  | PlainText t => t
  | MathSpan m _ => open ++ content m ++ close
  end.

(** No optional library is installed. *)
Definition no_backends : backends :=
  MkBackends false false false false false false
             (fun _ => None) (fun _ => None) (fun _ _ => None).

(** Every library is installed and the terminal shows images; [png] is the
    renderer and the two text engines are [l2t] and [pretty]. *)
Definition all_backends (l2t pretty : str -> option str)
    (png : str -> bool -> option bytes) : backends :=
  MkBackends true true true true true true l2t pretty png.

(** The language of a pattern: [shape r w gs] says that the word [w] is
    matched by [r], capturing the groups [gs]. *)
Fixpoint shape (r : regex) (w : str) (gs : list str) : Prop :=
  match r with
  | Str l => w = l /\ gs = []
  | Class p => exists c, w = [c] /\ p c = true /\ gs = []
  | Star _ p => forallb p w = true /\ gs = []
  | Plus _ p => forallb p w = true /\ w <> [] /\ gs = []
  | Group r' => exists gs', shape r' w gs' /\ gs = w :: gs'
  | NotAfter _ => w = [] /\ gs = []
  | Cat r1 r2 =>
      exists w1 w2 g1 g2,
        w = w1 ++ w2 /\ gs = g1 ++ g2 /\ shape r1 w1 g1 /\ shape r2 w2 g2
  end.

(** What the pattern loop has established once the patterns [tried] have
    been searched from [pos]: no match so far, or the match of the pattern
    at index [i], which starts leftmost and, among those starting there,
    comes first in the list. *)
Definition best_inv (text : str) (pos : nat) (tried : list (regex * bool))
    (st : option rmatch * nat * bool) : Prop :=
  match st with
  | (None, min_start, _) =>
      min_start = length text /\
      forall p, In p tried -> search (fst p) text pos = None
  | (Some m, min_start, best_is_inline) =>
      min_start = m_start m /\
      exists i r,
        nth_error tried i = Some (r, best_is_inline) /\
        search r text pos = Some m /\
        forall j p m',
          nth_error tried j = Some p ->
          search (fst p) text pos = Some m' ->
          (m_start m <= m_start m')%nat /\
          (m_start m' = m_start m -> (i <= j)%nat)
  end.

(** The match [m] in [text] is a pair of delimiters around the captured
    interior. *)
Definition delimited (text : str) (m : rmatch) (is_inline : bool) : Prop :=
  exists open close interior,
    In (open, close, is_inline) delimiters /\
    m_groups m = [interior] /\
    slice text (m_start m) (m_end m) = open ++ interior ++ close.

(** The value of a decimal digit, 0 for any other character. *)
Definition digit (d : char) : Z :=
  match int d with
  | Some v => v
  | None => 0
  end.

(** A character the table-based conversion has no rule for: not one of
    backslash, caret, underscore, space and the braces. *)
Definition inert (c : char) : bool := negb (mem c (lit "\^_ {}")).

(** The text [pre mark spaces digits post]: an unbraced script mark, [k]
    spaces and a run of digits, between two stretches of other text. *)
Definition script_rest (k : nat) (ds post : str) : str :=
  repeat SPACE k ++ ds ++ post.

Definition script_text (pre : str) (mark : char) (k : nat) (ds post : str)
  : str :=
  pre ++ mark :: script_rest k ds post.

(** The first character of [s] is outside the class [p]. *)
Definition starts_outside (p : char -> bool) (s : str) : Prop :=
  match s with
  | c :: _ => p c = false
  | [] => True
  end.

(** The match [m], with flag [is_inline], is the one the pattern loop must
    settle on from [pos]: it is what [search] finds for the pattern at some
    index [i]; no pattern has a match starting before it, and a pattern
    with a match starting at the same offset does not come before [i]. *)
Definition leftmost_first (text : str) (pos : nat) (m : rmatch)
    (is_inline : bool) : Prop :=
  exists i r,
    nth_error image_patterns i = Some (r, is_inline) /\
    search r text pos = Some m /\
    forall j p m',
      nth_error image_patterns j = Some p ->
      search (fst p) text pos = Some m' ->
      (m_start m <= m_start m')%nat /\
      (m_start m' = m_start m -> (i <= j)%nat).

(** A math span of [text] is a pair of delimiters around its interior. *)
Definition span_delimited (text : str) (s : span) : Prop :=
  match s with
  | PlainText _ => True
  | MathSpan m is_inline => delimited text m is_inline
  end.

(** One pass of [re.sub] with pattern [r] and replacement [repl] over
    [text], from [pos]: the text up to the leftmost match from [pos] is
    copied, the match is replaced, and the pass goes on from the end of the
    match; when no match is left, the rest of the text is copied. *)
Inductive substituted (r : regex) (repl : rmatch -> option str) (text : str)
  : nat -> str -> Prop :=
| substituted_rest pos :
    search r text pos = None ->
    substituted r repl text pos (skipn pos text)
| substituted_match pos m rep rest :
    search r text pos = Some m ->
    repl m = Some rep ->
    substituted r repl text (m_end m) rest ->
    substituted r repl text pos (slice text pos (m_start m) ++ rep ++ rest).



(** A character that [strip(' {}')] removes. *)
Definition brace_or_space (c : char) : bool := mem c (lit " {}").


(** [a > b * 1.2] as the interpreter computes it for two lengths: [b] is
    converted to a binary64 float, multiplied by the float nearest to 1.2,
    and compared with [a]. *)
Definition binary64_longer (a b : Z) : bool :=
  PrimFloat.ltb
    (PrimFloat.mul (PrimFloat.of_uint63 (Uint63.of_Z b))
                   0x1.3333333333333p+0%float)
    (PrimFloat.of_uint63 (Uint63.of_Z a)).

Fixpoint count_from (z : Z) (n : nat) : list Z :=
  match n with
  | O => []
  | S k => z :: count_from (z + 1) k
  end.

(** The integers from 0 up to [n - 1]. *)
Definition upto (n : Z) : list Z := count_from 0 (Z.to_nat n).

(** [sub in s]: [sub] occurs in [s] at some offset. *)
Definition occurs (sub s : str) : bool :=
  existsb (fun i => is_prefix sub (skipn i s)) (seq 0 (S (length s))).

(** For the examples: a console that rejects the closing tag [[/x]], which
    no text of the program opens. *)
Definition sample_console (text : str) : bool := occurs (lit "[/x]") text.

(** ** Definitions used to state the further properties *)

(** [render_response] takes the image path: matplotlib, an image terminal
    and rich's image class are all there. *)
Definition image_mode (B : backends) : bool :=
  LATEX_SUPPORT B && (KITTY_SUPPORT B || ITERM_SUPPORT B)
  && RICH_IMAGE_SUPPORT B.

(** [not text.strip()]: nothing but whitespace. *)
Definition blank (text : str) : bool :=
  match strip text with
  | [] => true
  | _ :: _ => false
  end.

(** The two dictionaries of [unicode_replace] in the order their entries
    are applied. *)
Definition glyphs : list (str * str) := greek ++ symbols.

(** One of the two keys is a prefix of the other. *)
Definition clash (k1 k2 : str) : bool := is_prefix k1 k2 || is_prefix k2 k1.

(** The steps of [unicode_replace] that follow the two dictionaries. *)
Definition after_tables (result : str) : option str :=
  result <- re_sub frac_re
              (fun m => Some (group 1 m ++ lit "/" ++ group 2 m)) result ;;
  result <- re_sub (braced_re "^") superscript_digits result ;;
  result <- re_sub (braced_re "_") subscript_digits result ;;
  result <- re_sub (plain_re "^") superscript_digits result ;;
  result <- re_sub (plain_re "_") subscript_digits result ;;
  Some (replace (lit "^-1") [0x207B; 0x00B9]
         (replace (lit "^3") [0x00B3]
           (replace (lit "^2") [0x00B2] result))).

(** The entry at index [i] of [glyphs] is a backslash and letters, its glyph
    is none of the characters the later rules look for, and no entry before
    it clashes with it. *)
Definition entry_clear (i : nat) : bool :=
  match nth_error glyphs i with
  | Some (c :: k, g) =>
      (c =? BACKSLASH) && forallb inert k && forallb inert g
      && forallb (fun e : str * str => negb (clash (fst e) (c :: k)))
                 (firstn i glyphs)
  | _ => false
  end.

(** The text of a fraction command with numerator [a] and denominator
    [b]. *)
Definition frac_text (a b : str) : str :=
  lit "\frac{" ++ a ++ lit "}{" ++ b ++ lit "}".

(** Two neighbouring characters of [s] satisfy [p]. *)
Fixpoint has_pair (p : char -> char -> bool) (s : str) : bool :=
  match s with
  | a :: ((b :: _) as t) => p a b || has_pair p t
  | _ => false
  end.

(** A caret with a decimal digit right after it. *)
Definition caret_digit (a b : char) : bool := (a =? 94) && isdecimal b.

(** [unicode_replace] up to its last regular-expression rule, without the
    three literal replacements that end it. *)
Definition before_powers (latex : str) : option str :=
  let result := strip_chars (lit " {}") latex in
  result <- sub_table greek result ;;
  result <- sub_table symbols result ;;
  result <- re_sub frac_re
              (fun m => Some (group 1 m ++ lit "/" ++ group 2 m)) result ;;
  result <- re_sub (braced_re "^") superscript_digits result ;;
  result <- re_sub (braced_re "_") subscript_digits result ;;
  result <- re_sub (plain_re "^") superscript_digits result ;;
  re_sub (plain_re "_") subscript_digits result.

(** ** Values read from JSON *)

Module Json.
Import Py.

(** What [json.loads] and [json.load] return: [None], a [bool], an [int], a
    [float], a [str], a [list] or a [dict] with its entries in the order of
    the text. *)
#[local] Unset Elimination Schemes.
Inductive value : Type :=
| JNull
| JBool (b : bool)
| JInt (z : Z)
| JFloat (f : float)
| JStr (s : str)
| JList (l : list value)
| JDict (d : list (str * value)).
#[local] Set Elimination Schemes.

(** The exceptions the operations on these values raise, by class; the
    two that the JSON parser raises, [JSONDecodeError] on a text that is not
    JSON and [RecursionError] on one nested too deep; [MarkupError], which
    the console raises on a text whose markup it rejects; and [Raised] for
    any other one raised by a library or by the system (requests, the file
    system), with its text. *)
Inductive exn : Type :=
| TypeError
| KeyError
| IndexError
| AttributeError
| UnicodeDecodeError
| JSONDecodeError
| RecursionError
| MarkupError
| Raised (text : str).

Inductive result (A : Type) : Type :=
| Ok (a : A)
| Raise (e : exn).

Arguments Ok {A} a.
Arguments Raise {A} e.

Notation "x <~ a ;; b" :=
  (match a with Ok x => b | Raise e => Raise e end)
  (right associativity, at level 60, a at next level).

(** [a == b] on strings. *)
Fixpoint eqb_str (a b : str) : bool :=
  match a, b with
  | [], [] => true
  | x :: a', y :: b' => (x =? y) && eqb_str a' b'
  | _, _ => false
  end.

(** The value a [dict] holds for [k], if any. *)
Fixpoint lookup (k : str) (d : list (str * value)) : option value :=
  match d with
  | [] => None
  | (k', v) :: d' => if eqb_str k' k then Some v else lookup k d'
  end.

(** [d[k] = v] on a [dict]: the entry is replaced where it stands, or added
    at the end. *)
Fixpoint dict_set (k : str) (v : value) (d : list (str * value))
  : list (str * value) :=
  match d with
  | [] => [(k, v)]
  | (k', v') :: d' =>
      if eqb_str k' k then (k', v) :: d' else (k', v') :: dict_set k v d'
  end.

(** [bool(v)] *)
Definition truthy (v : value) : bool :=
  match v with
  | JNull => false
  | JBool b => b
  | JInt z => negb (z =? 0)
  | JFloat f => negb (PrimFloat.eqb f 0%float)
  | JStr [] => false
  | JStr (_ :: _) => true
  | JList [] => false
  | JList (_ :: _) => true
  | JDict [] => false
  | JDict (_ :: _) => true
  end.

(** [k in v] for a string [k]: a key of a [dict], an element of a [list], a
    substring of a [str]; a [TypeError] on anything else. *)
Definition contains (k : str) (v : value) : result bool :=
  match v with
  | JDict d => Ok (match lookup k d with Some _ => true | None => false end)
  | JList l =>
      Ok (existsb (fun x => match x with
                            | JStr s => eqb_str s k
                            | _ => false
                            end) l)
  | JStr s => Ok (occurs k s)
  | _ => Raise TypeError
  end.

(** [v[k]] for a string [k]. *)
Definition getitem (v : value) (k : str) : result value :=
  match v with
  | JDict d =>
      match lookup k d with
      | Some x => Ok x
      | None => Raise KeyError
      end
  | _ => Raise TypeError
  end.

(** [v[0]] *)
Definition getitem0 (v : value) : result value :=
  match v with
  | JList (x :: _) => Ok x
  | JList [] => Raise IndexError
  | JStr (c :: _) => Ok (JStr [c])
  | JStr [] => Raise IndexError
  | JDict _ => Raise KeyError
  | _ => Raise TypeError
  end.

(** [len(v)] *)
Definition len_value (v : value) : result nat :=
  match v with
  | JList l => Ok (length l)
  | JStr s => Ok (length s)
  | JDict d => Ok (length d)
  | _ => Raise TypeError
  end.

(** [v.get(k, default)]: only a [dict] has the method. *)
Definition get (v : value) (k : str) (default : value) : result value :=
  match v with
  | JDict d =>
      Ok (match lookup k d with
          | Some x => x
          | None => default
          end)
  | _ => Raise AttributeError
  end.

(** [v[k] = x] for a string [k]. *)
Definition setitem (v : value) (k : str) (x : value) : result value :=
  match v with
  | JDict d => Ok (JDict (dict_set k x d))
  | _ => Raise TypeError
  end.

End Json.

(** ** The conversation with the model *)

Module Chat.
Import Py Json.

(** An entry of [conversation_history] and of the request's [messages]. *)
Record message : Type := MkMessage {
  msg_role : str;
  msg_content : value
}.

(** What [response.iter_lines()] yields next: a line, given as the text its
    bytes decode to as UTF-8 ([None] when they do not; the empty line is
    [Some []]), or an exception of the connection. *)
Inductive event : Type :=
| Line (text : option str)
| Broken (e : exn).

(** The arguments of [requests.post]: the fields of [data] are the JSON
    body, [req_streamed] is the keyword [stream=True]. *)
Record request : Type := MkRequest {
  req_url : str;
  req_headers : list (str * str);
  req_model : str;
  req_messages : list message;
  req_stream : bool;
  req_streamed : bool
}.

(** A response: what [raise_for_status()] raises, the lines of the body,
    and what [json()] returns or raises. *)
Record response : Type := MkResponse {
  resp_status : option exn;
  resp_lines : list event;
  resp_json : result value
}.

(** The fields of [AIClient] that the conversation uses. *)
Record client : Type := MkClient {
  api_key : str;
  model : str;
  conversation_history : list message
}.

Definition base_url : str :=
  lit "https://openrouter.ai/api/v1/chat/completions".

Definition set_history (c : client) (h : list message) : client :=
  MkClient (api_key c) (model c) h.

(** [sep.join(parts)] *)
Fixpoint join (sep : str) (parts : list str) : str :=
  match parts with
  | [] => []
  | [p] => p
  | p :: ps => p ++ sep ++ join sep ps
  end.

Fixpoint digits_of (u : Decimal.uint) : str :=
  match u with
  | Decimal.Nil => []
  | Decimal.D0 u => 48 :: digits_of u
  | Decimal.D1 u => 49 :: digits_of u
  | Decimal.D2 u => 50 :: digits_of u
  | Decimal.D3 u => 51 :: digits_of u
  | Decimal.D4 u => 52 :: digits_of u
  | Decimal.D5 u => 53 :: digits_of u
  | Decimal.D6 u => 54 :: digits_of u
  | Decimal.D7 u => 55 :: digits_of u
  | Decimal.D8 u => 56 :: digits_of u
  | Decimal.D9 u => 57 :: digits_of u
  end.

(** [f"{n}"] for a natural number. *)
Definition format_nat (n : nat) : str := digits_of (Nat.to_uint n).

Section Client.

(** [json.loads], with the exception it raises on a text it does not
    parse. *)
Variable json_loads : str -> result value.

(** [requests.post] *)
Variable post : request -> result response.

(** [f"{e}"] for an exception. *)
Variable describe : exn -> str.

(** [os.getcwd()] and [os.listdir(cwd)]. *)
Variable cwd : str.
Variable listdir : result (list str).

Definition files_list : str :=
  match listdir with
  | Ok files =>
      let files_list :=
        join [NEWLINE] (map (fun f => lit "- " ++ f) (firstn 50 files)) in
      if (50 <? length files)%nat
      then files_list ++ [NEWLINE] ++ lit "... and "
           ++ format_nat (length files - 50) ++ lit " more files"
      else files_list
  | Raise e => lit "Error listing files: " ++ describe e
  end.

Definition get_system_prompt : str :=
  join [NEWLINE]
    [ lit "You are a helpful AI assistant with access to the user's file system.";
      lit "Current working directory: " ++ cwd;
      lit "Files in current directory:";
      files_list;
      [];
      lit "You can help users with:";
      lit "- Reading and analyzing files (use relative or absolute paths)";
      lit "- Writing or modifying files";
      lit "- Answering questions about their code and projects";
      lit "- General programming and technical assistance";
      [];
      lit "When suggesting file operations, provide clear commands or code snippets.";
      [];
      lit "IMPORTANT: When writing mathematical expressions or formulas, always use LaTeX notation:";
      lit "- For inline math: use single dollar signs like $x = 2$";
      lit "- For display math: use double dollar signs like $$E = mc^2$$";
      lit "Always wrap math in these delimiters so it renders properly." ].

(** The body of the [try] in the loop of [_stream_response], after
    [json.loads]: the text to add to [full_response], if any. *)
Definition chunk_content (chunk : value) : result (option str) :=
  has_choices <~ contains (lit "choices") chunk ;;
  if has_choices then
    choices <~ getitem chunk (lit "choices") ;;
    n <~ len_value choices ;;
    if (0 <? n)%nat then
      first <~ getitem0 choices ;;
      delta <~ get first (lit "delta") (JDict []) ;;
      content <~ get delta (lit "content") (JStr []) ;;
      if truthy content then
        match content with
        | JStr s => Ok (Some s)
        | _ => Raise TypeError
        end
      else Ok None
    else Ok None
  else Ok None.

(** The loop of [_stream_response] over the lines of the response.  Of
    the exceptions of [json.loads] the [except] clause catches
    [JSONDecodeError] only.  The [Live] display, which shows the text so far
    and is erased when the loop ends, is left out. *)
Fixpoint stream_loop (events : list event) (full_response : str)
  : result str :=
  match events with
  | [] => Ok full_response
  | Broken e :: _ => Raise e
  | Line None :: _ => Raise UnicodeDecodeError
  | Line (Some []) :: rest => stream_loop rest full_response
  | Line (Some line) :: rest =>
      if is_prefix (lit "data: ") line then
        let data_str := skipn 6 line in
        if eqb_str data_str (lit "[DONE]") then Ok full_response
        else
          match json_loads data_str with
          | Raise JSONDecodeError => stream_loop rest full_response
          | Raise e => Raise e
          | Ok chunk =>
              match chunk_content chunk with
              | Raise e => Raise e
              | Ok None => stream_loop rest full_response
              | Ok (Some content) =>
                  stream_loop rest (full_response ++ content)
              end
          end
      else stream_loop rest full_response
  end.

Definition _stream_response (c : client) (headers : list (str * str))
  (data_model : str) (data_messages : list message) (data_stream : bool)
  : result (str * client) :=
  response <~ post (MkRequest base_url headers data_model data_messages
                      data_stream true) ;;
  match resp_status response with
  | Some e => Raise e
  | None =>
      full_response <~ stream_loop (resp_lines response) [] ;;
      Ok (full_response,
          set_history c (conversation_history c
                         ++ [MkMessage (lit "assistant") (JStr full_response)]))
  end.

Definition send_message (c : client) (message : str) (stream : bool)
  : value * client :=
  let c := set_history c (conversation_history c
                          ++ [MkMessage (lit "user") (JStr message)]) in
  let messages :=
    MkMessage (lit "system") (JStr get_system_prompt)
    :: conversation_history c in
  let headers :=
    [ (lit "Authorization", lit "Bearer " ++ api_key c);
      (lit "Content-Type", lit "application/json");
      (lit "HTTP-Referer", lit "https://github.com/ai-cli");
      (lit "X-Title", lit "AI CLI") ] in
  let attempt : result (value * client) :=
    if stream then
      r <~ _stream_response c headers (model c) messages stream ;;
      Ok (JStr (fst r), snd r)
    else
      response <~ post (MkRequest base_url headers (model c) messages
                          stream false) ;;
      match resp_status response with
      | Some e => Raise e
      | None =>
          result <~ resp_json response ;;
          choices <~ getitem result (lit "choices") ;;
          first <~ getitem0 choices ;;
          msg <~ getitem first (lit "message") ;;
          assistant_message <~ getitem msg (lit "content") ;;
          Ok (assistant_message,
              set_history c (conversation_history c
                             ++ [MkMessage (lit "assistant")
                                   assistant_message]))
      end
  in
  match attempt with
  | Ok r => r
  | Raise e => (JStr (lit "Error communicating with AI: " ++ describe e), c)
  end.

Definition clear_history (c : client) : client := set_history c [].

End Client.

End Chat.

(** ** The configuration file *)

Module Config.
Import Py Json.

(** [CONFIG_FILE] as [Config.load] sees it: not there, there with a text
    that [json.load] turns into a value, or such that opening or parsing it
    raises. *)
Inductive file : Type :=
| Absent
| Holds (v : value)
| Unreadable (e : exn).

(** What the file system does when [Config.save] writes: it takes the text;
    or [CONFIG_DIR.mkdir] or [open(CONFIG_FILE, 'w')] raises and the file
    is as it was; or the write raises once the file is open, and the file
    is left with a part of the text, which is not JSON. *)
Inductive disk : Type :=
| Writable
| Refuses (e : exn)
| Fails (e : exn).

Definition load (f : file) : result value :=
  match f with
  | Absent => Ok (JDict [])
  | Holds v => Ok v
  | Unreadable e => Raise e
  end.

(** [Config.save]: the file afterwards and the exception raised, if any.
    The text [json.dump] writes for [config] is read back by [json.load]
    as [config]. *)
Definition save (d : disk) (f : file) (config : value)
  : file * option exn :=
  match d with
  | Writable => (Holds config, None)
  | Refuses e => (f, Some e)
  | Fails e => (Unreadable JSONDecodeError, Some e)
  end.

(** [env] is [os.getenv('OPENROUTER_API_KEY')]. *)
Definition get_api_key (f : file) (env : option str) : result value :=
  config <~ load f ;;
  key <~ get config (lit "api_key") JNull ;;
  Ok (if truthy key then key
      else match env with
           | Some s => JStr s
           | None => JNull
           end).

(** [Config.set_api_key]: the file afterwards and the exception raised, if
    any. *)
Definition set_api_key (d : disk) (f : file) (api_key : str)
  : file * option exn :=
  match load f with
  | Raise e => (f, Some e)
  | Ok config =>
      match setitem config (lit "api_key") (JStr api_key) with
      | Raise e => (f, Some e)
      | Ok config => save d f config
      end
  end.

End Config.

(** ** Definitions used to state the properties of the conversation *)

Import Json.

(** A line of the stream that carries [payload]. *)
Definition data_line (payload : str) : Chat.event :=
  Chat.Line (Some (lit "data: " ++ payload)).

(** The line that ends a stream. *)
Definition done_line : Chat.event := data_line (lit "[DONE]").

(** The message a user or the model contributes to the history. *)
Definition user_says (message : str) : Chat.message :=
  Chat.MkMessage (lit "user") (JStr message).

Definition assistant_says (reply : value) : Chat.message :=
  Chat.MkMessage (lit "assistant") reply.

(** The text an exception turns into in [send_message]. *)
Definition error_reply (describe : exn -> str) (e : exn) : value :=
  JStr (lit "Error communicating with AI: " ++ describe e).

(** The text of a chunk of the usual form: an object whose [choices] is a
    list that starts with an object whose [delta] is an object whose
    [content] is a string. *)
Definition delta_text (chunk : value) : option str :=
  match chunk with
  | JDict d =>
      match lookup (lit "choices") d with
      | Some (JList (JDict first :: _)) =>
          match lookup (lit "delta") first with
          | Some (JDict delta) =>
              match lookup (lit "content") delta with
              | Some (JStr s) => Some s
              | _ => None
              end
          | _ => None
          end
      | _ => None
      end
  | _ => None
  end.

(** [payload] is not the end marker and parses to a chunk of the usual form
    with text [fragment]. *)
Definition carries (json_loads : str -> result value)
  (item : str * str) : Prop :=
  fst item <> lit "[DONE]"
  /\ exists chunk, json_loads (fst item) = Ok chunk
                   /\ delta_text chunk = Some (snd item).

(** Lines that add nothing to the reply: a line without the [data: ]
    prefix (an empty line, a comment, another field), a payload that the
    parser rejects with [JSONDecodeError], and an object without [choices]
    or with an empty list of choices. *)
Inductive skipped (json_loads : str -> result value) : Chat.event -> Prop :=
| skipped_other line :
    is_prefix (lit "data: ") line = false ->
    skipped json_loads (Chat.Line (Some line))
| skipped_invalid payload :
    payload <> lit "[DONE]" ->
    json_loads payload = Raise JSONDecodeError ->
    skipped json_loads (data_line payload)
| skipped_no_choices payload d :
    payload <> lit "[DONE]" ->
    json_loads payload = Ok (JDict d) ->
    lookup (lit "choices") d = None ->
    skipped json_loads (data_line payload)
| skipped_empty_choices payload d :
    payload <> lit "[DONE]" ->
    json_loads payload = Ok (JDict d) ->
    lookup (lit "choices") d = Some (JList []) ->
    skipped json_loads (data_line payload).

(** JSON values that are neither text nor containers. *)
Definition scalar (v : value) : bool :=
  match v with
  | JNull | JBool _ | JInt _ | JFloat _ => true
  | _ => false
  end.

(** Events that end the loop of [_stream_response] with an exception: a
    failure of the connection, bytes that are not UTF-8, a payload on which
    the parser raises anything but [JSONDecodeError], and a payload that
    parses to [null], a boolean or a number. *)
Inductive aborts (json_loads : str -> result value)
  : Chat.event -> exn -> Prop :=
| aborts_broken e : aborts json_loads (Chat.Broken e) e
| aborts_undecodable : aborts json_loads (Chat.Line None) UnicodeDecodeError
| aborts_parser payload e :
    payload <> lit "[DONE]" ->
    json_loads payload = Raise e ->
    e <> JSONDecodeError ->
    aborts json_loads (data_line payload) e
| aborts_scalar payload chunk :
    payload <> lit "[DONE]" ->
    json_loads payload = Ok chunk ->
    scalar chunk = true ->
    aborts json_loads (data_line payload) TypeError.

(** The request [send_message] posts for [message] from the client [c]. *)
Definition request_of (describe : exn -> str) (cwd : str)
  (listdir : result (list str)) (c : Chat.client) (message : str)
  (stream : bool) : Chat.request :=
  Chat.MkRequest Chat.base_url
    [ (lit "Authorization", lit "Bearer " ++ Chat.api_key c);
      (lit "Content-Type", lit "application/json");
      (lit "HTTP-Referer", lit "https://github.com/ai-cli");
      (lit "X-Title", lit "AI CLI") ]
    (Chat.model c)
    (Chat.MkMessage (lit "system")
       (JStr (Chat.get_system_prompt describe cwd listdir))
     :: Chat.conversation_history c ++ [user_says message])
    stream stream.

(** A parser that knows a few payloads, for the examples. *)
Definition sample_loads (payload : str) : result value :=
  if eqb_str payload (lit "{a}") then
    Ok (JDict [(lit "choices",
                JList [JDict [(lit "delta",
                               JDict [(lit "content", JStr (lit "Hel"))])]])])
  else if eqb_str payload (lit "{b}") then
    Ok (JDict [(lit "choices",
                JList [JDict [(lit "delta",
                               JDict [(lit "content", JStr (lit "lo"))])]])])
  else if eqb_str payload (lit "{e}") then
    Ok (JDict [(lit "error", JStr (lit "overloaded"))])
  else if eqb_str payload (lit "null") then Ok JNull
  else if eqb_str payload (lit "[[[[") then Raise RecursionError
  else Raise JSONDecodeError.

(** The value is a [dict]. *)
Definition is_dict (v : value) : bool :=
  match v with
  | JDict _ => true
  | _ => false
  end.

(** [os.getenv(...)] as a Python value. *)
Definition env_value (env : option str) : value :=
  match env with
  | Some s => JStr s
  | None => JNull
  end.

(** ** The interactive loop *)

Module Shell.
Import Py Json AIClient.

(** What [Prompt.ask] gives: the line typed, or one of the two exceptions
    the loop handles apart. *)
Inductive input : Type :=
| Typed (user_input : str)
| KeyboardInterrupt
| EOFError.

(** What the loop shows: a block printed on the console, a panel with its
    title, and the panel of the banner. *)
Inductive output : Type :=
| Shown (b : block)
| Panel (content title : str)
| PanelFit (text : str).

(** How a turn of the loop ends: the loop goes on, it ends ([break]), or an
    exception leaves [interactive_mode]. *)
Inductive outcome : Type :=
| Continue
| Break
| Crash (e : exn).

(** [s.split(maxsplit=1)]: the first word and, if anything but whitespace
    follows, the rest from its first character that is not whitespace. *)
Definition split_once (s : str) : list str :=
  match lstrip isspace s with
  | [] => []
  | c :: s' =>
      let n := prefix_len (fun c => negb (isspace c)) (c :: s') in
      match lstrip isspace (skipn n (c :: s')) with
      | [] => [firstn n (c :: s')]
      | d :: rest => [firstn n (c :: s'); d :: rest]
      end
  end.

Definition banner : str :=
  Chat.join [NEWLINE]
    [ lit "[bold cyan]AI CLI - Interactive Mode[/bold cyan]";
      lit "Type your messages and press Enter. Commands:";
      lit "  [yellow]/clear[/yellow] - Clear conversation history";
      lit "  [yellow]/exit[/yellow] or [yellow]/quit[/yellow] - Exit";
      lit "  [yellow]/read <file>[/yellow] - Read a file";
      lit "  [yellow]/write <file>[/yellow] - Write to a file (next message is content)" ].

Section Loop.

(** The file system and the network, as the loop finds them. *)
Variable world : Type.

Variable B : backends.

(** The console, as in [AIClient.print_str]: it raises [MarkupError] on a
    text whose markup it rejects.  The texts that the source prints as they
    are written there have well-formed markup and are shown; a text put
    together from what the user typed, from a file or from an exception may
    be rejected. *)
Variable markup_error : str -> bool.

Variable json_loads : str -> result value.
Variable post : world -> Chat.request -> result Chat.response.
Variable describe : exn -> str.
Variable cwd : str.
Variable listdir : world -> result (list str).

(** [str.lower] *)
Variable lower : str -> str.

(** [AIClient.read_file] and [AIClient.write_file]: both catch every
    exception and return a text; writing changes the file system. *)
Variable read_file : world -> str -> str.
Variable write_file : world -> str -> str -> str * world.

(** The variables of the loop. *)
Record state : Type := MkState {
  client : Chat.client;
  write_mode : option str;
  files : world
}.

Definition say (text : str) : output := Shown (Plain text).

(** The [except Exception] clause of the loop, entered with the variables
    as they are and after [shown] was shown: it prints the text of the
    exception between two tags.  When the console rejects that text as
    well, the exception of this print is caught by nothing and leaves
    [interactive_mode]. *)
Definition handler (st : state) (shown : list output) (e : exn)
  : state * list output * outcome :=
  let text := lit "[red]Error: " ++ describe e ++ lit "[/red]" in
  if rejected markup_error text then (st, shown, Crash MarkupError)
  else (st, shown ++ [say text], Continue).

(** The branch of a line that starts with a slash: the variables, what is
    shown, and how the turn ends. *)
Definition command (st : state) (user_input : str)
  : state * list output * outcome :=
  let cmd_parts := split_once user_input in
  match cmd_parts with
  | [] => handler st [] IndexError
  | first :: _ =>
      let cmd := lower first in
      if eqb_str cmd (lit "/exit") || eqb_str cmd (lit "/quit") then
        (st, [say (lit "[yellow]Goodbye![/yellow]")], Break)
      else if eqb_str cmd (lit "/clear") then
        (MkState (Chat.clear_history (client st)) (write_mode st) (files st),
         [say (lit "[yellow]Conversation history cleared.[/yellow]")],
         Continue)
      else if eqb_str cmd (lit "/read") && (1 <? length cmd_parts)%nat then
        let filepath := nth 1 cmd_parts [] in
        let content := read_file (files st) filepath in
        let title := lit "[cyan]" ++ filepath ++ lit "[/cyan]" in
        if rejected markup_error content || rejected markup_error title
        then handler st [] MarkupError
        else (st, [Panel content title], Continue)
      else if eqb_str cmd (lit "/write") && (1 <? length cmd_parts)%nat then
        let target := nth 1 cmd_parts [] in
        let st := MkState (client st) (Some target) (files st) in
        let text := lit "[yellow]Next message will be written to " ++ target
                    ++ lit "[/yellow]" in
        if rejected markup_error text then handler st [] MarkupError
        else (st, [say text], Continue)
      else (st, [say (lit "[red]Unknown command[/red]")], Continue)
  end.

(** The body of the loop on a line.  When [render_response] raises, what it
    had shown before is not kept in the list. *)
Definition on_line (st : state) (user_input : str)
  : state * list output * outcome :=
  match strip user_input with
  | [] => (st, [], Continue)
  | _ :: _ =>
      if is_prefix (lit "/") user_input then command st user_input
      else
        match write_mode st with
        | Some (c :: target) =>
            let r := write_file (files st) (c :: target) user_input in
            let text := lit "[green]" ++ fst r ++ lit "[/green]" in
            if rejected markup_error text
            then handler (MkState (client st) (write_mode st) (snd r)) []
                   MarkupError
            else (MkState (client st) None (snd r), [say text], Continue)
        | _ =>
            let heading := say (NEWLINE :: lit "[bold cyan]AI:[/bold cyan]") in
            let r := Chat.send_message json_loads (post (files st)) describe
                       cwd (listdir (files st)) (client st) user_input true in
            let st := MkState (snd r) (write_mode st) (files st) in
            match fst r with
            | JStr response =>
                match render_response B markup_error response with
                | Some blocks => (st, heading :: map Shown blocks, Continue)
                | None => handler st [heading] MarkupError
                end
            | _ => handler st [heading] TypeError
            end
        end
  end.

Definition step (st : state) (i : input) : state * list output * outcome :=
  match i with
  | Typed user_input => on_line st user_input
  | KeyboardInterrupt =>
      (st, [say (NEWLINE :: lit "[yellow]Use /exit to quit[/yellow]")],
       Continue)
  | EOFError => (st, [], Break)
  end.

(** The [while True] loop over what is typed: the variables at the end,
    what was shown, and the exception that left the loop, if any.  The loop
    ends at [break], at such an exception, or when nothing more is
    typed. *)
Fixpoint loop (inputs : list input) (st : state)
  : state * list output * option exn :=
  match inputs with
  | [] => (st, [], None)
  | i :: rest =>
      let r := step st i in
      match snd r with
      | Continue =>
          let r' := loop rest (fst (fst r)) in
          (fst (fst r'), snd (fst r) ++ snd (fst r'), snd r')
      | Break => (fst (fst r), snd (fst r), None)
      | Crash e => (fst (fst r), snd (fst r), Some e)
      end
  end.

Definition interactive_mode (c : Chat.client) (w : world)
  (inputs : list input) : state * list output * option exn :=
  let r := loop inputs (MkState c None w) in
  (fst (fst r), PanelFit banner :: snd (fst r), snd r).

End Loop.

Arguments MkState {world} client write_mode files.
Arguments client {world} s.
Arguments write_mode {world} s.
Arguments files {world} s.

End Shell.

(** ** Definitions used to state the properties of the interactive loop *)

(** Not whitespace. *)
Definition nonspace (c : char) : bool := negb (isspace c).


(** For the examples: lower case on ASCII letters, and a file system that
    is the list of what was written, latest first. *)
Definition sample_lower (s : str) : str :=
  map (fun c => if (65 <=? c) && (c <=? 90) then c + 32 else c) s.

Definition sample_read (w : list (str * str)) (filepath : str) : str :=
  match find (fun f => eqb_str (fst f) filepath) w with
  | Some f => snd f
  | None => lit "Error reading file: not found"
  end.

Definition sample_write (w : list (str * str)) (filepath content : str)
  : str * list (str * str) :=
  (lit "Successfully wrote to " ++ filepath, (filepath, content) :: w).

(** The texts the loop prints with text of the user or of the system in
    them: after [/write], after a write, and for an exception. *)
Definition announcement (target : str) : str :=
  lit "[yellow]Next message will be written to " ++ target ++ lit "[/yellow]".


Definition error_text (describe : exn -> str) (e : exn) : str :=
  lit "[red]Error: " ++ describe e ++ lit "[/red]".

(** ** The matcher *)

Lemma in_counts (g : bool) (lo n k : nat) :
  In k (counts g lo n) <-> (lo <= k < lo + n)%nat.
Proof.
  unfold counts. destruct g.
  - rewrite <- in_rev. apply in_seq.
  - apply in_seq.
Qed.

Lemma is_prefix_app (l s : str) :
  is_prefix l s = true <-> exists t, s = l ++ t.
Proof.
  revert s. induction l as [|a l IH]; intros s; simpl.
  - split; [intros _; now exists s | reflexivity].
  - destruct s as [|b s].
    + split; [discriminate | intros [t Ht]; discriminate].
    + rewrite andb_true_iff, Z.eqb_eq, IH. split.
      * intros [-> [t ->]]. now exists t.
      * intros [t Ht]. injection Ht as -> ->. split; [reflexivity | now exists t].
Qed.

Lemma is_prefix_length (l s : str) :
  is_prefix l s = true -> (length l <= length s)%nat.
Proof.
  intros H. apply is_prefix_app in H as [t ->].
  rewrite length_app. lia.
Qed.

Lemma prefix_len_le (p : char -> bool) (s : str) : (prefix_len p s <= length s)%nat.
Proof.
  induction s as [|c s IH]; simpl; [lia|]. destruct (p c); lia.
Qed.

Lemma prefix_len_forallb (p : char -> bool) (s : str) (k : nat) :
  (k <= prefix_len p s)%nat -> forallb p (firstn k s) = true.
Proof.
  revert k. induction s as [|c s IH]; intros k Hk; simpl in *.
  - now rewrite firstn_nil.
  - destruct k as [|k]; [reflexivity|]. simpl.
    destruct (p c) eqn:E; [|lia]. simpl. apply IH. lia.
Qed.

Lemma in_runs_str l prev s n gs :
  In (n, gs) (runs (Str l) prev s) <->
  is_prefix l s = true /\ n = length l /\ gs = [].
Proof.
  simpl. destruct (is_prefix l s); simpl.
  - split.
    + intros [H|[]]. injection H as <- <-. auto.
    + intros (_ & -> & ->). now left.
  - split; [intros [] | intros (H & _); discriminate].
Qed.

Lemma in_runs_star g p prev s n gs :
  In (n, gs) (runs (Star g p) prev s) <-> (n <= prefix_len p s)%nat /\ gs = [].
Proof.
  simpl. rewrite in_map_iff. split.
  - intros (k & H & Hk). injection H as <- <-.
    apply in_counts in Hk. split; [lia | reflexivity].
  - intros (Hn & ->). exists n. split; [reflexivity|].
    apply in_counts. lia.
Qed.

Lemma in_runs_plus g p prev s n gs :
  In (n, gs) (runs (Plus g p) prev s) <->
  (1 <= n <= prefix_len p s)%nat /\ gs = [].
Proof.
  simpl. rewrite in_map_iff. split.
  - intros (k & H & Hk). injection H as <- <-.
    apply in_counts in Hk. split; [lia | reflexivity].
  - intros (Hn & ->). exists n. split; [reflexivity|].
    apply in_counts. lia.
Qed.

Lemma in_runs_group r prev s n gs :
  In (n, gs) (runs (Group r) prev s) <->
  exists gs', In (n, gs') (runs r prev s) /\ gs = firstn n s :: gs'.
Proof.
  simpl. rewrite in_map_iff. split.
  - intros ([k gs'] & H & Hin). simpl in H. injection H as <- <-.
    now exists gs'.
  - intros (gs' & Hin & ->). now exists (n, gs').
Qed.

Lemma in_runs_notafter c prev s n gs :
  In (n, gs) (runs (NotAfter c) prev s) <->
  prev <> Some c /\ n = O /\ gs = [].
Proof.
  simpl. destruct prev as [x|].
  - destruct (Z.eqb_spec x c) as [->|Hne]; simpl.
    + split; [intros [] | intros (H & _); now elim H].
    + split.
      * intros [H|[]]. injection H as <- <-. repeat split. congruence.
      * intros (_ & -> & ->). now left.
  - simpl. split.
    + intros [H|[]]. injection H as <- <-. repeat split. discriminate.
    + intros (_ & -> & ->). now left.
Qed.

Lemma in_runs_cat r1 r2 prev s n gs :
  In (n, gs) (runs (r1 +++ r2) prev s) <->
  exists n1 g1 n2 g2,
    In (n1, g1) (runs r1 prev s) /\
    In (n2, g2) (runs r2 (last_char prev s n1) (skipn n1 s)) /\
    n = (n1 + n2)%nat /\ gs = g1 ++ g2.
Proof.
  simpl. rewrite in_flat_map. split.
  - intros ([n1 g1] & H1 & H2). apply in_map_iff in H2 as ([n2 g2] & E & H2).
    simpl in *. injection E as <- <-. now exists n1, g1, n2, g2.
  - intros (n1 & g1 & n2 & g2 & H1 & H2 & -> & ->).
    exists (n1, g1). split; [assumption|]. apply in_map_iff.
    now exists (n2, g2).
Qed.

Lemma runs_bound r : forall prev s n gs,
  In (n, gs) (runs r prev s) -> (min_len r <= n <= length s)%nat.
Proof.
  induction r as [l|p|g p|g p|r IH|c|r1 IH1 r2 IH2]; intros prev s n gs H.
  - apply in_runs_str in H as (H & -> & _). apply is_prefix_length in H.
    simpl. lia.
  - simpl in H. destruct s as [|c s]; [destruct H|].
    destruct (p c); [|destruct H]. destruct H as [H|[]].
    injection H as <- <-. simpl. lia.
  - apply in_runs_star in H as (H & _). pose proof (prefix_len_le p s). simpl. lia.
  - apply in_runs_plus in H as (H & _). pose proof (prefix_len_le p s). simpl. lia.
  - apply in_runs_group in H as (gs' & H & _). simpl. eauto.
  - apply in_runs_notafter in H as (_ & -> & _). simpl. lia.
  - apply in_runs_cat in H as (n1 & g1 & n2 & g2 & H1 & H2 & -> & _).
    apply IH1 in H1. apply IH2 in H2. rewrite length_skipn in H2.
    simpl. lia.
Qed.

(** ** Searching *)

Lemma match_at_some r text pos m :
  match_at r text pos = Some m ->
  exists n gs,
    m = MkMatch pos (pos + n) gs /\
    In (n, gs) (runs r (last_char None text pos) (skipn pos text)).
Proof.
  unfold match_at.
  destruct (runs r (last_char None text pos) (skipn pos text))
    as [|[n gs] l] eqn:E; [discriminate|].
  intros H. injection H as <-. exists n, gs. split; [reflexivity|].
  now left.
Qed.

Lemma match_at_none r text pos :
  match_at r text pos = None <->
  runs r (last_char None text pos) (skipn pos text) = [].
Proof.
  unfold match_at.
  destruct (runs r (last_char None text pos) (skipn pos text)) as [|[n gs] l].
  - tauto.
  - split; discriminate.
Qed.

Lemma match_at_range r text pos m :
  match_at r text pos = Some m ->
  m_start m = pos /\
  (pos + min_len r <= m_end m)%nat /\
  (pos <= length text -> m_end m <= length text)%nat.
Proof.
  intros H. apply match_at_some in H as (n & gs & -> & Hin).
  apply runs_bound in Hin. rewrite length_skipn in Hin. simpl.
  repeat split; lia.
Qed.

Lemma search_upto_some r text : forall tries pos m,
  search_upto r text tries pos = Some m ->
  (pos <= m_start m < pos + tries)%nat /\
  match_at r text (m_start m) = Some m /\
  (forall i, (pos <= i < m_start m)%nat -> match_at r text i = None).
Proof.
  induction tries as [|k IH]; intros pos m H; simpl in H; [discriminate|].
  destruct (match_at r text pos) as [m'|] eqn:E.
  - injection H as <-. destruct (match_at_range _ _ _ _ E) as (Hs & _).
    rewrite Hs. split; [lia|]. split; [assumption|]. intros i Hi. lia.
  - apply IH in H as (Hr & Hm & Hn). split; [lia|]. split; [assumption|].
    intros i Hi. destruct (Nat.eq_dec i pos) as [->|Hne]; [assumption|].
    apply Hn. lia.
Qed.

Lemma search_upto_none r text : forall tries pos,
  search_upto r text tries pos = None <->
  (forall i, (pos <= i < pos + tries)%nat -> match_at r text i = None).
Proof.
  induction tries as [|k IH]; intros pos; simpl.
  - split; [intros _ i Hi; lia | reflexivity].
  - destruct (match_at r text pos) as [m'|] eqn:E.
    + split; [discriminate|]. intros H. rewrite H in E by lia. discriminate.
    + rewrite IH. split.
      * intros H i Hi. destruct (Nat.eq_dec i pos) as [->|Hne];
          [assumption | apply H; lia].
      * intros H i Hi. apply H. lia.
Qed.

(** [search] returns the leftmost position at or after [pos] where the
    pattern matches, with the match found there. *)
Lemma search_some r text pos m :
  search r text pos = Some m ->
  (pos <= m_start m <= length text)%nat /\
  match_at r text (m_start m) = Some m /\
  (forall i, (pos <= i < m_start m)%nat -> match_at r text i = None).
Proof.
  unfold search. intros H. apply search_upto_some in H as (Hr & Hm & Hn).
  split; [lia|]. split; assumption.
Qed.

Lemma search_none r text pos :
  search r text pos = None <->
  (forall i, (pos <= i <= length text)%nat -> match_at r text i = None).
Proof.
  unfold search. rewrite search_upto_none. split; intros H i Hi; apply H; lia.
Qed.

Lemma search_range r text pos m :
  search r text pos = Some m ->
  (pos <= m_start m)%nat /\
  (m_start m + min_len r <= m_end m)%nat /\
  (m_end m <= length text)%nat.
Proof.
  intros H. apply search_some in H as (Hr & Hm & _).
  apply match_at_range in Hm as (_ & H1 & H2). repeat split; lia.
Qed.

(** A failed attempt at [pos] moves the search one character on. *)
Lemma search_skip r text pos :
  (pos <= length text)%nat ->
  match_at r text pos = None ->
  search r text pos = search r text (S pos).
Proof.
  intros Hle Hn. unfold search.
  replace (S (length text) - pos)%nat with (S (S (length text) - S pos)) by lia.
  simpl. now rewrite Hn.
Qed.

Lemma search_here r text pos m :
  (pos <= length text)%nat ->
  match_at r text pos = Some m ->
  search r text pos = Some m.
Proof.
  intros Hle Hm. unfold search.
  replace (S (length text) - pos)%nat with (S (length text - pos)) by lia.
  simpl. now rewrite Hm.
Qed.

(** A pattern that opens with a literal absent from the text matches
    nowhere. *)
Lemma runs_first_char r c prev s :
  first_char r = Some c -> hd_error s <> Some c -> runs r prev s = [].
Proof.
  intros Hf Hs.
  assert (Hstr : forall l p, runs (Str (c :: l)) p s = []).
  { intros l p. simpl. destruct s as [|b s']; [reflexivity|].
    destruct (Z.eqb_spec c b) as [->|]; [now elim Hs | reflexivity]. }
  destruct r as [l|p|g p|g p|r|x|r1 r2]; simpl in Hf; try discriminate.
  - destruct l as [|a l]; [discriminate|]. injection Hf as ->.
    now apply Hstr.
  - destruct r1 as [l|p|g p|g p|r|x|r1a r1b]; try discriminate.
    + destruct l as [|a l]; [discriminate|]. injection Hf as ->.
      change (runs (Str (c :: l) +++ r2) prev s)
        with (flat_map
                (fun a => map (fun b => ((fst a + fst b)%nat, snd a ++ snd b))
                   (runs r2 (last_char prev s (fst a)) (skipn (fst a) s)))
                (runs (Str (c :: l)) prev s)).
      now rewrite (Hstr l prev).
    + destruct r2 as [l|p|g p|g p|r|y|r2a r2b]; try discriminate.
      destruct r2a as [l|p|g p|g p|r|y|r3 r4]; try discriminate.
      destruct l as [|a l]; [discriminate|]. injection Hf as ->.
      destruct (runs (NotAfter x +++ Str (c :: l) +++ r2b) prev s)
        as [|[n gs] rest] eqn:E; [reflexivity|].
      assert (Hin : In (n, gs) (runs (NotAfter x +++ Str (c :: l) +++ r2b) prev s))
        by (rewrite E; now left).
      apply in_runs_cat in Hin as (n1 & g1 & n2 & g2 & H1 & H2 & _).
      apply in_runs_notafter in H1 as (_ & -> & _).
      cbn [last_char skipn] in H2.
      apply in_runs_cat in H2 as (n3 & g3 & n4 & g4 & H3 & _).
      rewrite (Hstr l prev) in H3. destruct H3.
Qed.

Lemma hd_error_skipn_mem (c : char) (text : str) (pos : nat) :
  mem c text = false -> hd_error (skipn pos text) <> Some c.
Proof.
  revert pos. induction text as [|b text IH]; intros pos Hm.
  - rewrite skipn_nil. discriminate.
  - simpl in Hm. apply orb_false_iff in Hm as (Hb & Hm).
    destruct pos as [|pos]; simpl.
    + intros H. injection H as ->. now rewrite Z.eqb_refl in Hb.
    + now apply IH.
Qed.

Lemma search_absent r c text pos :
  first_char r = Some c -> mem c text = false -> search r text pos = None.
Proof.
  intros Hf Hm. apply search_none. intros i _. apply match_at_none.
  apply (runs_first_char r c); [assumption|]. now apply hd_error_skipn_mem.
Qed.

(** ** What a match looks like

    [shape r w gs]: the word [w] belongs to the language of [r], with the
    groups [gs] captured on the way. *)

Lemma firstn_plus (A : Type) (a b : nat) (s : list A) :
  firstn (a + b) s = firstn a s ++ firstn b (skipn a s).
Proof.
  revert s. induction a as [|a IH]; intros s; simpl; [reflexivity|].
  destruct s as [|x s]; simpl.
  - now rewrite firstn_nil.
  - now rewrite IH.
Qed.

Lemma skipn_pre (A : Type) (pre rest : list A) :
  skipn (length pre) (pre ++ rest) = rest.
Proof. rewrite skipn_app, skipn_all, Nat.sub_diag. reflexivity. Qed.

Lemma is_prefix_firstn (l s : str) :
  is_prefix l s = true -> firstn (length l) s = l.
Proof.
  intros H. apply is_prefix_app in H as [t ->].
  rewrite firstn_app, Nat.sub_diag, firstn_all. simpl. apply app_nil_r.
Qed.

Lemma runs_shape r : forall prev s n gs,
  In (n, gs) (runs r prev s) -> shape r (firstn n s) gs.
Proof.
  induction r as [l|p|g p|g p|r IH|c|r1 IH1 r2 IH2]; intros prev s n gs H.
  - apply in_runs_str in H as (H & -> & ->). simpl.
    split; [now apply is_prefix_firstn | reflexivity].
  - simpl in H. destruct s as [|c s]; [destruct H|].
    destruct (p c) eqn:E; [|destruct H]. destruct H as [H|[]].
    injection H as <- <-. simpl. exists c. auto.
  - apply in_runs_star in H as (H & ->). simpl.
    split; [now apply prefix_len_forallb | reflexivity].
  - apply in_runs_plus in H as (H & ->). simpl.
    split; [apply prefix_len_forallb; lia|]. split; [|reflexivity].
    destruct s as [|c s]; simpl in H; [lia|].
    destruct n; [lia | discriminate].
  - apply in_runs_group in H as (gs' & H & ->). simpl. exists gs'.
    split; [eauto | reflexivity].
  - apply in_runs_notafter in H as (_ & -> & ->). simpl. auto.
  - apply in_runs_cat in H as (n1 & g1 & n2 & g2 & H1 & H2 & -> & ->).
    simpl. exists (firstn n1 s), (firstn n2 (skipn n1 s)), g1, g2.
    split; [apply firstn_plus|]. split; [reflexivity|]. split; eauto.
Qed.

Lemma slice_firstn (text : str) (pos n : nat) :
  slice text pos (pos + n) = firstn n (skipn pos text).
Proof. unfold slice. f_equal. lia. Qed.

(** The text a match covers is a word of the pattern. *)
Lemma match_at_shape r text pos m :
  match_at r text pos = Some m ->
  shape r (slice text (m_start m) (m_end m)) (m_groups m).
Proof.
  intros H. apply match_at_some in H as (n & gs & -> & Hin). simpl.
  rewrite slice_firstn. eapply runs_shape; eassumption.
Qed.

Lemma search_shape r text pos m :
  search r text pos = Some m ->
  shape r (slice text (m_start m) (m_end m)) (m_groups m).
Proof.
  intros H. apply search_some in H as (_ & H & _).
  eapply match_at_shape; eassumption.
Qed.

(** ** [re.sub] *)

Lemma slice_skipn (text : str) (pos a : nat) :
  (pos <= a)%nat -> slice text pos a ++ skipn a text = skipn pos text.
Proof.
  intros H. unfold slice.
  replace (skipn a text) with (skipn (a - pos) (skipn pos text)).
  - apply firstn_skipn.
  - rewrite skipn_skipn. f_equal. lia.
Qed.

Lemma sub_loop_total r repl text :
  (0 < min_len r)%nat ->
  (forall pos m, search r text pos = Some m -> repl m <> None) ->
  forall fuel pos, (length text - pos < fuel)%nat ->
  exists out, sub_loop fuel r repl text pos = Some out.
Proof.
  intros Hmin Hrepl. induction fuel as [|fuel IH]; intros pos Hf; [lia|].
  simpl. destruct (search r text pos) as [m|] eqn:E.
  - pose proof (search_range _ _ _ _ E) as (H1 & H2 & H3).
    destruct (repl m) as [rep|] eqn:Er; [|now elim (Hrepl _ _ E)].
    destruct (IH (m_end m)) as [rest Hrest]; [lia|].
    rewrite Hrest. eauto.
  - eauto.
Qed.

Lemma re_sub_total r repl text :
  (0 < min_len r)%nat ->
  (forall pos m, search r text pos = Some m -> repl m <> None) ->
  exists out, re_sub r repl text = Some out.
Proof.
  intros Hmin Hrepl. apply sub_loop_total; [assumption | assumption | lia].
Qed.

(** Without a match the text comes back as it is. *)
Lemma re_sub_no_match r repl text :
  search r text O = None -> re_sub r repl text = Some text.
Proof. unfold re_sub. simpl. now intros ->. Qed.

(** ** The table-based conversion never raises *)

Ltac shape_inv H :=
  repeat match type of H with
         | shape (_ +++ _) _ _ =>
             let w1 := fresh "w" in
             let w2 := fresh "w" in
             let g1 := fresh "g" in
             let g2 := fresh "g" in
             let Hw := fresh "Hw" in
             let Hg := fresh "Hg" in
             let H1 := fresh "Hs" in
             destruct H as (w1 & w2 & g1 & g2 & Hw & Hg & H1 & H);
             cbn [shape] in H1
         end;
  cbn [shape] in H.

Lemma int_decimal (d : char) :
  isdecimal d = true -> exists v, int d = Some v /\ 0 <= v < 10.
Proof.
  unfold isdecimal, int. intros H.
  destruct (find (in_run d) decimal_bases) as [base|] eqn:E.
  - apply find_some in E as (_ & E). unfold in_run in E.
    apply andb_true_iff in E as (E1 & E2).
    apply Z.leb_le in E1. apply Z.ltb_lt in E2.
    exists (d - base). split; [reflexivity | lia].
  - apply existsb_exists in H as (b & Hb & Hr).
    now rewrite (find_none _ _ E b Hb) in Hr.
Qed.

Lemma join_map_total (f : char -> option char) (p : char -> bool) :
  (forall d, p d = true -> f d <> None) ->
  forall s, forallb p s = true -> join_map f s <> None.
Proof.
  intros Hf. induction s as [|d s IH]; intros H; simpl in *; [discriminate|].
  apply andb_true_iff in H as (Hd & Hs).
  destruct (f d) eqn:E; [|now elim (Hf d Hd)].
  destruct (join_map f s); [discriminate | now elim IH].
Qed.

Lemma script_digits_total (base : Z) (m : rmatch) (g : str) :
  0 <= base <= 1114000 ->
  m_groups m = [g] -> forallb isdecimal g = true ->
  script_digits base m <> None.
Proof.
  intros Hb Hg Hd. unfold script_digits, group. rewrite Hg. simpl.
  apply (join_map_total _ isdecimal); [|assumption].
  intros d H. apply int_decimal in H as (v & -> & Hv). unfold chr.
  destruct ((0 <=? base + v) && (base + v <=? 1114111)) eqn:E; [discriminate|].
  apply andb_false_iff in E as [E|E];
    [apply Z.leb_gt in E | apply Z.leb_gt in E]; lia.
Qed.

Lemma braced_group mark w gs :
  shape (braced_re mark) w gs ->
  exists g, gs = [g] /\ forallb isdecimal g = true /\ g <> [].
Proof.
  unfold braced_re. intros H. shape_inv H.
  destruct Hs as (_ & ->). destruct Hs0 as (_ & ->).
  destruct Hs1 as (_ & ->). destruct Hs2 as (_ & ->).
  destruct Hs3 as (gs' & (Hd & Hne & ->) & ->).
  destruct Hs4 as (_ & ->). destruct H as (_ & ->).
  subst. simpl. eauto.
Qed.

Lemma plain_group mark w gs :
  shape (plain_re mark) w gs ->
  exists g, gs = [g] /\ forallb isdecimal g = true /\ g <> [].
Proof.
  unfold plain_re. intros H. shape_inv H.
  destruct Hs as (_ & ->). destruct Hs0 as (_ & ->).
  destruct H as (gs' & (Hd & Hne & ->) & ->).
  subst. simpl. eauto.
Qed.

Lemma sub_table_total (table : list (str * str)) :
  Forall (fun pr : str * str => fst pr <> []) table ->
  forall s, exists out, sub_table table s = Some out.
Proof.
  unfold sub_table. induction 1 as [|pr table Hpr _ IH]; intros s;
    cbn [fold_left].
  - eauto.
  - destruct (re_sub_total (Str (fst pr)) (fun _ => Some (snd pr)) s)
      as [out Hout].
    + simpl. destruct (fst pr); [now elim Hpr | simpl; lia].
    + discriminate.
    + cbv beta iota. rewrite Hout. apply IH.
Qed.

Lemma keys_nonempty (table : list (str * str)) :
  forallb (fun pr : str * str => negb (Nat.eqb (length (fst pr)) 0)) table = true ->
  Forall (fun pr : str * str => fst pr <> []) table.
Proof.
  intros H. apply Forall_forall. intros pr Hin.
  rewrite forallb_forall in H. specialize (H pr Hin).
  intros E. now rewrite E in H.
Qed.

Lemma unicode_replace_total (latex : str) :
  exists out, unicode_replace latex = Some out.
Proof.
  unfold unicode_replace.
  destruct (sub_table_total greek (keys_nonempty greek eq_refl)
              (strip_chars (lit " {}") latex)) as [r1 ->].
  destruct (sub_table_total symbols (keys_nonempty symbols eq_refl) r1) as [r2 ->].
  destruct (re_sub_total frac_re
              (fun m => Some (group 1 m ++ lit "/" ++ group 2 m)) r2)
    as [r3 ->]; [simpl; lia | discriminate |].
  assert (Hb : forall mark base text,
             0 <= base <= 1114000 ->
             exists out, re_sub (braced_re mark) (script_digits base) text
                         = Some out).
  { intros mark base text Hbase. apply re_sub_total.
    - simpl. lia.
    - intros pos m Hm. apply search_shape in Hm.
      apply braced_group in Hm as (g & Hg & Hd & _).
      now apply (script_digits_total base m g). }
  assert (Hp : forall mark base text,
             0 <= base <= 1114000 ->
             exists out, re_sub (plain_re mark) (script_digits base) text
                         = Some out).
  { intros mark base text Hbase. apply re_sub_total.
    - simpl. lia.
    - intros pos m Hm. apply search_shape in Hm.
      apply plain_group in Hm as (g & Hg & Hd & _).
      now apply (script_digits_total base m g). }
  unfold superscript_digits, subscript_digits.
  destruct (Hb "^"%string 0x2070 r3) as [r4 ->]; [lia|].
  destruct (Hb "_"%string 0x2080 r4) as [r5 ->]; [lia|].
  destruct (Hp "^"%string 0x2070 r5) as [r6 ->]; [lia|].
  destruct (Hp "_"%string 0x2080 r6) as [r7 ->]; [lia|].
  eauto.
Qed.

Lemma replace_math_total (B : backends) (m : rmatch) :
  exists out, replace_math B m = Some out.
Proof.
  unfold replace_math.
  destruct (if PYLATEXENC_SUPPORT B then latex_to_text B (strip (group 1 m))
            else None); [eauto|].
  destruct (unicode_replace_total (strip (group 1 m))) as [conv ->].
  destruct (if SYMPY_SUPPORT B then sympy_pretty B (strip (group 1 m))
            else None); [|eauto].
  destruct (measurably_longer _ conv); eauto.
Qed.


(** ** The segmentation loop *)

Lemma best_step_inv text pos tried st p :
  (0 < min_len (fst p))%nat ->
  best_inv text pos tried st ->
  best_inv text pos (tried ++ [p]) (best_step text pos st p).
Proof.
  intros Hmin Hinv. unfold best_step.
  destruct st as [[om ms] inl]. cbn [fst snd].
  destruct (search (fst p) text pos) as [m'|] eqn:E.
  - pose proof (search_range _ _ _ _ E) as (R1 & R2 & R3).
    destruct (Nat.ltb_spec (m_start m') ms) as [Hlt|Hge].
    + (* the new match starts earlier *)
      split; [reflexivity|]. exists (length tried), (fst p).
      split; [|split].
      * rewrite nth_error_app2, Nat.sub_diag by lia.
        now destruct p.
      * assumption.
      * intros j q m'' Hj Hq.
        destruct (Nat.lt_ge_cases j (length tried)) as [Hjt|Hjt].
        -- rewrite nth_error_app1 in Hj by assumption.
           destruct om as [m|]; simpl in Hinv.
           ++ destruct Hinv as (-> & i & r & _ & _ & Hbest).
              destruct (Hbest j q m'' Hj Hq) as (Hle & _). lia.
           ++ destruct Hinv as (_ & Hnone).
              apply nth_error_In in Hj. rewrite (Hnone q Hj) in Hq.
              discriminate.
        -- rewrite nth_error_app2 in Hj by assumption.
           destruct (j - length tried)%nat as [|k] eqn:Ek; simpl in Hj.
           ++ injection Hj as <-. rewrite E in Hq. injection Hq as <-. lia.
           ++ now destruct k.
    + (* the state is kept *)
      destruct om as [m|]; simpl in Hinv |- *.
      * destruct Hinv as (-> & i & r & Hi & Hr & Hbest).
        split; [reflexivity|]. exists i, r.
        assert (Hit : (i < length tried)%nat)
          by (apply nth_error_Some; congruence).
        split; [now rewrite nth_error_app1|]. split; [assumption|].
        intros j q m'' Hj Hq.
        destruct (Nat.lt_ge_cases j (length tried)) as [Hjt|Hjt].
        -- rewrite nth_error_app1 in Hj by assumption. eauto.
        -- rewrite nth_error_app2 in Hj by assumption.
           destruct (j - length tried)%nat as [|k] eqn:Ek; simpl in Hj.
           ++ injection Hj as <-. rewrite E in Hq. injection Hq as <-. lia.
           ++ now destruct k.
      * destruct Hinv as (-> & _). lia.
  - destruct om as [m|]; simpl in Hinv |- *.
    + destruct Hinv as (-> & i & r & Hi & Hr & Hbest).
      split; [reflexivity|]. exists i, r.
      assert (Hit : (i < length tried)%nat)
        by (apply nth_error_Some; congruence).
      split; [now rewrite nth_error_app1|]. split; [assumption|].
      intros j q m'' Hj Hq.
      destruct (Nat.lt_ge_cases j (length tried)) as [Hjt|Hjt].
      * rewrite nth_error_app1 in Hj by assumption. eauto.
      * rewrite nth_error_app2 in Hj by assumption.
        destruct (j - length tried)%nat as [|k] eqn:Ek; simpl in Hj.
        -- injection Hj as <-. rewrite E in Hq. discriminate.
        -- now destruct k.
    + destruct Hinv as (-> & Hnone). split; [reflexivity|].
      intros q Hq. apply in_app_or in Hq as [Hq|[<-|[]]]; auto.
Qed.

Lemma best_fold_inv text pos : forall ps tried st,
  Forall (fun p => (0 < min_len (fst p))%nat) ps ->
  best_inv text pos tried st ->
  best_inv text pos (tried ++ ps) (fold_left (best_step text pos) ps st).
Proof.
  induction ps as [|p ps IH]; intros tried st Hps Hinv; simpl.
  - now rewrite app_nil_r.
  - inversion Hps as [|? ? Hp Hps']; subst.
    replace (tried ++ p :: ps) with ((tried ++ [p]) ++ ps)
      by now rewrite <- app_assoc.
    apply IH; [assumption|]. now apply best_step_inv.
Qed.

Lemma image_patterns_nonempty :
  Forall (fun p : regex * bool => (0 < min_len (fst p))%nat) image_patterns.
Proof. repeat constructor; simpl; lia. Qed.

Lemma best_match_inv text pos :
  best_inv text pos image_patterns (best_match text pos).
Proof.
  unfold best_match.
  apply (best_fold_inv text pos image_patterns [] (None, length text, false)).
  - apply image_patterns_nonempty.
  - simpl. split; [reflexivity|]. intros p [].
Qed.

(** The match the loop settles on comes from one of the patterns and lies
    after [pos], inside the text, and is not empty. *)
Lemma best_match_some text pos m ms inl :
  best_match text pos = (Some m, ms, inl) ->
  exists r, In (r, inl) image_patterns /\ search r text pos = Some m /\
            (pos <= m_start m < m_end m)%nat /\ (m_end m <= length text)%nat.
Proof.
  intros H. pose proof (best_match_inv text pos) as Hinv. rewrite H in Hinv.
  destruct Hinv as (_ & i & r & Hi & Hr & _).
  exists r. apply nth_error_In in Hi. split; [assumption|].
  split; [assumption|].
  pose proof (search_range _ _ _ _ Hr) as (R1 & R2 & R3).
  assert (0 < min_len r)%nat.
  { pose proof image_patterns_nonempty as Hne.
    rewrite Forall_forall in Hne. apply (Hne _ Hi). }
  lia.
Qed.

Lemma scan_total (text : str) : forall fuel pos,
  (length text - pos < fuel)%nat ->
  exists spans, scan fuel text pos = Some spans.
Proof.
  induction fuel as [|fuel IH]; intros pos Hf; [lia|]. simpl.
  destruct (Nat.ltb_spec pos (length text)) as [Hlt|Hge]; [|eauto].
  destruct (best_match text pos) as [[[m|] ms] inl] eqn:E; [|eauto].
  apply best_match_some in E as (r & _ & _ & R1 & R2).
  destruct (IH (m_end m)) as [rest ->]; [lia|]. eauto.
Qed.

(** The sources of the spans, put end to end, are the text from [pos] on. *)
Lemma scan_tiles (text : str) : forall fuel pos spans,
  scan fuel text pos = Some spans ->
  concat (map (source text) spans) = skipn pos text.
Proof.
  induction fuel as [|fuel IH]; intros pos spans H; [discriminate|].
  simpl in H.
  destruct (Nat.ltb_spec pos (length text)) as [Hlt|Hge].
  - destruct (best_match text pos) as [[[m|] ms] inl] eqn:E.
    + destruct (scan fuel text (m_end m)) as [rest|] eqn:Er; [|discriminate].
      injection H as <-. apply best_match_some in E as (r & _ & _ & R1 & R2).
      simpl. rewrite (IH _ _ Er).
      rewrite slice_skipn by lia. now rewrite slice_skipn by lia.
    + injection H as <-. simpl. apply app_nil_r.
  - injection H as <-. simpl. symmetry. apply skipn_all2. lia.
Qed.

(** Every math span is a match of one of the patterns, found by [search]
    from the end of the span before it. *)
Lemma scan_math (text : str) : forall fuel pos spans m inl,
  scan fuel text pos = Some spans ->
  In (MathSpan m inl) spans ->
  exists r from, In (r, inl) image_patterns /\ search r text from = Some m.
Proof.
  induction fuel as [|fuel IH]; intros pos spans m inl H Hin; [discriminate|].
  simpl in H.
  destruct (Nat.ltb_spec pos (length text)) as [Hlt|Hge].
  - destruct (best_match text pos) as [[[m0|] ms] inl0] eqn:E.
    + destruct (scan fuel text (m_end m0)) as [rest|] eqn:Er; [|discriminate].
      injection H as <-. destruct Hin as [Hin|[Hin|Hin]].
      * discriminate.
      * injection Hin as <- <-.
        apply best_match_some in E as (r & Hr & Hs & _). eauto.
      * eauto.
    + injection H as <-. destruct Hin as [Hin|[]]. discriminate.
  - injection H as <-. destruct Hin.
Qed.

(** ** Matches and their delimiters *)

Ltac break_shape :=
  repeat match goal with
         | H : _ /\ _ |- _ => destruct H
         | H : exists _, _ |- _ => destruct H
         end;
  subst.

Lemma shape_delimited (o c : str) (q : bool) (p : char -> bool) w gs :
  shape (Str o +++ Group (if q then Plus false p else Star false p) +++ Str c)
        w gs ->
  exists g, gs = [g] /\ w = o ++ g ++ c.
Proof.
  intros H. shape_inv H. destruct q; cbn [shape] in Hs0; break_shape;
    eexists; split; reflexivity.
Qed.

Lemma shape_delimited_guarded (b : char) (o c : str) (p : char -> bool) w gs :
  shape (NotAfter b +++ Str o +++ Group (Star false p) +++
         NotAfter b +++ Str c) w gs ->
  exists g, gs = [g] /\ w = o ++ g ++ c.
Proof.
  intros H. shape_inv H. break_shape. eexists; split; reflexivity.
Qed.

Lemma image_pattern_delimited r inl w gs :
  In (r, inl) image_patterns -> shape r w gs ->
  exists o c g, In (o, c, inl) delimiters /\ gs = [g] /\ w = o ++ g ++ c.
Proof.
  unfold image_patterns. intros [H|[H|[H|[H|[]]]]] Hs;
    injection H as <- <-.
  - apply shape_delimited_guarded in Hs as (g & -> & ->).
    exists (lit "$$"), (lit "$$"), g. simpl; auto.
  - apply shape_delimited_guarded in Hs as (g & -> & ->).
    exists (lit "$"), (lit "$"), g. simpl; auto.
  - apply (shape_delimited _ _ true) in Hs as (g & -> & ->).
    exists (lit "\["), (lit "\]"), g. simpl; auto 6.
  - apply (shape_delimited _ _ true) in Hs as (g & -> & ->).
    exists (lit "\("), (lit "\)"), g. simpl; auto 6.
Qed.

Lemma text_pattern_delimited r w gs :
  In r text_patterns -> shape r w gs ->
  exists o c inl g, In (o, c, inl) delimiters /\ gs = [g] /\ w = o ++ g ++ c.
Proof.
  unfold text_patterns. intros [H|[H|[H|[H|[]]]]] Hs; subst r;
    apply (shape_delimited _ _ true) in Hs as (g & -> & ->).
  - exists (lit "$$"), (lit "$$"), false, g. simpl; auto.
  - exists (lit "$"), (lit "$"), true, g. simpl; auto.
  - exists (lit "\["), (lit "\]"), false, g. simpl; auto 6.
  - exists (lit "\("), (lit "\)"), true, g. simpl; auto 6.
Qed.

Lemma text_patterns_nonempty :
  Forall (fun r => (0 < min_len r)%nat) text_patterns.
Proof. repeat constructor; simpl; lia. Qed.

Lemma segment_math_delimited text spans m inl :
  segment text = Some spans -> In (MathSpan m inl) spans ->
  delimited text m inl /\ content m = strip (group 1 m).
Proof.
  intros Hseg Hin. split; [|reflexivity].
  destruct (scan_math _ _ _ _ _ _ Hseg Hin) as (r & from & Hr & Hs).
  apply search_shape in Hs.
  destruct (image_pattern_delimited _ _ _ _ Hr Hs) as (o & c & g & H1 & H2 & H3).
  now exists o, c, g.
Qed.

(** ** Unterminated delimiters *)

Lemma is_prefix_refl_app (c t : str) : is_prefix c (c ++ t) = true.
Proof. apply is_prefix_app. now exists t. Qed.



(** ** The first way to match *)

Lemma runs_str_hd l prev s :
  is_prefix l s = true -> hd_error (runs (Str l) prev s) = Some (length l, []).
Proof. simpl. now intros ->. Qed.

Lemma counts_greedy_hd (lo n : nat) :
  hd_error (counts true lo (S n)) = Some (lo + n)%nat.
Proof. unfold counts. rewrite seq_S, rev_app_distr. reflexivity. Qed.

Lemma runs_star_greedy_hd p prev s :
  hd_error (runs (Star true p) prev s) = Some (prefix_len p s, []).
Proof.
  cbn [runs]. destruct (counts true 0 (S (prefix_len p s))) as [|a l] eqn:E;
    pose proof (counts_greedy_hd 0 (prefix_len p s)) as H; rewrite E in H;
    [discriminate|]. injection H as ->. reflexivity.
Qed.

Lemma runs_plus_greedy_hd p prev s :
  (0 < prefix_len p s)%nat ->
  hd_error (runs (Plus true p) prev s) = Some (prefix_len p s, []).
Proof.
  intros Hpos. cbn [runs].
  destruct (prefix_len p s) as [|n] eqn:En; [lia|].
  destruct (counts true 1 (S n)) as [|a l] eqn:E;
    pose proof (counts_greedy_hd 1 n) as H; rewrite E in H;
    [discriminate|]. injection H as ->. reflexivity.
Qed.

Lemma runs_group_hd r prev s n gs :
  hd_error (runs r prev s) = Some (n, gs) ->
  hd_error (runs (Group r) prev s) = Some (n, firstn n s :: gs).
Proof.
  cbn [runs]. destruct (runs r prev s) as [|a l]; [discriminate|].
  intros H. injection H as ->. reflexivity.
Qed.

Lemma runs_cat_hd r1 r2 prev s n1 g1 n2 g2 :
  hd_error (runs r1 prev s) = Some (n1, g1) ->
  hd_error (runs r2 (last_char prev s n1) (skipn n1 s)) = Some (n2, g2) ->
  hd_error (runs (r1 +++ r2) prev s) = Some ((n1 + n2)%nat, g1 ++ g2).
Proof.
  cbn [runs]. destruct (runs r1 prev s) as [|a l]; [discriminate|].
  intros H. injection H as ->. cbn [flat_map fst snd].
  destruct (runs r2 (last_char prev s n1) (skipn n1 s)) as [|b l'];
    [discriminate|].
  intros H. injection H as ->. reflexivity.
Qed.

Lemma match_at_hd r text pos n gs :
  hd_error (runs r (last_char None text pos) (skipn pos text)) = Some (n, gs) ->
  match_at r text pos = Some (MkMatch pos (pos + n) gs).
Proof.
  unfold match_at.
  destruct (runs r (last_char None text pos) (skipn pos text)) as [|a l];
    [discriminate|].
  intros H. injection H as ->. reflexivity.
Qed.

Lemma prefix_len_spaces (k : nat) (d : char) (rest : str) :
  d <> SPACE ->
  prefix_len (is_char SPACE) (repeat SPACE k ++ d :: rest) = k.
Proof.
  intros Hd. induction k as [|k IH]; simpl.
  - unfold is_char. destruct (Z.eqb_spec d SPACE); [contradiction|reflexivity].
  - now rewrite IH.
Qed.

Lemma prefix_len_run (p : char -> bool) (ds post : str) :
  forallb p ds = true -> starts_outside p post ->
  prefix_len p (ds ++ post) = length ds.
Proof.
  intros Hds Hpost. induction ds as [|d ds IH]; simpl in *.
  - destruct post as [|c post]; [reflexivity|]. simpl in Hpost |- *.
    now rewrite Hpost.
  - apply andb_true_iff in Hds as (-> & Hds). now rewrite IH.
Qed.

Lemma decimal_not_special (d : char) :
  isdecimal d = true ->
  d <> SPACE /\ d <> BACKSLASH /\ d <> 94 /\ d <> 95 /\ d <> 123 /\ d <> 125.
Proof.
  intros H. repeat split; intros ->; vm_compute in H; discriminate.
Qed.

(** The unbraced pattern at the mark: all the spaces, then the whole run of
    digits. *)
Lemma plain_re_hd (mark : string) (mk : char) prev k ds post :
  lit mark = [mk] ->
  forallb isdecimal ds = true -> ds <> [] ->
  starts_outside isdecimal post ->
  hd_error (runs (plain_re mark) prev (mk :: repeat SPACE k ++ ds ++ post))
  = Some ((1 + (k + length ds))%nat, [ds]).
Proof.
  intros Hmark Hds Hne Hpost. unfold plain_re. rewrite Hmark.
  change [ds] with ([] ++ [] ++ [ds]).
  apply runs_cat_hd.
  - apply (runs_str_hd [mk]). simpl. now rewrite Z.eqb_refl.
  - cbn [skipn last_char nth_error].
    destruct ds as [|d ds']; [now elim Hne|].
    assert (Hd : d <> SPACE).
    { simpl in Hds. apply andb_true_iff in Hds as (Hd & _).
      now apply decimal_not_special in Hd. }
    apply runs_cat_hd.
    + replace k with (prefix_len (is_char SPACE)
                        (repeat SPACE k ++ (d :: ds') ++ post)) at 2
        by now apply prefix_len_spaces.
      apply runs_star_greedy_hd.
    + rewrite skipn_app, skipn_all2 by (rewrite repeat_length; lia).
      rewrite repeat_length, Nat.sub_diag. cbn [skipn app].
      change (d :: ds' ++ post) with ((d :: ds') ++ post).
      replace [d :: ds'] with
        [firstn (length (d :: ds')) ((d :: ds') ++ post)]
        by (rewrite firstn_app, Nat.sub_diag, firstn_all; simpl;
            now rewrite app_nil_r).
      apply runs_group_hd.
      rewrite <- (prefix_len_run isdecimal (d :: ds') post Hds Hpost) at 1.
      apply runs_plus_greedy_hd.
      rewrite (prefix_len_run isdecimal (d :: ds') post Hds Hpost).
      simpl. lia.
Qed.

(** The braced pattern finds no brace behind the spaces. *)
Lemma after_spaces : forall (k : nat) (w : str) (a b : char) (x y : str),
  forallb (is_char SPACE) w = true -> a <> SPACE -> b <> SPACE ->
  repeat SPACE k ++ a :: x = w ++ b :: y -> a = b.
Proof.
  induction k as [|k IH]; intros w a b x y Hw Ha Hb E;
    destruct w as [|c w]; simpl in *.
  - now injection E.
  - injection E as <- _. apply andb_true_iff in Hw as (Hc & _).
    unfold is_char in Hc. apply Z.eqb_eq in Hc. contradiction.
  - injection E as <- _. now elim Hb.
  - injection E as _ E. apply andb_true_iff in Hw as (_ & Hw). eauto.
Qed.

Lemma braced_re_none (mark : string) (mk : char) prev k ds post :
  lit mark = [mk] ->
  forallb isdecimal ds = true -> ds <> [] ->
  runs (braced_re mark) prev (mk :: repeat SPACE k ++ ds ++ post) = [].
Proof.
  intros Hmark Hds Hne.
  destruct (runs (braced_re mark) prev (mk :: repeat SPACE k ++ ds ++ post))
    as [|[n gs] l] eqn:E; [reflexivity|]. exfalso.
  assert (Hin : In (n, gs) (runs (braced_re mark) prev
                              (mk :: repeat SPACE k ++ ds ++ post)))
    by (rewrite E; now left).
  apply runs_shape in Hin. unfold braced_re in Hin. rewrite Hmark in Hin.
  shape_inv Hin. clear Hin Hs2 Hs3 Hs4.
  destruct Hs as (-> & _). destruct Hs0 as (Hsp & _). destruct Hs1 as (-> & _).
  pose proof (firstn_skipn n (mk :: repeat SPACE k ++ ds ++ post)) as Hsplit.
  rewrite Hw in Hsplit. subst w0 w2. simpl in Hsplit.
  injection Hsplit as Hsplit.
  destruct ds as [|d ds']; [now elim Hne|].
  simpl in Hds. apply andb_true_iff in Hds as (Hd & _).
  pose proof (decimal_not_special d Hd) as (D1 & _ & _ & _ & D5 & _).
  rewrite <- !app_assoc in Hsplit. simpl in Hsplit. symmetry in Hsplit.
  apply after_spaces in Hsplit; [congruence | assumption | assumption |].
  discriminate.
Qed.

(** ** Passes that leave the text alone *)

Lemma mem_app (c : char) (a b : str) : mem c (a ++ b) = mem c a || mem c b.
Proof. apply existsb_app. Qed.

Lemma mem_false_forallb (c : char) (p : char -> bool) (s : str) :
  p c = false -> forallb p s = true -> mem c s = false.
Proof.
  intros Hc. induction s as [|a s IH]; intros H; simpl in *; [reflexivity|].
  apply andb_true_iff in H as (Ha & Hs). rewrite (IH Hs), orb_false_r.
  destruct (Z.eqb_spec c a) as [->|]; [congruence | reflexivity].
Qed.

Lemma re_sub_absent r repl (c : char) text :
  first_char r = Some c -> mem c text = false -> re_sub r repl text = Some text.
Proof.
  intros Hf Hm. apply re_sub_no_match. now apply (search_absent r c).
Qed.

Lemma sub_table_absent (c : char) (table : list (str * str)) :
  Forall (fun pr : str * str => first_char (Str (fst pr)) = Some c) table ->
  forall s, mem c s = false -> sub_table table s = Some s.
Proof.
  unfold sub_table. induction 1 as [|pr table Hpr _ IH]; intros s Hs;
    cbn [fold_left]; [reflexivity|].
  cbv beta iota. rewrite (re_sub_absent _ _ c s Hpr Hs). now apply IH.
Qed.

Lemma keys_first_char (c : char) (table : list (str * str)) :
  forallb (fun pr : str * str =>
             match fst pr with a :: _ => a =? c | [] => false end) table = true ->
  Forall (fun pr : str * str => first_char (Str (fst pr)) = Some c) table.
Proof.
  intros H. apply Forall_forall. intros pr Hin.
  rewrite forallb_forall in H. specialize (H pr Hin). simpl.
  destruct (fst pr) as [|a l]; [discriminate|].
  apply Z.eqb_eq in H. now subst.
Qed.

Lemma replace_loop_absent (old new : str) (c : char) :
  hd_error old = Some c ->
  forall fuel text, mem c text = false ->
  replace_loop fuel old new text = text.
Proof.
  intros Hold. induction fuel as [|fuel IH]; intros text Hm; simpl;
    [reflexivity|].
  destruct text as [|a text].
  - destruct old; [discriminate | reflexivity].
  - simpl in Hm. apply orb_false_iff in Hm as (Ha & Hm).
    destruct old as [|b old]; [discriminate|]. injection Hold as ->.
    simpl. rewrite Ha. simpl. now rewrite IH.
Qed.

Lemma replace_absent (old new : str) (c : char) text :
  hd_error old = Some c -> mem c text = false -> replace old new text = text.
Proof. intros. unfold replace. now apply (replace_loop_absent old new c). Qed.

Lemma lstrip_id (p : char -> bool) (s : str) :
  starts_outside p s -> lstrip p s = s.
Proof. destruct s as [|c s]; simpl; [reflexivity|]. now intros ->. Qed.

Lemma strip_chars_id (cs s : str) :
  starts_outside (fun c => mem c cs) s ->
  starts_outside (fun c => mem c cs) (rev s) ->
  strip_chars cs s = s.
Proof.
  intros H1 H2. unfold strip_chars, rstrip.
  rewrite (lstrip_id _ s H1), (lstrip_id _ (rev s) H2). apply rev_involutive.
Qed.

(** ** Searching a text with one mark *)

Lemma search_first r text : forall d pos p m,
  (p = pos + d)%nat -> (p <= length text)%nat ->
  (forall i, (pos <= i < p)%nat -> match_at r text i = None) ->
  match_at r text p = Some m ->
  search r text pos = Some m.
Proof.
  induction d as [|d IH]; intros pos p m Hp Hle Hnone Hm.
  - replace pos with p by lia. now apply search_here.
  - rewrite search_skip; [|lia|apply Hnone; lia].
    apply (IH (S pos) p); try assumption; [lia|].
    intros i Hi. apply Hnone. lia.
Qed.

Lemma hd_skipn_mark (mk : char) : forall (pre rest : str) (i : nat),
  mem mk pre = false -> mem mk rest = false ->
  hd_error (skipn i (pre ++ mk :: rest)) = Some mk -> i = length pre.
Proof.
  induction pre as [|a pre IH]; intros rest i Hp Hr H.
  - destruct i as [|i]; [reflexivity|]. simpl in H.
    now elim (hd_error_skipn_mem mk rest i Hr).
  - simpl in Hp. apply orb_false_iff in Hp as (Ha & Hp).
    destruct i as [|i]; simpl in H.
    + injection H as ->. now rewrite Z.eqb_refl in Ha.
    + simpl. f_equal. eauto.
Qed.

Lemma match_at_off_mark r (mk : char) (pre rest : str) (i : nat) :
  first_char r = Some mk ->
  mem mk pre = false -> mem mk rest = false ->
  i <> length pre ->
  match_at r (pre ++ mk :: rest) i = None.
Proof.
  intros Hf Hp Hr Hi. apply match_at_none. apply (runs_first_char r mk);
    [assumption|].
  intros H. apply Hi. eapply hd_skipn_mark; eassumption.
Qed.

(** A pattern that opens with the mark and fails at the only mark of the
    text matches nowhere. *)
Lemma search_one_mark_none r (mk : char) (pre rest : str) pos :
  first_char r = Some mk ->
  mem mk pre = false -> mem mk rest = false ->
  (forall prev, runs r prev (mk :: rest) = []) ->
  search r (pre ++ mk :: rest) pos = None.
Proof.
  intros Hf Hp Hr Hruns. apply search_none. intros i _.
  destruct (Nat.eq_dec i (length pre)) as [->|Hne].
  - apply match_at_none. rewrite skipn_pre. apply Hruns.
  - now apply match_at_off_mark.
Qed.

(** A pattern that opens with the mark and matches at the only mark of the
    text: the pass replaces that match and copies the rest. *)
Lemma re_sub_one_mark r repl (mk : char) (pre rest : str) n gs rep :
  first_char r = Some mk ->
  mem mk pre = false -> mem mk rest = false ->
  (forall prev, hd_error (runs r prev (mk :: rest)) = Some (S n, gs)) ->
  (n <= length rest)%nat ->
  repl (MkMatch (length pre) (length pre + S n) gs) = Some rep ->
  re_sub r repl (pre ++ mk :: rest) = Some (pre ++ rep ++ skipn n rest).
Proof.
  intros Hf Hp Hr Hhd Hn Hrep.
  set (text := pre ++ mk :: rest).
  set (m := MkMatch (length pre) (length pre + S n) gs) in *.
  assert (Hlen : length text = (length pre + S (length rest))%nat)
    by (unfold text; rewrite length_app; reflexivity).
  assert (Hm : search r text O = Some m).
  { apply (search_first r text (length pre) O (length pre)); [lia|lia| |].
    - intros i Hi. apply match_at_off_mark; try assumption. lia.
    - apply match_at_hd. unfold text. rewrite skipn_pre. apply Hhd. }
  assert (Hend : search r text (m_end m) = None).
  { apply search_none. intros i Hi. simpl in Hi.
    apply match_at_off_mark; try assumption. lia. }
  unfold re_sub. rewrite Hlen.
  replace (S (length pre + S (length rest))) with (S (S (length pre + length rest)))
    by lia.
  cbn [sub_loop]. rewrite Hm, Hrep, Hend. f_equal.
  unfold slice. cbn [m_start m_end m skipn]. rewrite Nat.sub_0_r.
  unfold text. rewrite firstn_app, Nat.sub_diag, firstn_all. simpl firstn.
  rewrite app_nil_r. do 2 f_equal.
  replace (length pre + S n)%nat with (n + length (pre ++ [mk]))%nat
    by (rewrite length_app; simpl; lia).
  rewrite <- skipn_skipn.
  change (pre ++ mk :: rest) with (pre ++ [mk] ++ rest).
  rewrite app_assoc, skipn_pre. reflexivity.
Qed.

(** ** The table-based conversion on an unbraced script *)

Lemma inert_spec (c : char) :
  inert c = true <->
  c <> BACKSLASH /\ c <> 94 /\ c <> 95 /\ c <> SPACE /\ c <> 123 /\ c <> 125.
Proof.
  unfold inert. change (lit "\^_ {}") with [92; 94; 95; 32; 123; 125].
  unfold mem, BACKSLASH, SPACE. simpl.
  rewrite negb_true_iff, !orb_false_iff, !Z.eqb_neq. tauto.
Qed.

Lemma mem_not_in (c : char) (s : str) :
  (forall a, In a s -> a <> c) -> mem c s = false.
Proof.
  induction s as [|a s IH]; intros H; simpl; [reflexivity|].
  rewrite IH by (intros b Hb; apply H; now right).
  destruct (Z.eqb_spec c a) as [->|]; [|reflexivity].
  now elim (H a (or_introl eq_refl)).
Qed.

Lemma forallb_In (p : char -> bool) (s : str) (a : char) :
  forallb p s = true -> In a s -> p a = true.
Proof. intros H. rewrite forallb_forall in H. apply H. Qed.

Lemma digit_range (d : char) : 0 <= digit d < 10.
Proof.
  unfold digit, int. destruct (find (in_run d) decimal_bases) as [b|] eqn:E;
    [|lia].
  apply find_some in E as (_ & E). unfold in_run in E.
  apply andb_true_iff in E as (E1 & E2).
  apply Z.leb_le in E1. apply Z.ltb_lt in E2. lia.
Qed.

Lemma join_map_digits (base : Z) (ds : str) :
  0 <= base <= 1114000 -> forallb isdecimal ds = true ->
  join_map (fun d => n <- int d ;; chr (base + n)) ds
  = Some (map (fun d => base + digit d) ds).
Proof.
  intros Hb. induction ds as [|d ds IH]; intros Hd; [reflexivity|].
  cbn [forallb] in Hd. apply andb_true_iff in Hd as (Hd & Hds).
  cbn [join_map map]. rewrite (IH Hds).
  destruct (int_decimal d Hd) as (v & Hv & Hr).
  unfold digit. rewrite Hv. unfold chr.
  replace ((0 <=? base + v) && (base + v <=? 1114111)) with true
    by (symmetry; apply andb_true_iff; split; apply Z.leb_le; lia).
  reflexivity.
Qed.

Lemma script_digits_value (base : Z) (m : rmatch) (ds : str) :
  0 <= base <= 1114000 ->
  m_groups m = [ds] -> forallb isdecimal ds = true ->
  script_digits base m = Some (map (fun d => base + digit d) ds).
Proof.
  intros Hb Hg Hd. unfold script_digits, group. rewrite Hg.
  now apply join_map_digits.
Qed.

Section ScriptText.

Variables (pre post ds : str) (k : nat).
Hypothesis Hpre : forallb inert pre = true.
Hypothesis Hpost : forallb inert post = true.
Hypothesis Hds : forallb isdecimal ds = true.
Hypothesis Hne : ds <> [].
Hypothesis Hout : starts_outside isdecimal post.

(** A special character other than the space occurs in none of the parts. *)
Lemma parts_free (c : char) :
  inert c = false -> c <> SPACE ->
  mem c pre = false /\ mem c (script_rest k ds post) = false /\
  forall base, 128 <= base ->
               mem c (pre ++ map (fun d => base + digit d) ds ++ post) = false.
Proof.
  intros Hc Hsp.
  assert (Hdec : isdecimal c = false).
  { destruct (isdecimal c) eqn:E; [|reflexivity].
    apply decimal_not_special in E. assert (inert c = true); [|congruence].
    apply inert_spec. tauto. }
  assert (Hlow : c < 128).
  { destruct (Z.ltb_spec c 128) as [H|H]; [assumption|].
    assert (inert c = true); [|congruence].
    apply inert_spec. unfold BACKSLASH, SPACE. lia. }
  assert (P1 : mem c pre = false) by now apply (mem_false_forallb c inert).
  assert (P2 : mem c post = false) by now apply (mem_false_forallb c inert).
  assert (P3 : mem c ds = false) by now apply (mem_false_forallb c isdecimal).
  split; [assumption|]. split.
  - unfold script_rest. rewrite !mem_app, P2, P3, !orb_false_r.
    apply mem_not_in. intros a Ha. apply repeat_spec in Ha. congruence.
  - intros base Hbase. rewrite !mem_app, P1, P2, orb_false_r. simpl.
    apply mem_not_in. intros a Ha. apply in_map_iff in Ha as (d & <- & _).
    pose proof (digit_range d). lia.
Qed.

Lemma script_text_strip (mk : char) :
  mem mk (lit " {}") = false ->
  strip_chars (lit " {}") (script_text pre mk k ds post)
  = script_text pre mk k ds post.
Proof.
  intros Hmk.
  assert (Hin : forall c, inert c = true -> mem c (lit " {}") = false).
  { intros c Hc. apply inert_spec in Hc.
    change (lit " {}") with [32; 123; 125]. unfold mem, SPACE in *. simpl.
    rewrite !orb_false_iff, !Z.eqb_neq. tauto. }
  assert (Hdg : forall c, isdecimal c = true -> mem c (lit " {}") = false).
  { intros c Hc. apply decimal_not_special in Hc.
    change (lit " {}") with [32; 123; 125]. unfold mem, SPACE in *. simpl.
    rewrite !orb_false_iff, !Z.eqb_neq. tauto. }
  apply strip_chars_id; unfold script_text, script_rest.
  - destruct pre as [|a pre']; cbn [app starts_outside]; [assumption|].
    cbn [forallb] in Hpre. apply andb_true_iff in Hpre as (Ha & _). auto.
  - change (mk :: repeat SPACE k ++ ds ++ post)
      with ([mk] ++ repeat SPACE k ++ ds ++ post).
    rewrite !rev_app_distr.
    destruct (rev post) as [|a rp] eqn:Ep.
    + cbn [app]. destruct (rev ds) as [|b rd] eqn:Ed.
      * apply (f_equal (@rev char)) in Ed. rewrite rev_involutive in Ed.
        now elim Hne.
      * cbn [app starts_outside]. apply Hdg.
        apply (forallb_In isdecimal ds); [assumption|].
        apply in_rev. rewrite Ed. now left.
    + cbn [app starts_outside]. apply Hin.
      apply (forallb_In inert post); [assumption|].
      apply in_rev. rewrite Ep. now left.
Qed.

Lemma mem_cons (c a : char) (s : str) : mem c (a :: s) = (c =? a) || mem c s.
Proof. reflexivity. Qed.

Lemma script_text_free (c mk : char) :
  inert c = false -> c <> SPACE -> (c =? mk) = false ->
  mem c (script_text pre mk k ds post) = false.
Proof.
  intros Hc Hsp Hmk. destruct (parts_free c Hc Hsp) as (P1 & P2 & _).
  unfold script_text. now rewrite mem_app, mem_cons, P1, P2, Hmk.
Qed.

Lemma skipn_rest : skipn (k + length ds) (script_rest k ds post) = post.
Proof.
  unfold script_rest. rewrite <- (repeat_length SPACE k) at 1.
  rewrite <- length_app, app_assoc. apply skipn_pre.
Qed.

Lemma rest_length : (k + length ds <= length (script_rest k ds post))%nat.
Proof. unfold script_rest. rewrite !length_app, repeat_length. lia. Qed.

(** The caret rule: the passes before and after it find nothing, and it
    replaces the mark, the spaces and the digits. *)
Lemma unicode_replace_caret :
  unicode_replace (script_text pre 94 k ds post)
  = Some (pre ++ map (fun d => 0x2070 + digit d) ds ++ post).
Proof.
  unfold unicode_replace. rewrite script_text_strip by reflexivity.
  pose proof (script_text_free 92 94 eq_refl ltac:(discriminate) eq_refl) as HB.
  pose proof (script_text_free 95 94 eq_refl ltac:(discriminate) eq_refl) as HU.
  destruct (parts_free 94 eq_refl ltac:(discriminate)) as (C1 & C2 & C3).
  destruct (parts_free 95 eq_refl ltac:(discriminate)) as (_ & _ & U3).
  rewrite (sub_table_absent 92 greek (keys_first_char 92 greek eq_refl) _ HB).
  rewrite (sub_table_absent 92 symbols (keys_first_char 92 symbols eq_refl) _ HB).
  rewrite (re_sub_absent frac_re _ 92 _ eq_refl HB).
  unfold script_text in HU |- *.
  rewrite (re_sub_no_match (braced_re "^") superscript_digits _
             (search_one_mark_none (braced_re "^") 94 pre
                (script_rest k ds post) O eq_refl C1 C2
                (fun prev => braced_re_none "^" 94 prev k ds post
                               eq_refl Hds Hne))).
  rewrite (re_sub_absent (braced_re "_") _ 95 _ eq_refl HU).
  rewrite (re_sub_one_mark (plain_re "^") superscript_digits 94 pre
             (script_rest k ds post)
             (k + length ds) [ds] (map (fun d => 0x2070 + digit d) ds)
             eq_refl C1 C2
             (fun prev => plain_re_hd "^" 94 prev k ds post
                            eq_refl Hds Hne Hout)
             rest_length
             (script_digits_value 0x2070
                (MkMatch (length pre) (length pre + S (k + length ds)) [ds])
                ds ltac:(lia) eq_refl Hds)).
  rewrite skipn_rest.
  rewrite (re_sub_absent (plain_re "_") _ 95 _ eq_refl (U3 0x2070 ltac:(lia))).
  pose proof (C3 0x2070 ltac:(lia)) as HC.
  rewrite (replace_absent (lit "^2") _ 94 _ eq_refl HC).
  rewrite (replace_absent (lit "^3") _ 94 _ eq_refl HC).
  now rewrite (replace_absent (lit "^-1") _ 94 _ eq_refl HC).
Qed.

(** The underscore rule, likewise. *)
Lemma unicode_replace_underscore :
  unicode_replace (script_text pre 95 k ds post)
  = Some (pre ++ map (fun d => 0x2080 + digit d) ds ++ post).
Proof.
  unfold unicode_replace. rewrite script_text_strip by reflexivity.
  pose proof (script_text_free 92 95 eq_refl ltac:(discriminate) eq_refl) as HB.
  pose proof (script_text_free 94 95 eq_refl ltac:(discriminate) eq_refl) as HC.
  destruct (parts_free 95 eq_refl ltac:(discriminate)) as (U1 & U2 & _).
  destruct (parts_free 94 eq_refl ltac:(discriminate)) as (_ & _ & C3).
  rewrite (sub_table_absent 92 greek (keys_first_char 92 greek eq_refl) _ HB).
  rewrite (sub_table_absent 92 symbols (keys_first_char 92 symbols eq_refl) _ HB).
  rewrite (re_sub_absent frac_re _ 92 _ eq_refl HB).
  rewrite (re_sub_absent (braced_re "^") _ 94 _ eq_refl HC).
  unfold script_text in HC |- *.
  rewrite (re_sub_no_match (braced_re "_") subscript_digits _
             (search_one_mark_none (braced_re "_") 95 pre
                (script_rest k ds post) O eq_refl U1 U2
                (fun prev => braced_re_none "_" 95 prev k ds post
                               eq_refl Hds Hne))).
  rewrite (re_sub_absent (plain_re "^") _ 94 _ eq_refl HC).
  rewrite (re_sub_one_mark (plain_re "_") subscript_digits 95 pre
             (script_rest k ds post)
             (k + length ds) [ds] (map (fun d => 0x2080 + digit d) ds)
             eq_refl U1 U2
             (fun prev => plain_re_hd "_" 95 prev k ds post
                            eq_refl Hds Hne Hout)
             rest_length
             (script_digits_value 0x2080
                (MkMatch (length pre) (length pre + S (k + length ds)) [ds])
                ds ltac:(lia) eq_refl Hds)).
  rewrite skipn_rest.
  pose proof (C3 0x2080 ltac:(lia)) as HC'.
  rewrite (replace_absent (lit "^2") _ 94 _ eq_refl HC').
  rewrite (replace_absent (lit "^3") _ 94 _ eq_refl HC').
  now rewrite (replace_absent (lit "^-1") _ 94 _ eq_refl HC').
Qed.

End ScriptText.

(** A fragment without any character the rules look for comes back as it
    is. *)
Lemma unicode_replace_inert (latex : str) :
  forallb inert latex = true -> unicode_replace latex = Some latex.
Proof.
  intros H.
  assert (Hfree : forall c, inert c = false -> mem c latex = false)
    by (intros c Hc; now apply (mem_false_forallb c inert)).
  assert (Hset : forall c, inert c = true -> mem c (lit " {}") = false).
  { intros c Hc. apply inert_spec in Hc.
    change (lit " {}") with [32; 123; 125]. unfold mem, SPACE in *. simpl.
    rewrite !orb_false_iff, !Z.eqb_neq. tauto. }
  assert (Hstrip : strip_chars (lit " {}") latex = latex).
  { apply strip_chars_id.
    - destruct latex as [|a l]; cbn [starts_outside]; [exact I|].
      cbn [forallb] in H. apply andb_true_iff in H as (Ha & _). auto.
    - destruct (rev latex) as [|a l] eqn:E; cbn [starts_outside]; [exact I|].
      apply Hset. apply (forallb_In inert latex); [assumption|].
      apply in_rev. rewrite E. now left. }
  unfold unicode_replace. rewrite Hstrip.
  pose proof (Hfree 92 eq_refl) as HB.
  pose proof (Hfree 94 eq_refl) as HC.
  pose proof (Hfree 95 eq_refl) as HU.
  rewrite (sub_table_absent 92 greek (keys_first_char 92 greek eq_refl) _ HB).
  rewrite (sub_table_absent 92 symbols (keys_first_char 92 symbols eq_refl) _ HB).
  rewrite (re_sub_absent frac_re _ 92 _ eq_refl HB).
  rewrite (re_sub_absent (braced_re "^") _ 94 _ eq_refl HC).
  rewrite (re_sub_absent (braced_re "_") _ 95 _ eq_refl HU).
  rewrite (re_sub_absent (plain_re "^") _ 94 _ eq_refl HC).
  rewrite (re_sub_absent (plain_re "_") _ 95 _ eq_refl HU).
  rewrite (replace_absent (lit "^2") _ 94 _ eq_refl HC).
  rewrite (replace_absent (lit "^3") _ 94 _ eq_refl HC).
  now rewrite (replace_absent (lit "^-1") _ 94 _ eq_refl HC).
Qed.

(** ** Escaped dollars in the image path *)

Lemma guarded_not_after (b : char) r prev s n gs :
  In (n, gs) (runs (NotAfter b +++ r) prev s) -> prev <> Some b.
Proof.
  intros H. apply in_runs_cat in H as (n1 & g1 & n2 & g2 & H1 & _).
  now apply in_runs_notafter in H1.
Qed.

Lemma image_dollar_unescaped r inl text pos m :
  In (r, inl) (firstn 2 image_patterns) ->
  search r text pos = Some m ->
  last_char None text (m_start m) <> Some BACKSLASH.
Proof.
  intros Hr Hs. apply search_some in Hs as (_ & Hm & _).
  apply match_at_some in Hm as (n & gs & -> & Hin). simpl.
  destruct Hr as [Hr|[Hr|[]]]; injection Hr as <- <-;
    eapply guarded_not_after; eassumption.
Qed.

(** ** The length threshold on floats

    The float comparison of the source and the exact comparison of
    [measurably_longer] agree on all pairs of lengths below 300, and around
    the threshold for every table result shorter than 100000 characters. *)
Lemma measurably_longer_binary64 :
  forallb
    (fun b => forallb
                (fun a => Bool.eqb (binary64_longer a b) (6 * b <? 5 * a))
                (upto 300))
    (upto 300) = true /\
  forallb
    (fun b => forallb
                (fun a => Bool.eqb (binary64_longer a b) (6 * b <? 5 * a))
                [6 * b / 5; 6 * b / 5 + 1])
    (upto 100000) = true.
Proof. split; vm_compute; reflexivity. Qed.

(** ** Substitution passes, one after the other *)

Lemma sub_loop_substituted r repl text : forall fuel pos out,
  sub_loop fuel r repl text pos = Some out -> substituted r repl text pos out.
Proof.
  induction fuel as [|fuel IH]; intros pos out H; [discriminate|].
  simpl in H. destruct (search r text pos) as [m|] eqn:E.
  - destruct (repl m) as [rep|] eqn:Er; [|discriminate].
    destruct (sub_loop fuel r repl text (m_end m)) as [rest|] eqn:Es;
      [|discriminate].
    injection H as <-. eapply substituted_match; eauto.
  - injection H as <-. now apply substituted_rest.
Qed.

(** The relation fixes the result of a pass. *)
Lemma substituted_unique r repl text pos out1 out2 :
  substituted r repl text pos out1 -> substituted r repl text pos out2 ->
  out1 = out2.
Proof.
  intros H1. revert out2.
  induction H1 as [pos E|pos m rep rest E Er _ IH]; intros out2 H2;
    inversion H2 as [pos' E'|pos' m' rep' rest' E' Er' H'];
    subst; try congruence.
  rewrite E in E'. injection E' as <-. rewrite Er in Er'. injection Er' as <-.
  now rewrite (IH rest' H').
Qed.

Lemma text_pass (B : backends) r text :
  In r text_patterns ->
  exists out, re_sub r (replace_math B) text = Some out /\
              substituted r (replace_math B) text 0 out.
Proof.
  intros Hr.
  assert (Hmin : (0 < min_len r)%nat).
  { pose proof text_patterns_nonempty as H. rewrite Forall_forall in H.
    now apply H. }
  destruct (re_sub_total r (replace_math B) text Hmin) as [out Hout].
  { intros pos m _. destruct (replace_math_total B m) as [o ->].
    discriminate. }
  exists out. split; [exact Hout|].
  exact (sub_loop_substituted _ _ _ _ _ _ Hout).
Qed.

Lemma render_latex_passes (B : backends) (text : str) :
  exists t1 t2 t3 out,
    substituted (nth 0 text_patterns (Str [])) (replace_math B) text 0 t1 /\
    substituted (nth 1 text_patterns (Str [])) (replace_math B) t1 0 t2 /\
    substituted (nth 2 text_patterns (Str [])) (replace_math B) t2 0 t3 /\
    substituted (nth 3 text_patterns (Str [])) (replace_math B) t3 0 out /\
    render_latex B text = Some out.
Proof.
  destruct (text_pass B (nth 0 text_patterns (Str [])) text)
    as (t1 & E1 & S1); [simpl; auto|].
  destruct (text_pass B (nth 1 text_patterns (Str [])) t1)
    as (t2 & E2 & S2); [simpl; auto|].
  destruct (text_pass B (nth 2 text_patterns (Str [])) t2)
    as (t3 & E3 & S3); [simpl; auto|].
  destruct (text_pass B (nth 3 text_patterns (Str [])) t3)
    as (out & E4 & S4); [simpl; auto|].
  exists t1, t2, t3, out. repeat (split; [assumption|]).
  unfold render_latex. unfold text_patterns in *. cbn [nth fold_left] in *.
  rewrite E1. cbv beta iota. rewrite E2. cbv beta iota.
  rewrite E3. cbv beta iota. exact E4.
Qed.

(** ** Texts with a single delimiter character *)






(** ** Fragments of braces and spaces *)

Lemma lstrip_all (p : char -> bool) (s : str) :
  forallb p s = true -> lstrip p s = [].
Proof.
  induction s as [|c s IH]; simpl; [reflexivity|].
  intros H. apply andb_true_iff in H as [-> H]. now apply IH.
Qed.

Lemma unicode_replace_blank (latex : str) :
  forallb brace_or_space latex = true -> unicode_replace latex = Some [].
Proof.
  intros H. unfold unicode_replace.
  assert (E : strip_chars (lit " {}") latex = []).
  { unfold strip_chars.
    change (fun c : char => mem c (lit " {}")) with brace_or_space.
    now rewrite (lstrip_all _ _ H). }
  rewrite E. vm_compute. reflexivity.
Qed.

(** ** What the image path prints, and when a print raises *)




(** * The properties of the specification *)

(** C1, as stated, fails in both paths.  On ["$ x $"] the span keeps the
    trimmed content ["x"], and no pair of delimiters around it gives the
    input back.  In ["$$x$y$$ and $z$"] the text [" and "] lies between the
    two matches of the textual patterns; the first pass leaves a dollar
    sign, the second pairs it with the one that opens ["$z$"], and the
    result, ["xy andz$"], no longer holds that text. *)
Lemma C1_input_not_rebuilt :
  (exists spans,
     segment (lit "$ x $") = Some spans /\
     Forall (fun d : str * str * bool =>
               concat (map (reconstruct (fst (fst d)) (snd (fst d))) spans)
               <> lit "$ x $") delimiters) /\
  search (nth 0 text_patterns (Str [])) (lit "$$x$y$$ and $z$") 0
  = Some (MkMatch 0 7 [lit "x$y"]) /\
  search (nth 1 text_patterns (Str [])) (lit "$$x$y$$ and $z$") 7
  = Some (MkMatch 12 15 [lit "z"]) /\
  slice (lit "$$x$y$$ and $z$") 7 12 = lit " and " /\
  render_latex no_backends (lit "$$x$y$$ and $z$") = Some (lit "xy andz$") /\
  occurs (lit " and ") (lit "xy andz$") = false.
Proof.
  split.
  - eexists. split; [vm_compute; reflexivity|].
    repeat constructor; vm_compute; discriminate.
  - repeat split; vm_compute; reflexivity.
Qed.

(** C1 (amended): for every input the spans of the segmentation tile it:
    the plain segments and the matched source text of the math spans, put
    end to end, are the input, and the source of a math span is the opening
    delimiter of its rule, the captured interior (whose trimmed form is the
    content) and the closing delimiter.  In textual mode [render_latex] is
    four passes, one for each delimiter type in the order of the list, each
    over the result of the one before: a pass copies the text up to the
    leftmost match of its pattern, puts the conversion of the match, a
    delimited span, in its place, goes on from the end of the match, and
    copies what follows the last match.  A pass keeps the text outside its
    own matches; the later passes read what the earlier ones wrote. *)
Theorem C1_spans_tile_input (B : backends) (text : str) :
  (exists spans,
     segment text = Some spans /\
     concat (map (source text) spans) = text /\
     Forall (span_delimited text) spans) /\
  (exists t1 t2 t3 out,
     substituted (nth 0 text_patterns (Str [])) (replace_math B) text 0 t1 /\
     substituted (nth 1 text_patterns (Str [])) (replace_math B) t1 0 t2 /\
     substituted (nth 2 text_patterns (Str [])) (replace_math B) t2 0 t3 /\
     substituted (nth 3 text_patterns (Str [])) (replace_math B) t3 0 out /\
     render_latex B text = Some out) /\
  (forall r t pos m,
     In r text_patterns -> search r t pos = Some m ->
     exists is_inline, delimited t m is_inline).
Proof.
  split; [|split].
  - destruct (scan_total text (S (length text)) O) as [spans Hs]; [lia|].
    exists spans. split; [exact Hs|]. split.
    + apply (scan_tiles text _ _ _ Hs).
    + apply Forall_forall. intros [t|m inl] Hin; [exact I|].
      apply (segment_math_delimited text spans m inl Hs Hin).
  - apply render_latex_passes.
  - intros r t pos m Hr Hs. apply search_shape in Hs.
    destruct (text_pattern_delimited _ _ _ Hr Hs)
      as (o & c & inl & g & D1 & D2 & D3).
    now exists inl, o, c, g.
Qed.



(** C3, as stated, fails in the textual path: in ["$a$$b$$"] the match that
    starts first is ["$a$"], of the single-dollar rule, at offset 0, but
    [render_latex] runs the double-dollar rule over the whole text before
    the single-dollar rule and returns ["$ab"]; the image path takes
    ["$a$"] first. *)
Lemma C3_textual_path_goes_by_rule :
  search (nth 1 text_patterns (Str [])) (lit "$a$$b$$") 0
  = Some (MkMatch 0 3 [lit "a"]) /\
  search (nth 0 text_patterns (Str [])) (lit "$a$$b$$") 0
  = Some (MkMatch 2 7 [lit "b"]) /\
  render_latex no_backends (lit "$a$$b$$") = Some (lit "$ab") /\
  segment (lit "$a$$b$$")
  = Some [PlainText []; MathSpan (MkMatch 0 3 [lit "a"]) true;
          PlainText []; MathSpan (MkMatch 3 6 [lit "b"]) true;
          PlainText (lit "$")].
Proof. repeat split; vm_compute; reflexivity. Qed.

(** C3 (amended): ["$$x^2$$"] is one block math span with content ["x^2"]
    (and one replacement in textual mode).  In the image path, from any
    position: when no pattern has a match the loop finds none and the rest
    of the text is plain; otherwise it settles on a match, the one that
    starts leftmost, and among the patterns matching at that offset on the
    first of the list; and the segmentation starts with the text before
    that match and the span of that match. *)
Theorem C3_earliest_match_wins (text : str) (pos : nat) :
  (segment (lit "$$x^2$$")
   = Some [PlainText []; MathSpan (MkMatch 0 7 [lit "x^2"]) false] /\
   content (MkMatch 0 7 [lit "x^2"]) = lit "x^2" /\
   render_latex no_backends (lit "$$x^2$$") = Some (lit "x" ++ [0x2072])) /\
  match best_match text pos with
  | (Some m, min_start, best_is_inline) =>
      min_start = m_start m /\ leftmost_first text pos m best_is_inline
  | (None, _, _) =>
      forall p, In p image_patterns -> search (fst p) text pos = None
  end /\
  match best_match text 0 with
  | (Some m, _, best_is_inline) =>
      exists rest,
        segment text = Some (PlainText (slice text 0 (m_start m))
                             :: MathSpan m best_is_inline :: rest)
  | (None, _, _) =>
      segment text = Some (match text with
                           | [] => []
                           | _ :: _ => [PlainText text]
                           end)
  end.
Proof.
  split; [repeat split; vm_compute; reflexivity|]. split.
  - pose proof (best_match_inv text pos) as Hinv.
    destruct (best_match text pos) as [[[m|] ms] inl]; cbn [best_inv] in Hinv.
    + exact Hinv.
    + exact (proj2 Hinv).
  - destruct (best_match text 0) as [[[m|] ms] inl] eqn:E.
    + pose proof (best_match_some _ _ _ _ _ E) as (r & _ & _ & Hm & Hend).
      destruct text as [|c t]; [simpl in Hend; lia|].
      destruct (scan_total (c :: t) (length (c :: t)) (m_end m)) as [rest Hr];
        [lia|].
      exists rest. unfold segment.
      change (scan (S (length (c :: t))) (c :: t) 0)
        with (if (0 <? length (c :: t))%nat
              then match best_match (c :: t) 0 with
                   | (None, _, _) => Some [PlainText (skipn 0 (c :: t))]
                   | (Some m, _, best_is_inline) =>
                       rest <- scan (length (c :: t)) (c :: t) (m_end m) ;;
                       Some (PlainText (slice (c :: t) 0 (m_start m))
                             :: MathSpan m best_is_inline :: rest)
                   end
              else Some []).
      rewrite E, Hr. reflexivity.
    + destruct text as [|c t]; [reflexivity|].
      unfold segment. cbn [scan length]. cbn [Nat.ltb Nat.leb].
      rewrite E. reflexivity.
Qed.

(** C4: when pylatexenc gives nothing and sympy parses the fragment, the
    pretty-printed result (newlines turned into spaces) is returned exactly
    when its length exceeds 1.2 times the length of the table-based result;
    at 1.2 times or below, equality included, the table-based result is
    returned. *)
Theorem C4_symbolic_result_needs_margin (B : backends) (m : rmatch)
    (pretty converted : str) :
  (if PYLATEXENC_SUPPORT B then latex_to_text B (content m) else None) = None ->
  SYMPY_SUPPORT B = true ->
  sympy_pretty B (content m) = Some pretty ->
  unicode_replace (content m) = Some converted ->
  (12 * len converted < 10 * len (replace [NEWLINE] [SPACE] pretty) ->
   replace_math B m = Some (replace [NEWLINE] [SPACE] pretty)) /\
  (10 * len (replace [NEWLINE] [SPACE] pretty) <= 12 * len converted ->
   replace_math B m = Some converted).
Proof.
  intros Hl2t Hsym Hpretty Hconv. unfold replace_math, content in *.
  rewrite Hl2t, Hconv, Hsym, Hpretty. unfold measurably_longer.
  destruct (Z.ltb_spec (6 * len converted)
              (5 * len (replace [NEWLINE] [SPACE] pretty))) as [H|H];
    split; intros H'; try reflexivity; lia.
Qed.

(** C4 on the fragment ["x"]: the table gives one character; a symbolic
    result of one character (ratio 1.0) is not preferred. *)
Lemma C4_symbolic_result_needs_margin_witness :
  (12 * len (lit "x") < 10 * len (replace [NEWLINE] [SPACE] (lit "y")) ->
   replace_math (all_backends (fun _ => None) (fun _ => Some (lit "y"))
                   (fun _ _ => None)) (MkMatch 0 3 [lit "x"])
   = Some (replace [NEWLINE] [SPACE] (lit "y"))) /\
  (10 * len (replace [NEWLINE] [SPACE] (lit "y")) <= 12 * len (lit "x") ->
   replace_math (all_backends (fun _ => None) (fun _ => Some (lit "y"))
                   (fun _ _ => None)) (MkMatch 0 3 [lit "x"])
   = Some (lit "x")).
Proof.
  apply (C4_symbolic_result_needs_margin
           (all_backends (fun _ => None) (fun _ => Some (lit "y"))
              (fun _ _ => None))
           (MkMatch 0 3 [lit "x"]) (lit "y") (lit "x"));
    reflexivity.
Defined.

(** C5, as stated, fails where its condition is met: with no optional
    library, on a fragment the table turns into nothing.  [unicode_replace]
    strips the braces of ["{}"] and returns the empty string, and
    [render_latex] replaces ["${}$"] by it: the fragment and its delimiters
    are gone.  The same holds of ["$ $"]. *)
Lemma C5_empty_result_drops_fragment :
  unicode_replace (lit "{}") = Some [] /\
  render_latex no_backends (lit "${}$") = Some [] /\
  render_latex no_backends (lit "${}$") <> Some (lit "${}$") /\
  render_latex no_backends (lit "a $ $ b") = Some (lit "a  b").
Proof.
  split; [vm_compute; reflexivity|]. split; [vm_compute; reflexivity|].
  split; [vm_compute; discriminate | vm_compute; reflexivity].
Qed.

(** C5 (amended): when pylatexenc and sympy are absent or fail, textual-mode
    conversion returns the table-based rewrite of the trimmed fragment and
    never puts the delimiters back: a fragment of braces and spaces only,
    from which the table makes nothing, is replaced by the empty string; a
    fragment with no character the table looks for comes back as it is,
    unwrapped.  In image mode, when the renderer fails, the trimmed
    fragment is printed between single dollar signs, unless the console
    rejects its markup, and then the print raises. *)
Theorem C5_fallback_is_table_result (B : backends)
    (markup_error : str -> bool) (m : rmatch) (is_inline : bool) :
  (if PYLATEXENC_SUPPORT B then latex_to_text B (content m) else None) = None ->
  (if SYMPY_SUPPORT B then sympy_pretty B (content m) else None) = None ->
  replace_math B m = unicode_replace (content m) /\
  (forallb brace_or_space (content m) = true -> replace_math B m = Some []) /\
  (forallb inert (content m) = true -> replace_math B m = Some (content m)) /\
  (render_math_to_image B (content m) is_inline = None ->
   emit B markup_error (MathSpan m is_inline)
   = if rejected markup_error (lit "$" ++ content m ++ lit "$")
     then None
     else Some [Plain (lit "$" ++ content m ++ lit "$")]).
Proof.
  intros Hl2t Hsym.
  assert (H : replace_math B m = unicode_replace (content m)).
  { unfold replace_math, content in *. rewrite Hl2t, Hsym.
    now destruct (unicode_replace (strip (group 1 m))). }
  split; [exact H|]. split; [|split].
  - intros Hin. rewrite H. now apply unicode_replace_blank.
  - intros Hin. rewrite H. now apply unicode_replace_inert.
  - intros Himg. unfold emit, print_str, content in *. now rewrite Himg.
Qed.

(** C5 on the match of ["${}$"] with no optional library. *)
Lemma C5_fallback_is_table_result_witness :
  replace_math no_backends (MkMatch 0 4 [lit "{}"])
  = unicode_replace (lit "{}") /\
  replace_math no_backends (MkMatch 0 4 [lit "{}"]) = Some [] /\
  emit no_backends sample_console (MathSpan (MkMatch 0 4 [lit "{}"]) true)
  = Some [Plain (lit "${}$")].
Proof.
  destruct (C5_fallback_is_table_result no_backends sample_console
              (MkMatch 0 4 [lit "{}"]) true eq_refl eq_refl)
    as (H1 & H2 & _ & H4).
  split; [exact H1|]. split; [exact (H2 eq_refl)|]. exact (H4 eq_refl).
Defined.




(** C7 at ["\$5 and $x$"]: the image path leaves the escaped dollar in the
    plain text and finds the span [$x$]; the textual path takes the escaped
    dollar as the opening marker of [$5 and $] and drops both dollars. *)
Theorem C7_textual_path_opens_escaped_dollar :
  segment (lit "\$5 and $x$")
  = Some [PlainText (lit "\$5 and "); MathSpan (MkMatch 8 11 [lit "x"]) true] /\
  search (nth 1 text_patterns (Str [])) (lit "\$5 and $x$") 0
  = Some (MkMatch 1 9 [lit "5 and "]) /\
  last_char None (lit "\$5 and $x$") 1 = Some BACKSLASH /\
  render_latex no_backends (lit "\$5 and $x$") = Some (lit "\5 andx$").
Proof. repeat split; vm_compute; reflexivity. Qed.

(** C8, as stated, fails in the textual path: ["$$$$"] matches none of its
    patterns and comes back unchanged, not as the empty string. *)
Lemma C8_textual_path_keeps_empty_block :
  search (nth 0 text_patterns (Str [])) (lit "$$$$") 0 = None /\
  render_latex no_backends (lit "$$$$") = Some (lit "$$$$") /\
  render_latex no_backends (lit "$$$$") <> Some [].
Proof.
  split; [vm_compute; reflexivity|].
  split; [vm_compute; reflexivity | vm_compute; discriminate].
Qed.

(** C8 (amended): in the image path ["$$$$"] is one block math span with
    empty content; the table-based conversion of the empty fragment is the
    empty string; when the renderer gives no image for the empty fragment,
    no image is shown and ["$$"] is printed. *)
Theorem C8_empty_interior (B : backends) (markup_error : str -> bool) :
  render_math_to_image B [] false = None ->
  segment (lit "$$$$") = Some [PlainText []; MathSpan (MkMatch 0 4 [[]]) false] /\
  content (MkMatch 0 4 [[]]) = [] /\
  unicode_replace [] = Some [] /\
  emit B markup_error (MathSpan (MkMatch 0 4 [[]]) false)
  = Some [Plain (lit "$$")].
Proof.
  intros H. split; [vm_compute; reflexivity|].
  split; [reflexivity|]. split; [vm_compute; reflexivity|].
  unfold emit. change (strip (group 1 (MkMatch 0 4 [[]]))) with (@nil char).
  now rewrite H.
Qed.

(** C8 with no renderer. *)
Lemma C8_empty_interior_witness :
  segment (lit "$$$$") = Some [PlainText []; MathSpan (MkMatch 0 4 [[]]) false] /\
  content (MkMatch 0 4 [[]]) = [] /\
  unicode_replace [] = Some [] /\
  emit no_backends sample_console (MathSpan (MkMatch 0 4 [[]]) false)
  = Some [Plain (lit "$$")].
Proof. apply (C8_empty_interior no_backends sample_console). reflexivity. Defined.

(** C9 at ["x^{10}"]: [strip(' {}')] removes the closing brace, the braced
    rule no longer matches and the fragment comes back as ["x^{10"]; with
    text after the brace the rule gives the code points 0x2070 + digit. *)
Theorem C9_trailing_brace_is_stripped :
  strip_chars (lit " {}") (lit "x^{10}") = lit "x^{10" /\
  unicode_replace (lit "x^{10}") = Some (lit "x^{10") /\
  render_latex no_backends (lit "$x^{10}$") = Some (lit "x^{10") /\
  unicode_replace (lit "x^{10}+y")
  = Some (lit "x" ++ [0x2070 + 1; 0x2070 + 0] ++ lit "+y").
Proof. repeat split; vm_compute; reflexivity. Qed.

(** C10: an unbraced caret or underscore, any number of spaces and a run of
    digits of any length, between stretches of text the table has no rule
    for, is converted in full: each digit [d] becomes the code point
    [0x2070 + int(d)], respectively [0x2080 + int(d)]; ["x^10"] becomes
    ["x"] followed by the code points 0x2071 and 0x2070. *)
Theorem C10_unbraced_digit_run (pre post ds : str) (k : nat) :
  forallb inert pre = true ->
  forallb inert post = true ->
  forallb isdecimal ds = true ->
  (0 < length ds)%nat ->
  starts_outside isdecimal post ->
  unicode_replace (script_text pre 94 k ds post)
  = Some (pre ++ map (fun d => 0x2070 + digit d) ds ++ post) /\
  unicode_replace (script_text pre 95 k ds post)
  = Some (pre ++ map (fun d => 0x2080 + digit d) ds ++ post) /\
  Forall (fun d => int d = Some (digit d) /\
                   chr (0x2070 + digit d) = Some (0x2070 + digit d) /\
                   chr (0x2080 + digit d) = Some (0x2080 + digit d)) ds /\
  unicode_replace (lit "x^10") = Some (lit "x" ++ [0x2071; 0x2070]).
Proof.
  intros Hpre Hpost Hds Hlen Hout.
  assert (Hne : ds <> []) by (intros ->; simpl in Hlen; lia).
  split; [now apply unicode_replace_caret|].
  split; [now apply unicode_replace_underscore|].
  split; [|vm_compute; reflexivity].
  apply Forall_forall. intros d Hd.
  pose proof (forallb_In isdecimal ds d Hds Hd) as Hdec.
  destruct (int_decimal d Hdec) as (v & Hv & Hr).
  unfold digit. rewrite Hv. split; [reflexivity|]. unfold chr.
  split.
  - replace ((0 <=? 0x2070 + v) && (0x2070 + v <=? 1114111)) with true;
      [reflexivity|].
    symmetry. apply andb_true_iff. split; apply Z.leb_le; lia.
  - replace ((0 <=? 0x2080 + v) && (0x2080 + v <=? 1114111)) with true;
      [reflexivity|].
    symmetry. apply andb_true_iff. split; apply Z.leb_le; lia.
Qed.

(** C10 on ["ab^ 10+c"] and ["ab_ 10+c"]. *)
Lemma C10_unbraced_digit_run_witness :
  unicode_replace (script_text (lit "ab") 94 1 (lit "10") (lit "+c"))
  = Some (lit "ab" ++ map (fun d => 0x2070 + digit d) (lit "10") ++ lit "+c") /\
  unicode_replace (script_text (lit "ab") 95 1 (lit "10") (lit "+c"))
  = Some (lit "ab" ++ map (fun d => 0x2080 + digit d) (lit "10") ++ lit "+c") /\
  Forall (fun d => int d = Some (digit d) /\
                   chr (0x2070 + digit d) = Some (0x2070 + digit d) /\
                   chr (0x2080 + digit d) = Some (0x2080 + digit d))
         (lit "10") /\
  unicode_replace (lit "x^10") = Some (lit "x" ++ [0x2071; 0x2070]).
Proof.
  apply (C10_unbraced_digit_run (lit "ab") (lit "+c") (lit "10") 1).
  - reflexivity.
  - reflexivity.
  - reflexivity.
  - simpl. lia.
  - reflexivity.
Defined.

(** * Further properties of the rendering functions *)

(** X1: a text with no dollar sign and no backslash has no math: textual
    mode returns it unchanged, the segmentation is the text as one plain
    span, and [render_response] prints it as one Markdown block -- except
    that the image path prints nothing at all for a blank text, where the
    textual path still prints the block. *)
Theorem X1_text_without_math_is_kept (B : backends)
    (markup_error : str -> bool) (text : str) :
  mem DOLLAR text = false ->
  mem BACKSLASH text = false ->
  render_latex B text = Some text /\
  segment text = Some (match text with
                       | [] => []
                       | _ :: _ => [PlainText text]
                       end) /\
  render_response B markup_error text
  = Some (if image_mode B && blank text then [] else [Markdown text]).
Proof.
  intros Hd Hb.
  assert (Hlatex : render_latex B text = Some text).
  { unfold render_latex, text_patterns. cbn [fold_left].
    erewrite (re_sub_absent _ _ DOLLAR text); [|reflexivity|exact Hd].
    cbv beta iota.
    erewrite (re_sub_absent _ _ DOLLAR text); [|reflexivity|exact Hd].
    cbv beta iota.
    erewrite (re_sub_absent _ _ BACKSLASH text); [|reflexivity|exact Hb].
    cbv beta iota.
    now apply (re_sub_absent _ _ BACKSLASH text). }
  assert (Hseg : segment text = Some (match text with
                                      | [] => []
                                      | _ :: _ => [PlainText text]
                                      end)).
  { destruct text as [|c t]; [reflexivity|].
    unfold segment. cbn [scan length]. cbn [Nat.ltb Nat.leb].
    destruct (best_match (c :: t) 0) as [[[m|] ms] inl] eqn:E; [|reflexivity].
    apply best_match_some in E as (r & Hr & Hs & _). exfalso.
    assert (Hnone : search r (c :: t) 0 = None); [|congruence].
    destruct Hr as [Hr|[Hr|[Hr|[Hr|[]]]]]; injection Hr as <- _;
      first [ now apply (search_absent _ DOLLAR)
            | now apply (search_absent _ BACKSLASH) ]. }
  split; [exact Hlatex|]. split; [exact Hseg|].
  unfold render_response, image_mode. rewrite Hlatex, Hseg.
  destruct (LATEX_SUPPORT B), (KITTY_SUPPORT B), (ITERM_SUPPORT B),
    (RICH_IMAGE_SUPPORT B); cbn [negb orb andb]; try reflexivity;
    (destruct text as [|c t]; [reflexivity|]);
    unfold blank; cbn [emit_all emit];
    destruct (strip (c :: t)); reflexivity.
Qed.

(** X1 on ["plain words"], in image mode. *)
Lemma X1_text_without_math_is_kept_witness :
  render_latex (all_backends (fun _ => None) (fun _ => None) (fun _ _ => None))
    (lit "plain words") = Some (lit "plain words") /\
  segment (lit "plain words") = Some [PlainText (lit "plain words")] /\
  render_response
    (all_backends (fun _ => None) (fun _ => None) (fun _ _ => None))
    sample_console (lit "plain words")
  = Some [Markdown (lit "plain words")].
Proof.
  apply (X1_text_without_math_is_kept
           (all_backends (fun _ => None) (fun _ => None) (fun _ _ => None))
           sample_console (lit "plain words")); reflexivity.
Defined.

Lemma rev_firstn_hd (s : str) (k : nat) :
  (k < length s)%nat -> hd_error (rev (firstn (S k) s)) = nth_error s k.
Proof.
  revert k. induction s as [|a s IH]; intros k Hk; simpl in Hk; [lia|].
  destruct k as [|k].
  - reflexivity.
  - change (firstn (S (S k)) (a :: s)) with (a :: firstn (S k) s).
    cbn [rev nth_error]. rewrite <- IH by lia.
    destruct (rev (firstn (S k) s)) as [|x l] eqn:E; [|reflexivity].
    apply (f_equal (@length char)) in E. rewrite length_rev in E.
    destruct s; simpl in *; [lia | discriminate].
Qed.

(** What a guarded dollar pattern matched: the character before the match
    and the last character of the interior are not backslashes. *)
Lemma guarded_runs (o c : str) (p : char -> bool) prev s n gs :
  o <> [] ->
  In (n, gs) (runs (NotAfter BACKSLASH +++ Str o +++ Group (Star false p) +++
                    NotAfter BACKSLASH +++ Str c) prev s) ->
  prev <> Some BACKSLASH /\
  exists g, gs = [g] /\ hd_error (rev g) <> Some BACKSLASH.
Proof.
  intros Ho H. split; [eapply guarded_not_after; eassumption|].
  apply in_runs_cat in H as (n1 & g1 & n2 & g2 & H1 & H2 & -> & ->).
  apply in_runs_notafter in H1 as (_ & -> & ->). cbn [last_char skipn] in H2.
  apply in_runs_cat in H2 as (n3 & g3 & n4 & g4 & H3 & H4 & -> & ->).
  apply in_runs_str in H3 as (Hpre & -> & ->).
  apply in_runs_cat in H4 as (n5 & g5 & n6 & g6 & H5 & H6 & -> & ->).
  apply in_runs_group in H5 as (g7 & H5 & ->).
  pose proof (runs_bound _ _ _ _ _ H5) as (_ & Hlen).
  apply in_runs_star in H5 as (_ & ->).
  pose proof (guarded_not_after _ _ _ _ _ _ H6) as Hlast.
  apply in_runs_cat in H6 as (n8 & g8 & n9 & g9 & H8 & H9 & _ & ->).
  apply in_runs_notafter in H8 as (_ & _ & ->).
  apply in_runs_str in H9 as (_ & _ & ->).
  exists (firstn n5 (skipn (length o) s)). split; [reflexivity|].
  destruct n5 as [|k]; [discriminate|].
  cbn [last_char] in Hlast.
  destruct (Nat.lt_ge_cases k (length (skipn (length o) s))) as [Hk|Hk].
  - now rewrite rev_firstn_hd.
  - lia.
Qed.

(** X2: in the image path a math span that opens with a dollar sign never
    starts right after a backslash, and its interior never ends in one: an
    escaped dollar neither opens nor closes a span. *)
Theorem X2_image_path_respects_escapes (text : str) (spans : list span)
    (m : rmatch) (is_inline : bool) :
  segment text = Some spans ->
  In (MathSpan m is_inline) spans ->
  nth_error text (m_start m) = Some DOLLAR ->
  last_char None text (m_start m) <> Some BACKSLASH /\
  hd_error (rev (group 1 m)) <> Some BACKSLASH.
Proof.
  intros Hseg Hin Hdollar.
  destruct (scan_math _ _ _ _ _ _ Hseg Hin) as (r & from & Hr & Hs).
  pose proof (search_shape _ _ _ _ Hs) as Hshape.
  apply search_some in Hs as (_ & Hm & _).
  destruct m as [ms me mg]. cbn [m_start m_end m_groups] in *.
  apply match_at_some in Hm as (n & gs & Hrec & Hruns).
  injection Hrec as -> ->.
  assert (Hopen : forall w, slice text ms (ms + n) = BACKSLASH :: w -> False).
  { intros w Hw. rewrite slice_firstn in Hw.
    rewrite <- hd_error_skipn in Hdollar.
    destruct (skipn ms text) as [|a rest]; [destruct n; discriminate|].
    destruct n; [discriminate|]. simpl in Hw, Hdollar.
    injection Hw as -> _. unfold BACKSLASH, DOLLAR in Hdollar.
    discriminate Hdollar. }
  unfold group. cbn [m_groups].
  destruct Hr as [Hr|[Hr|[Hr|[Hr|[]]]]]; injection Hr as <- _.
  - apply guarded_runs in Hruns as (Hp & g & -> & Hg); [|discriminate].
    split; assumption.
  - apply guarded_runs in Hruns as (Hp & g & -> & Hg); [|discriminate].
    split; assumption.
  - exfalso. apply (shape_delimited _ _ true) in Hshape as (g & _ & Hw).
    apply (Hopen _ Hw).
  - exfalso. apply (shape_delimited _ _ true) in Hshape as (g & _ & Hw).
    apply (Hopen _ Hw).
Qed.

(** X2 on ["\$5 and $x$"]: the span found is [$x$]. *)
Lemma X2_image_path_respects_escapes_witness :
  last_char None (lit "\$5 and $x$") (m_start (MkMatch 8 11 [lit "x"]))
  <> Some BACKSLASH /\
  hd_error (rev (group 1 (MkMatch 8 11 [lit "x"]))) <> Some BACKSLASH.
Proof.
  apply (X2_image_path_respects_escapes (lit "\$5 and $x$")
           [PlainText (lit "\$5 and "); MathSpan (MkMatch 8 11 [lit "x"]) true]
           (MkMatch 8 11 [lit "x"]) true).
  - vm_compute. reflexivity.
  - simpl. right. left. reflexivity.
  - reflexivity.
Defined.

(** ** The dictionaries *)

Lemma sub_table_cons (e : str * str) (table : list (str * str)) (s : str) :
  sub_table (e :: table) s
  = (r <- re_sub (Str (fst e)) (fun _ => Some (snd e)) s ;; sub_table table r).
Proof.
  unfold sub_table. cbn [fold_left]. cbv beta iota.
  destruct (re_sub (Str (fst e)) (fun _ => Some (snd e)) s) as [r|];
    [reflexivity|].
  induction table as [|e' table IH]; [reflexivity | exact IH].
Qed.

Lemma sub_table_app (a b : list (str * str)) (s : str) :
  sub_table (a ++ b) s = (r <- sub_table a s ;; sub_table b r).
Proof.
  revert s. induction a as [|e a IH]; intros s.
  - reflexivity.
  - cbn [app]. rewrite !sub_table_cons.
    destruct (re_sub (Str (fst e)) (fun _ => Some (snd e)) s) as [r|];
      [apply IH | reflexivity].
Qed.

Lemma unicode_replace_tables (latex : str) :
  unicode_replace latex
  = (r <- sub_table glyphs (strip_chars (lit " {}") latex) ;; after_tables r).
Proof.
  unfold unicode_replace, glyphs, after_tables. rewrite sub_table_app.
  destruct (sub_table greek (strip_chars (lit " {}") latex)) as [r|];
    [|reflexivity].
  destruct (sub_table symbols r); reflexivity.
Qed.

Lemma after_tables_inert (s : str) :
  forallb inert s = true -> after_tables s = Some s.
Proof.
  intros H.
  assert (Hfree : forall c, inert c = false -> mem c s = false)
    by (intros c Hc; now apply (mem_false_forallb c inert)).
  pose proof (Hfree 92 eq_refl) as HB.
  pose proof (Hfree 94 eq_refl) as HC.
  pose proof (Hfree 95 eq_refl) as HU.
  unfold after_tables.
  rewrite (re_sub_absent frac_re _ 92 _ eq_refl HB).
  rewrite (re_sub_absent (braced_re "^") _ 94 _ eq_refl HC).
  rewrite (re_sub_absent (braced_re "_") _ 95 _ eq_refl HU).
  rewrite (re_sub_absent (plain_re "^") _ 94 _ eq_refl HC).
  rewrite (re_sub_absent (plain_re "_") _ 95 _ eq_refl HU).
  rewrite (replace_absent (lit "^2") _ 94 _ eq_refl HC).
  rewrite (replace_absent (lit "^3") _ 94 _ eq_refl HC).
  now rewrite (replace_absent (lit "^-1") _ 94 _ eq_refl HC).
Qed.

Lemma strip_chars_outside (cs s : str) :
  forallb (fun c => negb (mem c cs)) s = true -> strip_chars cs s = s.
Proof.
  intros H. apply strip_chars_id.
  - destruct s as [|a s]; cbn [starts_outside]; [exact I|].
    cbn [forallb] in H. apply andb_true_iff in H as (Ha & _).
    now apply negb_true_iff in Ha.
  - destruct (rev s) as [|a l] eqn:E; cbn [starts_outside]; [exact I|].
    rewrite forallb_forall in H. apply negb_true_iff, H, in_rev.
    rewrite E. now left.
Qed.

Lemma inert_not_stripped (s : str) :
  forallb inert s = true ->
  forallb (fun c => negb (mem c (lit " {}"))) s = true.
Proof.
  intros H. apply forallb_forall. intros c Hc.
  rewrite forallb_forall in H. specialize (H c Hc).
  apply inert_spec in H. apply negb_true_iff.
  change (lit " {}") with [32; 123; 125]. unfold mem, SPACE in *. simpl.
  rewrite !orb_false_iff, !Z.eqb_neq. tauto.
Qed.

Lemma no_clash_prefix : forall (k' k post : str),
  clash k' k = false -> is_prefix k' (k ++ post) = false.
Proof.
  unfold clash. induction k' as [|a k' IH]; intros k post H.
  - discriminate.
  - destruct k as [|b k]; [simpl in H; discriminate|].
    cbn [is_prefix app] in *. destruct (Z.eqb_spec a b) as [->|Hne].
    + rewrite Z.eqb_refl in H. cbn [andb] in *. now apply IH.
    + reflexivity.
Qed.

(** A text with one backslash, at the head of the key of one entry: the
    entries before it find nothing, that entry puts its glyph, the entries
    after it find no backslash. *)
Lemma sub_table_one_key (g k pre post : str) :
  forallb inert pre = true -> forallb inert post = true ->
  forallb inert k = true -> forallb inert g = true ->
  forall before after : list (str * str),
    Forall (fun e : str * str => first_char (Str (fst e)) = Some BACKSLASH)
           (before ++ after) ->
    Forall (fun e : str * str => clash (fst e) (BACKSLASH :: k) = false)
           before ->
    sub_table (before ++ (BACKSLASH :: k, g) :: after)
              (pre ++ (BACKSLASH :: k) ++ post)
    = Some (pre ++ g ++ post).
Proof.
  intros Hpre Hpost Hk Hg.
  assert (Hfree : forall s, forallb inert s = true -> mem BACKSLASH s = false)
    by (intros s Hs; now apply (mem_false_forallb BACKSLASH inert)).
  assert (Hrest : mem BACKSLASH (k ++ post) = false)
    by (rewrite mem_app, (Hfree k Hk), (Hfree post Hpost); reflexivity).
  induction before as [|e before IH]; intros after Hfirst Hclash.
  - cbn [app] in *. rewrite sub_table_cons. cbn [fst snd].
    rewrite (re_sub_one_mark (Str (BACKSLASH :: k)) (fun _ => Some g)
               BACKSLASH pre (k ++ post) (length k) [] g eq_refl
               (Hfree pre Hpre) Hrest).
    + rewrite skipn_pre. apply sub_table_absent with (c := BACKSLASH);
        [assumption|].
      rewrite !mem_app, (Hfree pre Hpre), (Hfree g Hg), (Hfree post Hpost).
      reflexivity.
    + intros prev. apply (runs_str_hd (BACKSLASH :: k)).
      apply (is_prefix_refl_app (BACKSLASH :: k) post).
    + rewrite length_app. lia.
    + reflexivity.
  - cbn [app] in *. rewrite sub_table_cons.
    inversion Hfirst as [|? ? Hf Hfirst']; subst.
    inversion Hclash as [|? ? Hc Hclash']; subst.
    assert (Hruns : forall prev,
               runs (Str (fst e)) prev (BACKSLASH :: k ++ post) = []).
    { intros prev. cbn [runs].
      change (BACKSLASH :: k ++ post) with ((BACKSLASH :: k) ++ post).
      now rewrite (no_clash_prefix (fst e) (BACKSLASH :: k) post Hc). }
    rewrite (re_sub_no_match (Str (fst e)) _ _
               (search_one_mark_none (Str (fst e)) BACKSLASH pre (k ++ post)
                  O Hf (Hfree pre Hpre) Hrest Hruns)).
    now apply IH.
Qed.

Lemma entries_clear : forallb entry_clear (seq 0 54) = true.
Proof. vm_compute. reflexivity. Qed.

Lemma clear_entry_applies (i : nat) (k g pre post : str) :
  nth_error glyphs i = Some (k, g) ->
  (i < 54)%nat ->
  forallb inert pre = true ->
  forallb inert post = true ->
  unicode_replace (pre ++ k ++ post) = Some (pre ++ g ++ post).
Proof.
  intros Hi Hlt Hpre Hpost.
  pose proof entries_clear as Hall. rewrite forallb_forall in Hall.
  specialize (Hall i). unfold entry_clear in Hall. rewrite Hi in Hall.
  destruct k as [|c k]; [discriminate Hall; apply in_seq; lia|].
  assert (Hc : (c =? BACKSLASH) && forallb inert k && forallb inert g
               && forallb (fun e : str * str => negb (clash (fst e) (c :: k)))
                          (firstn i glyphs) = true)
    by (apply Hall, in_seq; lia).
  apply andb_true_iff in Hc as (Hc & Hclash).
  apply andb_true_iff in Hc as (Hc & Hg).
  apply andb_true_iff in Hc as (Hc & Hk).
  apply Z.eqb_eq in Hc. subst c.
  assert (Hstrip : strip_chars (lit " {}") (pre ++ (BACKSLASH :: k) ++ post)
                   = pre ++ (BACKSLASH :: k) ++ post).
  { apply strip_chars_outside. rewrite !forallb_app. cbn [forallb].
    rewrite (inert_not_stripped pre Hpre), (inert_not_stripped k Hk),
      (inert_not_stripped post Hpost). reflexivity. }
  rewrite unicode_replace_tables, Hstrip.
  rewrite <- (firstn_skipn_middle i glyphs Hi) at 1.
  rewrite (sub_table_one_key g k pre post Hpre Hpost Hk Hg).
  - apply after_tables_inert. rewrite !forallb_app, Hpre, Hg, Hpost.
    reflexivity.
  - apply Forall_forall. intros e He.
    assert (Hin : In e glyphs).
    { rewrite <- (firstn_skipn_middle i glyphs Hi). apply in_or_app.
      apply in_app_or in He as [He|He];
        [left; assumption | right; right; assumption]. }
    pose proof (keys_first_char BACKSLASH glyphs eq_refl) as Hkeys.
    rewrite Forall_forall in Hkeys. now apply Hkeys.
  - apply Forall_forall. intros e He.
    rewrite forallb_forall in Hclash. specialize (Hclash e He).
    now apply negb_true_iff in Hclash.
Qed.

(** X3: every entry of the two dictionaries but the last ([\leftarrow]) is
    applied: between stretches of text the rules have nothing for, its
    command is replaced by its glyph and nothing else changes. *)
Theorem X3_command_becomes_glyph (i : nat) (k g pre post : str) :
  nth_error glyphs i = Some (k, g) ->
  (i < 54)%nat ->
  forallb inert pre = true ->
  forallb inert post = true ->
  unicode_replace (pre ++ k ++ post) = Some (pre ++ g ++ post).
Proof. apply clear_entry_applies. Qed.

(** X3 for [\pi] (index 23) in ["2\pi r"]. *)
Lemma X3_command_becomes_glyph_witness :
  unicode_replace (lit "2" ++ lit "\pi" ++ lit "r")
  = Some (lit "2" ++ [0x03C0] ++ lit "r").
Proof.
  apply (X3_command_becomes_glyph 23 (lit "\pi") [0x03C0] (lit "2") (lit "r")).
  - reflexivity.
  - lia.
  - reflexivity.
  - reflexivity.
Defined.

(** X4: the last entry, [\leftarrow], is never reached by its own rule: the
    entry [\le] comes first and takes its first three characters, so the
    command comes out as the glyph of [\le] followed by ["ftarrow"], and not
    as the arrow. *)
Theorem X4_leftarrow_is_shadowed (pre post : str) :
  forallb inert pre = true ->
  forallb inert post = true ->
  nth_error glyphs 54 = Some (lit "\leftarrow", [0x2190]) /\
  unicode_replace (pre ++ lit "\leftarrow" ++ post)
  = Some (pre ++ [0x2264] ++ lit "ftarrow" ++ post) /\
  unicode_replace (pre ++ lit "\leftarrow" ++ post)
  <> Some (pre ++ [0x2190] ++ post).
Proof.
  intros Hpre Hpost.
  assert (H : unicode_replace (pre ++ lit "\leftarrow" ++ post)
              = Some (pre ++ [0x2264] ++ lit "ftarrow" ++ post)).
  { change (lit "\leftarrow" ++ post)
      with (lit "\le" ++ (lit "ftarrow" ++ post)).
    apply (clear_entry_applies 49 (lit "\le") [0x2264] pre
             (lit "ftarrow" ++ post)); try assumption.
    - reflexivity.
    - lia. }
  split; [reflexivity|]. split; [exact H|].
  rewrite H. intros E. injection E as E.
  apply app_inv_head in E. discriminate E.
Qed.

(** X4 on ["a\leftarrow b"] without the space. *)
Lemma X4_leftarrow_is_shadowed_witness :
  nth_error glyphs 54 = Some (lit "\leftarrow", [0x2190]) /\
  unicode_replace (lit "a" ++ lit "\leftarrow" ++ lit "b")
  = Some (lit "a" ++ [0x2264] ++ lit "ftarrow" ++ lit "b") /\
  unicode_replace (lit "a" ++ lit "\leftarrow" ++ lit "b")
  <> Some (lit "a" ++ [0x2190] ++ lit "b").
Proof.
  apply (X4_leftarrow_is_shadowed (lit "a") (lit "b")); reflexivity.
Defined.

(** ** Fractions *)

Lemma after_tables_frac (s s' : str) :
  re_sub frac_re (fun m => Some (group 1 m ++ lit "/" ++ group 2 m)) s
  = Some s' ->
  mem 94 s' = false -> mem 95 s' = false ->
  after_tables s = Some s'.
Proof.
  intros Hfrac HC HU. unfold after_tables. rewrite Hfrac.
  rewrite (re_sub_absent (braced_re "^") _ 94 _ eq_refl HC).
  rewrite (re_sub_absent (braced_re "_") _ 95 _ eq_refl HU).
  rewrite (re_sub_absent (plain_re "^") _ 94 _ eq_refl HC).
  rewrite (re_sub_absent (plain_re "_") _ 95 _ eq_refl HU).
  rewrite (replace_absent (lit "^2") _ 94 _ eq_refl HC).
  rewrite (replace_absent (lit "^3") _ 94 _ eq_refl HC).
  now rewrite (replace_absent (lit "^-1") _ 94 _ eq_refl HC).
Qed.

(** The dictionaries on a text whose only backslash opens something no key
    is a prefix of. *)
Lemma sub_table_one_mark_none (pre rest : str) :
  mem BACKSLASH pre = false -> mem BACKSLASH rest = false ->
  forall table : list (str * str),
    Forall (fun e : str * str => first_char (Str (fst e)) = Some BACKSLASH)
           table ->
    Forall (fun e : str * str =>
              is_prefix (fst e) (BACKSLASH :: rest) = false) table ->
    sub_table table (pre ++ BACKSLASH :: rest) = Some (pre ++ BACKSLASH :: rest).
Proof.
  intros Hpre Hrest. induction table as [|e table IH]; intros Hf Hp.
  - reflexivity.
  - inversion Hf as [|? ? Hf1 Hf']; subst.
    inversion Hp as [|? ? Hp1 Hp']; subst.
    rewrite sub_table_cons.
    assert (Hruns : forall prev,
               runs (Str (fst e)) prev (BACKSLASH :: rest) = [])
      by (intros prev; cbn [runs]; now rewrite Hp1).
    rewrite (re_sub_no_match (Str (fst e)) _ _
               (search_one_mark_none (Str (fst e)) BACKSLASH pre rest
                  O Hf1 Hpre Hrest Hruns)).
    now apply IH.
Qed.

Lemma keys_miss_frac (rest : str) :
  Forall (fun e : str * str =>
            is_prefix (fst e) (lit "\frac{" ++ rest) = false) glyphs.
Proof.
  assert (H : forallb (fun e : str * str =>
                         negb (clash (fst e) (lit "\frac{"))) glyphs = true)
    by (vm_compute; reflexivity).
  apply Forall_forall. intros e He. rewrite forallb_forall in H.
  apply no_clash_prefix. apply negb_true_iff. now apply H.
Qed.

Lemma rstrip_last (p : char -> bool) (s : str) (c : char) :
  p c = true -> rstrip p (s ++ [c]) = rstrip p s.
Proof.
  intros Hc. unfold rstrip. rewrite rev_app_distr. simpl. now rewrite Hc.
Qed.

Lemma rstrip_id (p : char -> bool) (s : str) :
  starts_outside p (rev s) -> rstrip p s = s.
Proof.
  intros H. unfold rstrip. rewrite (lstrip_id p (rev s) H).
  apply rev_involutive.
Qed.

Lemma split_at_first (c : char) : forall (x x' y y' : str),
  mem c x = false -> mem c x' = false ->
  x ++ c :: y = x' ++ c :: y' -> x = x' /\ y = y'.
Proof.
  induction x as [|a x IH]; intros x' y y' Hx Hx' E; destruct x' as [|a' x'].
  - injection E as ->. auto.
  - injection E as <- _. simpl in Hx'. now rewrite Z.eqb_refl in Hx'.
  - injection E as -> _. simpl in Hx. now rewrite Z.eqb_refl in Hx.
  - injection E as -> E. simpl in Hx, Hx'.
    apply orb_false_iff in Hx as (_ & Hx).
    apply orb_false_iff in Hx' as (_ & Hx').
    destruct (IH x' y y' Hx Hx' E) as (-> & ->). auto.
Qed.

Section Fractions.

Variables pre a b : str.
Hypothesis Hpre : forallb inert pre = true.
Hypothesis Ha : forallb inert a = true.
Hypothesis Hb : forallb inert b = true.
Hypothesis Ha_ne : a <> [].
Hypothesis Hb_ne : b <> [].

Lemma inert_free (c : char) (s : str) :
  inert c = false -> forallb inert s = true -> mem c s = false.
Proof. intros Hc Hs. now apply (mem_false_forallb c inert). Qed.

Lemma not_brace (s : str) :
  forallb inert s = true -> forallb (not_in (lit "}")) s = true.
Proof.
  intros H. apply forallb_forall. intros c Hc.
  rewrite forallb_forall in H. specialize (H c Hc).
  apply inert_spec in H. unfold not_in. apply negb_true_iff.
  change (lit "}") with [125]. unfold mem. simpl.
  rewrite orb_false_r. apply Z.eqb_neq. tauto.
Qed.

(** The fraction pattern at a complete command: both groups in full. *)
Lemma frac_re_hd prev (post : str) :
  hd_error (runs frac_re prev (frac_text a b ++ post))
  = Some ((6 + (length a + (2 + (length b + 1))))%nat, [a; b]).
Proof.
  unfold frac_re, frac_text. rewrite <- !app_assoc.
  change [a; b] with ([] ++ [a] ++ [] ++ [b] ++ []).
  assert (Hnb : forall s rest,
             forallb inert s = true -> s <> [] ->
             forall p, hd_error (runs (Group (Plus true (not_in (lit "}")))) p
                                   (s ++ lit "}" ++ rest))
                       = Some (length s, [s])).
  { intros s rest Hs Hne p.
    assert (Hlen : prefix_len (not_in (lit "}")) (s ++ lit "}" ++ rest)
                   = length s)
      by (apply prefix_len_run; [now apply not_brace | reflexivity]).
    replace [s] with [firstn (length s) (s ++ lit "}" ++ rest)]
      by (rewrite firstn_app, Nat.sub_diag, firstn_all; simpl;
          now rewrite app_nil_r).
    apply runs_group_hd. rewrite <- Hlen at 1. apply runs_plus_greedy_hd.
    rewrite Hlen. destruct s; [now elim Hne | simpl; lia]. }
  apply runs_cat_hd.
  - apply (runs_str_hd (lit "\frac{")). apply is_prefix_refl_app.
  - rewrite (skipn_pre _ (lit "\frac{")).
    apply runs_cat_hd.
    + change (lit "}{" ++ b ++ lit "}" ++ post)
        with (lit "}" ++ (lit "{" ++ b ++ lit "}" ++ post)).
      now apply Hnb.
    + rewrite skipn_pre. apply runs_cat_hd.
      * apply (runs_str_hd (lit "}{")). apply is_prefix_refl_app.
      * rewrite (skipn_pre _ (lit "}{")). apply runs_cat_hd.
        -- now apply Hnb.
        -- rewrite skipn_pre. apply (runs_str_hd (lit "}")).
           apply is_prefix_refl_app.
Qed.

(** Without its closing brace the command matches nothing. *)
Lemma frac_re_none prev :
  runs frac_re prev (lit "\frac{" ++ a ++ lit "}{" ++ b) = [].
Proof.
  destruct (runs frac_re prev (lit "\frac{" ++ a ++ lit "}{" ++ b))
    as [|[n gs] l] eqn:E; [reflexivity|]. exfalso.
  assert (Hin : In (n, gs) (runs frac_re prev
                              (lit "\frac{" ++ a ++ lit "}{" ++ b)))
    by (rewrite E; now left).
  apply runs_shape in Hin. unfold frac_re in Hin. shape_inv Hin.
  destruct Hs as (-> & _). destruct Hin as (-> & _).
  destruct Hs0 as (gs1 & (Hn1 & _ & _) & _).
  destruct Hs1 as (-> & _).
  destruct Hs2 as (gs2 & (Hn5 & _ & _) & _).
  pose proof (firstn_skipn n (lit "\frac{" ++ a ++ lit "}{" ++ b)) as Hsplit.
  rewrite Hw in Hsplit. subst w0 w2 w4.
  rewrite <- !app_assoc in Hsplit. apply app_inv_head in Hsplit.
  assert (Hfree : forall s, forallb (not_in (lit "}")) s = true ->
                            mem 125 s = false).
  { intros s Hs. apply (mem_false_forallb 125 (not_in (lit "}")));
      [reflexivity | assumption]. }
  change (lit "}{" ++ w5 ++ lit "}" ++ skipn n (lit "\frac{" ++ a ++ lit "}{" ++ b))
    with (125 :: lit "{" ++ w5 ++ lit "}"
              ++ skipn n (lit "\frac{" ++ a ++ lit "}{" ++ b)) in Hsplit.
  change (lit "}{" ++ b) with (125 :: lit "{" ++ b) in Hsplit.
  apply split_at_first in Hsplit as (_ & Hrest);
    [|now apply Hfree|apply Hfree; now apply not_brace].
  change (lit "{" ++ w5 ++ lit "}"
              ++ skipn n (lit "\frac{" ++ a ++ lit "}{" ++ b))
    with (lit "{" ++ (w5 ++ lit "}"
              ++ skipn n (lit "\frac{" ++ a ++ lit "}{" ++ b))) in Hrest.
  apply app_inv_head in Hrest.
  assert (Hmem : mem 125 b = true).
  { rewrite <- Hrest, mem_app. change (lit "}") with [125].
    rewrite mem_app. simpl. now rewrite !orb_true_r. }
  rewrite (Hfree b (not_brace b Hb)) in Hmem. discriminate.
Qed.

(** A fraction followed by more text is rewritten as [a/b]. *)
Lemma unicode_replace_frac (post : str) :
  forallb inert post = true -> post <> [] ->
  unicode_replace (pre ++ frac_text a b ++ post)
  = Some (pre ++ a ++ lit "/" ++ b ++ post).
Proof.
  intros Hpost Hpost_ne.
  assert (Hset : forall c, inert c = true -> mem c (lit " {}") = false).
  { intros c Hc. apply inert_spec in Hc.
    change (lit " {}") with [32; 123; 125]. unfold mem, SPACE in *. simpl.
    rewrite !orb_false_iff, !Z.eqb_neq. tauto. }
  assert (Hstrip : strip_chars (lit " {}") (pre ++ frac_text a b ++ post)
                   = pre ++ frac_text a b ++ post).
  { apply strip_chars_id.
    - destruct pre as [|c p]; cbn [app starts_outside]; [reflexivity|].
      cbn [forallb] in Hpre. apply andb_true_iff in Hpre as (Hc & _). auto.
    - rewrite !rev_app_distr.
      destruct (rev post) as [|c rp] eqn:E.
      + apply (f_equal (@rev char)) in E. rewrite rev_involutive in E.
        now elim Hpost_ne.
      + cbn [app starts_outside]. apply Hset.
        apply (forallb_In inert post); [assumption|].
        apply in_rev. rewrite E. now left. }
  assert (HBpre : mem BACKSLASH pre = false)
    by now apply (inert_free BACKSLASH).
  assert (HBrest : mem BACKSLASH
                     (lit "frac{" ++ a ++ lit "}{" ++ b ++ lit "}" ++ post)
                   = false).
  { rewrite !mem_app, (inert_free BACKSLASH a eq_refl Ha),
      (inert_free BACKSLASH b eq_refl Hb),
      (inert_free BACKSLASH post eq_refl Hpost). reflexivity. }
  assert (Hout : forall c, inert c = false ->
                           mem c (pre ++ a ++ lit "/" ++ b ++ post) = false).
  { intros c Hc.
    rewrite !mem_app, (inert_free c pre Hc Hpre), (inert_free c a Hc Ha),
      (inert_free c b Hc Hb), (inert_free c post Hc Hpost), !orb_false_r.
    simpl. rewrite orb_false_r. apply Z.eqb_neq. intros ->.
    discriminate Hc. }
  rewrite unicode_replace_tables, Hstrip.
  assert (Htext : pre ++ frac_text a b ++ post
                  = pre ++ BACKSLASH
                        :: (lit "frac{" ++ a ++ lit "}{" ++ b ++ lit "}" ++ post))
    by (unfold frac_text; now rewrite <- !app_assoc).
  rewrite Htext.
  rewrite (sub_table_one_mark_none pre _ HBpre HBrest glyphs
             (keys_first_char BACKSLASH glyphs eq_refl)
             (keys_miss_frac _)).
  apply after_tables_frac; [|apply Hout; reflexivity|apply Hout; reflexivity].
  rewrite (re_sub_one_mark frac_re _ BACKSLASH pre _
             (5 + (length a + (2 + (length b + 1)))) [a; b]
             (a ++ lit "/" ++ b) eq_refl HBpre HBrest).
  - do 2 f_equal. rewrite <- !app_assoc.
    replace (5 + (length a + (2 + (length b + 1))))%nat
      with (length (lit "frac{" ++ a ++ lit "}{" ++ b ++ lit "}"))
      by (rewrite !length_app; simpl; lia).
    rewrite <- (skipn_pre _ (lit "frac{" ++ a ++ lit "}{" ++ b ++ lit "}") post)
      at 2.
    now rewrite <- !app_assoc.
  - intros prev.
    pose proof (frac_re_hd prev post) as H. unfold frac_text in H.
    rewrite <- !app_assoc in H. exact H.
  - rewrite !length_app. simpl. lia.
  - reflexivity.
Qed.

(** A fraction that ends the fragment loses its closing brace to
    [strip(' {}')] and is not rewritten. *)
Lemma unicode_replace_frac_last :
  unicode_replace (pre ++ frac_text a b)
  = Some (pre ++ lit "\frac{" ++ a ++ lit "}{" ++ b).
Proof.
  assert (Hset : forall c, inert c = true -> mem c (lit " {}") = false).
  { intros c Hc. apply inert_spec in Hc.
    change (lit " {}") with [32; 123; 125]. unfold mem, SPACE in *. simpl.
    rewrite !orb_false_iff, !Z.eqb_neq. tauto. }
  assert (Hstrip : strip_chars (lit " {}") (pre ++ frac_text a b)
                   = pre ++ lit "\frac{" ++ a ++ lit "}{" ++ b).
  { unfold strip_chars, frac_text. change (lit "}") with [125].
    rewrite lstrip_id.
    - rewrite !app_assoc. rewrite rstrip_last by reflexivity.
      rewrite <- !app_assoc. apply rstrip_id.
      rewrite !rev_app_distr.
      destruct (rev b) as [|c rb] eqn:E.
      + apply (f_equal (@rev char)) in E. rewrite rev_involutive in E.
        now elim Hb_ne.
      + cbn [app starts_outside]. apply Hset.
        apply (forallb_In inert b); [assumption|].
        apply in_rev. rewrite E. now left.
    - destruct pre as [|c p]; cbn [app starts_outside]; [reflexivity|].
      cbn [forallb] in Hpre. apply andb_true_iff in Hpre as (Hc & _). auto. }
  assert (HBpre : mem BACKSLASH pre = false)
    by now apply (inert_free BACKSLASH).
  assert (Hrest : forall c, inert c = false -> c <> 123 -> c <> 125 ->
                            mem c (lit "frac{" ++ a ++ lit "}{" ++ b) = false).
  { intros c Hc H1 H2.
    rewrite !mem_app, (inert_free c a Hc Ha), (inert_free c b Hc Hb),
      !orb_false_r.
    assert (Hl : forall w : string,
               forallb (fun x => (x =? 123) || (x =? 125) || inert x) (lit w)
               = true -> mem c (lit w) = false).
    { intros w Hw. apply mem_not_in. intros x Hx.
      rewrite forallb_forall in Hw. specialize (Hw x Hx). intros ->.
      rewrite Hc in Hw.
      destruct (Z.eqb_spec c 123); [contradiction|].
      destruct (Z.eqb_spec c 125); [contradiction|]. discriminate. }
    now rewrite (Hl "frac{"%string eq_refl), (Hl "}{"%string eq_refl). }
  assert (Hout : forall c, inert c = false -> c <> BACKSLASH ->
                           c <> 123 -> c <> 125 ->
                           mem c (pre ++ lit "\frac{" ++ a ++ lit "}{" ++ b)
                           = false).
  { intros c Hc H0 H1 H2.
    change (lit "\frac{" ++ a ++ lit "}{" ++ b)
      with (BACKSLASH :: lit "frac{" ++ a ++ lit "}{" ++ b).
    rewrite mem_app, mem_cons, (inert_free c pre Hc Hpre),
      (Hrest c Hc H1 H2).
    destruct (Z.eqb_spec c BACKSLASH); [contradiction | reflexivity]. }
  rewrite unicode_replace_tables, Hstrip.
  change (pre ++ lit "\frac{" ++ a ++ lit "}{" ++ b)
    with (pre ++ BACKSLASH :: (lit "frac{" ++ a ++ lit "}{" ++ b)).
  rewrite (sub_table_one_mark_none pre _ HBpre
             (Hrest BACKSLASH eq_refl ltac:(discriminate) ltac:(discriminate))
             glyphs (keys_first_char BACKSLASH glyphs eq_refl)
             (keys_miss_frac _)).
  apply after_tables_frac.
  - apply re_sub_no_match.
    apply (search_one_mark_none frac_re BACKSLASH pre _ O eq_refl HBpre
             (Hrest BACKSLASH eq_refl ltac:(discriminate) ltac:(discriminate))).
    intros prev. apply (frac_re_none prev).
  - apply (Hout 94 eq_refl); discriminate.
  - apply (Hout 95 eq_refl); discriminate.
Qed.

End Fractions.

(** X5: a fraction command with a numerator and a denominator free of
    special characters, followed by more text, becomes [a/b]; the same
    command at the end of the fragment is left as it was, less its closing
    brace, which [strip(' {}')] removed before the rule could see it. *)
Theorem X5_fraction_needs_text_after (pre a b post : str) :
  forallb inert pre = true ->
  forallb inert a = true ->
  forallb inert b = true ->
  forallb inert post = true ->
  (0 < length a)%nat -> (0 < length b)%nat -> (0 < length post)%nat ->
  unicode_replace (pre ++ frac_text a b ++ post)
  = Some (pre ++ a ++ lit "/" ++ b ++ post) /\
  unicode_replace (pre ++ frac_text a b)
  = Some (pre ++ lit "\frac{" ++ a ++ lit "}{" ++ b).
Proof.
  intros Hpre Ha Hb Hpost La Lb Lp.
  assert (Ha_ne : a <> []) by (intros ->; simpl in La; lia).
  assert (Hb_ne : b <> []) by (intros ->; simpl in Lb; lia).
  assert (Hp_ne : post <> []) by (intros ->; simpl in Lp; lia).
  split.
  - now apply unicode_replace_frac.
  - now apply unicode_replace_frac_last.
Qed.

(** X5 on ["\frac{1}{2}x"] and ["\frac{1}{2}"]. *)
Lemma X5_fraction_needs_text_after_witness :
  unicode_replace ([] ++ frac_text (lit "1") (lit "2") ++ lit "x")
  = Some ([] ++ lit "1" ++ lit "/" ++ lit "2" ++ lit "x") /\
  unicode_replace ([] ++ frac_text (lit "1") (lit "2"))
  = Some ([] ++ lit "\frac{" ++ lit "1" ++ lit "}{" ++ lit "2").
Proof.
  apply (X5_fraction_needs_text_after [] (lit "1") (lit "2") (lit "x"));
    first [reflexivity | simpl; lia].
Defined.

(** ** The literal rules for [^2] and [^3] *)

Lemma has_pair_nth (p : char -> char -> bool) : forall (s : str),
  has_pair p s = true ->
  exists i a b, nth_error s i = Some a /\ nth_error s (S i) = Some b /\
                p a b = true.
Proof.
  induction s as [|a s IH]; intros H; [discriminate|].
  destruct s as [|b s]; [discriminate|].
  cbn [has_pair] in H. apply orb_true_iff in H as [H|H].
  - exists O, a, b. auto.
  - destruct (IH H) as (i & x & y & H1 & H2 & H3).
    exists (S i), x, y. auto.
Qed.

Lemma has_pair_of_nth (p : char -> char -> bool) : forall (s : str) i a b,
  nth_error s i = Some a -> nth_error s (S i) = Some b -> p a b = true ->
  has_pair p s = true.
Proof.
  induction s as [|x s IH]; intros i a b H1 H2 H3; [destruct i; discriminate|].
  destruct s as [|y s]; [destruct i as [|[|i]]; discriminate|].
  cbn [has_pair]. destruct i as [|i].
  - injection H1 as ->. injection H2 as ->. now rewrite H3.
  - apply orb_true_iff. right. apply (IH i a b); assumption.
Qed.

(** Text put before a stretch that starts with a character never second in
    a pair. *)
Lemma has_pair_before (p : char -> char -> bool) (c : char) (y : str) :
  (forall a, p a c = false) ->
  forall x, has_pair p x = false -> has_pair p (c :: y) = false ->
            has_pair p (x ++ c :: y) = false.
Proof.
  intros Hc. induction x as [|a x IH]; intros Hx Hy; [exact Hy|].
  destruct x as [|a' x].
  - cbn [app has_pair]. cbn [has_pair] in Hy. now rewrite Hc.
  - cbn [app has_pair] in *. apply orb_false_iff in Hx as (-> & Hx).
    cbn [orb]. now apply IH.
Qed.

(** A stretch none of whose characters is ever first in a pair. *)
Lemma has_pair_after (p : char -> char -> bool) (y : str) :
  forall x, (forall a b, In a x -> p a b = false) ->
            has_pair p (x ++ y) = has_pair p y.
Proof.
  induction x as [|a x IH]; intros Hx; [reflexivity|].
  assert (Htail : has_pair p (x ++ y) = has_pair p y)
    by (apply IH; intros a' b Ha'; apply Hx; now right).
  cbn [app]. destruct (x ++ y) as [|b t] eqn:E.
  - destruct x; [|discriminate]. simpl in E. subst y. reflexivity.
  - change (has_pair p (a :: b :: t))
      with (p a b || has_pair p (b :: t)).
    rewrite Htail, (Hx a b); [reflexivity | now left].
Qed.

Lemma script_chars_apart (base : Z) (c : char) :
  base = 0x2070 \/ base = 0x2080 ->
  base <= c < base + 10 ->
  c <> 94 /\ isdecimal c = false.
Proof.
  intros Hb Hc. split; [lia|].
  destruct (isdecimal c) eqn:E; [|reflexivity]. exfalso.
  unfold isdecimal in E. apply existsb_exists in E as (b & Hin & Hr).
  unfold in_run in Hr. apply andb_true_iff in Hr as (H1 & H2).
  apply Z.leb_le in H1. apply Z.ltb_lt in H2.
  unfold decimal_bases in Hin. simpl in Hin.
  repeat (destruct Hin as [<-|Hin]; [lia|]). exact Hin.
Qed.

(** What the two digit rules put in place of a match: at least one
    character, none a caret, none a decimal digit. *)
Lemma script_digits_apart (base : Z) (mark : string) text pos m rep :
  base = 0x2070 \/ base = 0x2080 ->
  search (plain_re mark) text pos = Some m ->
  script_digits base m = Some rep ->
  rep <> [] /\ forall c, In c rep -> c <> 94 /\ isdecimal c = false.
Proof.
  intros Hb Hs Hrep. apply search_shape in Hs.
  apply plain_group in Hs as (g & Hg & Hd & Hne).
  rewrite (script_digits_value base m g) in Hrep;
    [|destruct Hb; subst; lia|assumption|assumption].
  injection Hrep as <-. split.
  - destruct g; [now elim Hne | discriminate].
  - intros c Hc. apply in_map_iff in Hc as (d & <- & _).
    apply (script_chars_apart base); [assumption|].
    pose proof (digit_range d). lia.
Qed.

(** A substitution pass of one of the two unbraced digit rules leaves no
    caret with a digit after it, provided every such pair of its input is
    where the pattern matches. *)
Lemma digit_pass_no_pair (base : Z) (mark : string) (text : str) :
  base = 0x2070 \/ base = 0x2080 ->
  (forall i a b, nth_error text i = Some a -> nth_error text (S i) = Some b ->
                 caret_digit a b = true ->
                 match_at (plain_re mark) text i <> None) ->
  forall fuel pos out,
    sub_loop fuel (plain_re mark) (script_digits base) text pos = Some out ->
    has_pair caret_digit out = false.
Proof.
  intros Hb Hpair.
  assert (Hslice : forall pos e,
             (forall i, (pos <= i < e)%nat ->
                        match_at (plain_re mark) text i = None) ->
             has_pair caret_digit (slice text pos e) = false).
  { intros pos e Hnone.
    destruct (has_pair caret_digit (slice text pos e)) eqn:E; [|reflexivity].
    exfalso. apply has_pair_nth in E as (i & a & b & H1 & H2 & H3).
    unfold slice in H1, H2.
    assert (Hi : (S i < e - pos)%nat).
    { assert (Hlt : nth_error (firstn (e - pos) (skipn pos text)) (S i)
                    <> None) by (rewrite H2; discriminate).
      apply nth_error_Some in Hlt. rewrite length_firstn in Hlt. lia. }
    rewrite nth_error_firstn in H1, H2.
    destruct (Nat.ltb_spec i (e - pos)); [|lia].
    destruct (Nat.ltb_spec (S i) (e - pos)); [|lia].
    rewrite nth_error_skipn in H1, H2.
    replace (pos + S i)%nat with (S (pos + i)) in H2 by lia.
    apply (Hpair _ _ _ H1 H2 H3). apply Hnone. lia. }
  induction fuel as [|fuel IH]; intros pos out H; [discriminate|].
  cbn [sub_loop] in H.
  destruct (search (plain_re mark) text pos) as [m|] eqn:Es.
  - destruct (script_digits base m) as [rep|] eqn:Er; [|discriminate].
    destruct (sub_loop fuel (plain_re mark) (script_digits base) text (m_end m))
      as [rest|] eqn:El; [|discriminate].
    injection H as <-.
    destruct (script_digits_apart base mark text pos m rep Hb Es Er)
      as (Hne & Hrep).
    assert (Hrest : has_pair caret_digit (rep ++ rest) = false).
    { rewrite has_pair_after; [now apply (IH (m_end m))|].
      intros a b Ha. destruct (Hrep a Ha) as (Hc & _).
      unfold caret_digit. destruct (Z.eqb_spec a 94); [contradiction|].
      reflexivity. }
    destruct rep as [|c rep]; [now elim Hne|].
    apply has_pair_before; try assumption.
    + intros a. destruct (Hrep c (or_introl eq_refl)) as (_ & Hd).
      unfold caret_digit. now rewrite Hd, andb_false_r.
    + apply Hslice. apply search_some in Es as (_ & _ & Hnone). exact Hnone.
  - injection H as <-.
    replace (skipn pos text) with (slice text pos (length text)).
    + apply Hslice. intros i Hi. rewrite search_none in Es. apply Es. lia.
    + unfold slice. apply firstn_all2. rewrite length_skipn. lia.
Qed.

Lemma caret_digit_matches (text : str) (i : nat) (a b : char) :
  nth_error text i = Some a -> nth_error text (S i) = Some b ->
  caret_digit a b = true ->
  match_at (plain_re "^") text i <> None.
Proof.
  intros H1 H2 H3. unfold caret_digit in H3.
  apply andb_true_iff in H3 as (Ha & Hd). apply Z.eqb_eq in Ha. subst a.
  rewrite match_at_none.
  assert (Hs : exists rest, skipn i text = 94 :: b :: rest).
  { rewrite <- (firstn_skipn i text) in H1, H2.
    assert (Hlen : length (firstn i text) = i).
    { apply firstn_length_le.
      assert (Hlt : nth_error text i <> None).
      { rewrite <- (firstn_skipn i text). rewrite H1. discriminate. }
      apply nth_error_Some in Hlt. lia. }
    rewrite nth_error_app2 in H1, H2 by lia.
    rewrite Hlen in H1, H2. rewrite Nat.sub_diag in H1.
    replace (S i - i)%nat with 1%nat in H2 by lia.
    destruct (skipn i text) as [|x [|y rest]]; try discriminate.
    injection H1 as ->. injection H2 as ->. now exists rest. }
  destruct Hs as [rest Hs]. rewrite Hs.
  intros E.
  assert (Hin : In (2%nat, [[b]])
                   (runs (plain_re "^") (last_char None text i)
                         (94 :: b :: rest))).
  { unfold plain_re. apply in_runs_cat.
    exists 1%nat, [], 1%nat, [[b]]. split; [|split; [|split; reflexivity]].
    - apply in_runs_str. split; [reflexivity|]. split; reflexivity.
    - cbn [skipn last_char nth_error]. apply in_runs_cat.
      exists 0%nat, [], 1%nat, [[b]]. split; [|split; [|split; reflexivity]].
      + apply in_runs_star. split; [lia | reflexivity].
      + cbn [skipn]. apply in_runs_group. exists []. split; [|reflexivity].
        apply in_runs_plus. split; [|reflexivity].
        cbn [prefix_len]. rewrite Hd. lia. }
  rewrite E in Hin. destruct Hin.
Qed.

Lemma replace_loop_no_pair (new : str) (d : char) :
  isdecimal d = true ->
  forall fuel text, has_pair caret_digit text = false ->
                    replace_loop fuel [94; d] new text = text.
Proof.
  intros Hd. induction fuel as [|fuel IH]; intros text H; [reflexivity|].
  cbn [replace_loop].
  destruct text as [|a text]; [reflexivity|].
  assert (Htail : has_pair caret_digit text = false).
  { destruct text as [|b t]; [reflexivity|]. cbn [has_pair] in H.
    now apply orb_false_iff in H as (_ & H). }
  destruct (is_prefix [94; d] (a :: text)) eqn:E.
  - exfalso. destruct text as [|b t]; cbn [is_prefix] in E.
    + now rewrite andb_false_r in E.
    + apply andb_true_iff in E as (Ea & E).
      apply andb_true_iff in E as (Eb & _).
      apply Z.eqb_eq in Ea, Eb. subst a b.
      cbn [has_pair] in H. unfold caret_digit in H at 1.
      rewrite Hd in H. discriminate H.
  - now rewrite IH.
Qed.

(** X6: for every fragment, the literal replacements of ["^2"] and ["^3"]
    at the end of [unicode_replace] change nothing: the rule for unbraced
    digits runs first and leaves no caret with a digit after it, and the
    rule for subscripts cannot bring one back.  The precomposed glyphs for
    squares and cubes are therefore never produced; only the replacement of
    ["^-1"] can still apply. *)
Theorem X6_square_and_cube_rules_never_apply (latex : str) :
  (exists r, before_powers latex = Some r /\
             has_pair caret_digit r = false /\
             replace (lit "^2") [0x00B2] r = r /\
             replace (lit "^3") [0x00B3] r = r /\
             unicode_replace latex
             = Some (replace (lit "^-1") [0x207B; 0x00B9] r)) /\
  unicode_replace (lit "x^2") = Some (lit "x" ++ [0x2072]).
Proof.
  split; [|vm_compute; reflexivity].
  destruct (unicode_replace_total latex) as [out Hout].
  unfold unicode_replace in Hout |- *. unfold before_powers.
  destruct (sub_table greek (strip_chars (lit " {}") latex)) as [r1|];
    [|discriminate].
  destruct (sub_table symbols r1) as [r2|]; [|discriminate].
  destruct (re_sub frac_re _ r2) as [r3|]; [|discriminate].
  destruct (re_sub (braced_re "^") superscript_digits r3) as [r4|];
    [|discriminate].
  destruct (re_sub (braced_re "_") subscript_digits r4) as [r5|];
    [|discriminate].
  destruct (re_sub (plain_re "^") superscript_digits r5) as [r6|] eqn:E6;
    [|discriminate].
  destruct (re_sub (plain_re "_") subscript_digits r6) as [r7|] eqn:E7;
    [|discriminate].
  assert (H6 : has_pair caret_digit r6 = false).
  { apply (digit_pass_no_pair 0x2070 "^" r5 (or_introl eq_refl)
             (caret_digit_matches r5) _ _ _ E6). }
  assert (H7 : has_pair caret_digit r7 = false).
  { apply (digit_pass_no_pair 0x2080 "_" r6 (or_intror eq_refl)) with
      (fuel := S (length r6)) (pos := O); [|exact E7].
    intros i a b H1 H2 H3. exfalso.
    rewrite (has_pair_of_nth caret_digit r6 i a b H1 H2 H3) in H6.
    discriminate. }
  assert (R2 : replace (lit "^2") [0x00B2] r7 = r7)
    by (apply (replace_loop_no_pair _ 50 eq_refl); exact H7).
  assert (R3 : replace (lit "^3") [0x00B3] r7 = r7)
    by (apply (replace_loop_no_pair _ 51 eq_refl); exact H7).
  exists r7. repeat (split; [assumption || reflexivity|]).
  unfold replace in R2, R3 |- *. congruence.
Qed.

(** ** The literal rule for [^-1] *)

Lemma mem_skipn (c : char) : forall (n : nat) (s : str),
  mem c s = false -> mem c (skipn n s) = false.
Proof.
  induction n as [|n IH]; intros s H; [exact H|].
  destruct s as [|a s]; [reflexivity|]. simpl in H.
  apply orb_false_iff in H as (_ & H). now apply IH.
Qed.

(** [replace] on a text where the first character of [old] occurs once. *)
Lemma replace_one_mark (mk : char) (old' new rest : str) :
  mem mk rest = false ->
  forall (pre : str) (fuel : nat),
    mem mk pre = false -> (length pre < fuel)%nat ->
    replace_loop fuel (mk :: old') new (pre ++ mk :: rest)
    = pre ++ (if is_prefix old' rest
              then new ++ skipn (length old') rest
              else mk :: rest).
Proof.
  intros Hrest. induction pre as [|a pre IH]; intros fuel Hpre Hfuel;
    (destruct fuel as [|fuel]; [simpl in Hfuel; lia|]).
  - cbn [app replace_loop is_prefix]. rewrite Z.eqb_refl. cbn [andb].
    destruct (is_prefix old' rest).
    + cbn [length skipn].
      now rewrite (replace_loop_absent (mk :: old') new mk eq_refl fuel _
                     (mem_skipn mk (length old') rest Hrest)).
    + now rewrite (replace_loop_absent (mk :: old') new mk eq_refl fuel _
                     Hrest).
  - simpl in Hpre. apply orb_false_iff in Hpre as (Ha & Hpre).
    cbn [app replace_loop is_prefix]. rewrite Ha. cbn [andb].
    rewrite IH; [reflexivity | assumption | simpl in Hfuel; lia].
Qed.

(** Neither digit rule matches at a mark followed by a minus sign. *)
Lemma digit_rules_miss_minus (mark : string) (mk : char) prev (rest : str) :
  lit mark = [mk] ->
  runs (braced_re mark) prev (mk :: 45 :: rest) = [] /\
  runs (plain_re mark) prev (mk :: 45 :: rest) = [].
Proof.
  intros Hmark. split.
  - destruct (runs (braced_re mark) prev (mk :: 45 :: rest))
      as [|[n gs] l] eqn:E; [reflexivity|]. exfalso.
    assert (Hin : In (n, gs) (runs (braced_re mark) prev (mk :: 45 :: rest)))
      by (rewrite E; now left).
    apply runs_shape in Hin. unfold braced_re in Hin. rewrite Hmark in Hin.
    shape_inv Hin. clear Hin Hs2 Hs3 Hs4.
    destruct Hs as (-> & _). destruct Hs0 as (Hsp & _).
    destruct Hs1 as (-> & _).
    pose proof (firstn_skipn n (mk :: 45 :: rest)) as Hsplit.
    rewrite Hw in Hsplit. subst w0 w2. simpl in Hsplit.
    injection Hsplit as Hsplit. rewrite <- !app_assoc in Hsplit.
    simpl in Hsplit. symmetry in Hsplit.
    apply (after_spaces 0) in Hsplit; [discriminate | assumption | |];
      discriminate.
  - destruct (runs (plain_re mark) prev (mk :: 45 :: rest))
      as [|[n gs] l] eqn:E; [reflexivity|]. exfalso.
    assert (Hin : In (n, gs) (runs (plain_re mark) prev (mk :: 45 :: rest)))
      by (rewrite E; now left).
    apply runs_shape in Hin. unfold plain_re in Hin. rewrite Hmark in Hin.
    shape_inv Hin.
    destruct Hs as (-> & _). destruct Hs0 as (Hsp & _).
    destruct Hin as (gs' & (Hd & Hne & _) & _).
    pose proof (firstn_skipn n (mk :: 45 :: rest)) as Hsplit.
    rewrite Hw in Hsplit. subst w0. simpl in Hsplit.
    injection Hsplit as Hsplit. rewrite <- !app_assoc in Hsplit.
    destruct w2 as [|d w2]; [now elim Hne|].
    cbn [forallb] in Hd. apply andb_true_iff in Hd as (Hd & _).
    symmetry in Hsplit. change (45 :: rest) with (repeat SPACE 0 ++ 45 :: rest)
      in Hsplit.
    apply after_spaces in Hsplit;
      [|assumption|discriminate|now apply decimal_not_special in Hd].
    subst d. vm_compute in Hd. discriminate.
Qed.

(** X7: a caret followed by ["-1"], between stretches of text the rules
    have nothing for, becomes the two code points of the superscript minus
    one; the digit rules do not match at the minus sign and the two
    replacements before this one find nothing. *)
Theorem X7_inverse_power (pre post : str) :
  forallb inert pre = true ->
  forallb inert post = true ->
  unicode_replace (pre ++ lit "^-1" ++ post)
  = Some (pre ++ [0x207B; 0x00B9] ++ post).
Proof.
  intros Hpre Hpost.
  assert (Hfree : forall c s, inert c = false -> forallb inert s = true ->
                              mem c s = false)
    by (intros c s Hc Hs; now apply (mem_false_forallb c inert)).
  set (rest := @cons char 45 (@cons char 49 post)).
  assert (Htext : pre ++ lit "^-1" ++ post = pre ++ @cons char 94 rest)
    by reflexivity.
  assert (Hmem : forall c, inert c = false -> c <> 94 ->
                           mem c (pre ++ @cons char 94 rest) = false).
  { intros c Hc Hne. unfold rest.
    rewrite mem_app, !mem_cons, (Hfree c pre Hc Hpre), (Hfree c post Hc Hpost).
    destruct (Z.eqb_spec c 94); [contradiction|].
    destruct (Z.eqb_spec c 45) as [->|]; [discriminate Hc|].
    destruct (Z.eqb_spec c 49) as [->|]; [discriminate Hc|]. reflexivity. }
  assert (HCpre : mem 94 pre = false) by now apply Hfree.
  assert (HCrest : mem 94 rest = false)
    by (unfold rest; rewrite !mem_cons, (Hfree 94 post eq_refl Hpost);
        reflexivity).
  assert (Hstrip : strip_chars (lit " {}") (pre ++ @cons char 94 rest)
                   = pre ++ @cons char 94 rest).
  { apply strip_chars_outside. unfold rest. rewrite forallb_app.
    cbn [forallb].
    now rewrite (inert_not_stripped pre Hpre), (inert_not_stripped post Hpost). }
  pose proof (Hmem 92 eq_refl ltac:(discriminate)) as HB.
  pose proof (Hmem 95 eq_refl ltac:(discriminate)) as HU.
  rewrite Htext, unicode_replace_tables, Hstrip.
  rewrite (sub_table_absent 92 glyphs (keys_first_char 92 glyphs eq_refl) _ HB).
  unfold after_tables.
  rewrite (re_sub_absent frac_re _ 92 _ eq_refl HB).
  rewrite (re_sub_no_match (braced_re "^") superscript_digits _
             (search_one_mark_none (braced_re "^") 94 pre rest O eq_refl
                HCpre HCrest
                (fun prev => proj1 (digit_rules_miss_minus "^" 94 prev
                                      (49 :: post) eq_refl)))).
  rewrite (re_sub_absent (braced_re "_") _ 95 _ eq_refl HU).
  rewrite (re_sub_no_match (plain_re "^") superscript_digits _
             (search_one_mark_none (plain_re "^") 94 pre rest O eq_refl
                HCpre HCrest
                (fun prev => proj2 (digit_rules_miss_minus "^" 94 prev
                                      (49 :: post) eq_refl)))).
  rewrite (re_sub_absent (plain_re "_") _ 95 _ eq_refl HU).
  unfold replace.
  rewrite (replace_one_mark 94 (lit "2") [0x00B2] rest HCrest pre _ HCpre)
    by (rewrite length_app; simpl; lia).
  change (is_prefix (lit "2") rest) with false. cbv iota.
  rewrite (replace_one_mark 94 (lit "3") [0x00B3] rest HCrest pre _ HCpre)
    by (rewrite length_app; simpl; lia).
  change (is_prefix (lit "3") rest) with false. cbv iota.
  rewrite (replace_one_mark 94 (lit "-1") [0x207B; 0x00B9] rest HCrest pre _
             HCpre) by (rewrite length_app; simpl; lia).
  reflexivity.
Qed.

(** X7 on ["x^-1y"]. *)
Lemma X7_inverse_power_witness :
  unicode_replace (lit "x" ++ lit "^-1" ++ lit "y")
  = Some (lit "x" ++ [0x207B; 0x00B9] ++ lit "y").
Proof. apply (X7_inverse_power (lit "x") (lit "y")); reflexivity. Defined.

(** * The conversation with the model *)

Lemma eqb_str_eq (a b : str) : eqb_str a b = true <-> a = b.
Proof.
  revert b. induction a as [|x a IH]; intros [|y b]; simpl;
    try (split; [discriminate | congruence]); try tauto.
  rewrite andb_true_iff, Z.eqb_eq, IH. split.
  - intros [-> ->]. reflexivity.
  - intros H. injection H as -> ->. split; reflexivity.
Qed.

Lemma eqb_str_refl (a : str) : eqb_str a a = true.
Proof. apply eqb_str_eq. reflexivity. Qed.

Lemma eqb_str_neq (a b : str) : a <> b -> eqb_str a b = false.
Proof.
  intros H. destruct (eqb_str a b) eqn:E; [|reflexivity].
  apply eqb_str_eq in E. contradiction.
Qed.

(** The loop on a line that carries a payload. *)
Lemma stream_loop_data json_loads payload rest full :
  Chat.stream_loop json_loads (data_line payload :: rest) full =
  if eqb_str payload (lit "[DONE]") then Ok full
  else match json_loads payload with
       | Raise JSONDecodeError => Chat.stream_loop json_loads rest full
       | Raise e => Raise e
       | Ok chunk =>
           match Chat.chunk_content chunk with
           | Raise e => Raise e
           | Ok None => Chat.stream_loop json_loads rest full
           | Ok (Some content) =>
               Chat.stream_loop json_loads rest (full ++ content)
           end
       end.
Proof. reflexivity. Qed.

(** What follows a prefix of the stream only matters through the loop it
    gives. *)
Lemma stream_loop_app json_loads (l1 l2 : list Chat.event) :
  (forall full, Chat.stream_loop json_loads l1 full
                = Chat.stream_loop json_loads l2 full) ->
  forall a full, Chat.stream_loop json_loads (a ++ l1) full
                 = Chat.stream_loop json_loads (a ++ l2) full.
Proof.
  intros H a. induction a as [|ev a IH]; intros full; [apply H|].
  destruct ev as [[line|]|e]; [|reflexivity|reflexivity].
  destruct line as [|c line]; [apply IH|].
  change ((Chat.Line (Some (c :: line)) :: a) ++ l1)
    with (Chat.Line (Some (c :: line)) :: (a ++ l1)).
  change ((Chat.Line (Some (c :: line)) :: a) ++ l2)
    with (Chat.Line (Some (c :: line)) :: (a ++ l2)).
  cbn [Chat.stream_loop].
  destruct (is_prefix (lit "data: ") (c :: line)); [|apply IH].
  destruct (eqb_str _ _); [reflexivity|].
  destruct (json_loads _) as [chunk|e]; [|destruct e; auto].
  destruct (Chat.chunk_content chunk) as [[content|]|e]; auto.
Qed.

Lemma chunk_content_delta chunk s :
  delta_text chunk = Some s ->
  Chat.chunk_content chunk = Ok (match s with [] => None | _ => Some s end).
Proof.
  unfold delta_text, Chat.chunk_content.
  destruct chunk as [| | | | |l|d]; try discriminate.
  cbn [contains getitem].
  destruct (lookup (lit "choices") d) as [[| | | | |l|]|]; try discriminate.
  destruct l as [|[| | | | | |first] l]; try discriminate.
  cbn [len_value length Nat.ltb Nat.leb getitem0 get].
  destruct (lookup (lit "delta") first) as [[| | | | | |delta]|];
    try discriminate.
  cbn [get].
  destruct (lookup (lit "content") delta) as [[| | | |s'| |]|];
    try discriminate.
  intros [= ->]. destruct s; reflexivity.
Qed.

Lemma chunk_content_scalar chunk :
  scalar chunk = true -> Chat.chunk_content chunk = Raise TypeError.
Proof. destruct chunk; try discriminate; reflexivity. Qed.

Lemma stream_loop_carries json_loads items :
  Forall (carries json_loads) items ->
  forall tail full,
    Chat.stream_loop json_loads (map (fun i => data_line (fst i)) items ++ tail)
      full
    = Chat.stream_loop json_loads tail (full ++ concat (map snd items)).
Proof.
  induction 1 as [|[p s] items [Hp [chunk [Hl Hd]]] _ IH]; intros tail full.
  - simpl. rewrite app_nil_r. reflexivity.
  - cbn [map fst snd concat]. simpl in Hp, Hl, Hd.
    change ((data_line p :: map (fun i => data_line (fst i)) items) ++ tail)
      with (data_line p :: (map (fun i => data_line (fst i)) items ++ tail)).
    rewrite stream_loop_data, (eqb_str_neq _ _ Hp), Hl,
      (chunk_content_delta _ _ Hd).
    destruct s as [|c s].
    + rewrite IH. reflexivity.
    + rewrite IH, app_assoc. reflexivity.
Qed.

Lemma stream_loop_skipped json_loads ev rest full :
  skipped json_loads ev ->
  Chat.stream_loop json_loads (ev :: rest) full
  = Chat.stream_loop json_loads rest full.
Proof.
  intros [line H|p Hp Hl|p d Hp Hl Hc|p d Hp Hl Hc].
  - destruct line as [|c line]; [reflexivity|].
    cbn [Chat.stream_loop]. rewrite H. reflexivity.
  - rewrite stream_loop_data, (eqb_str_neq _ _ Hp), Hl. reflexivity.
  - rewrite stream_loop_data, (eqb_str_neq _ _ Hp), Hl.
    unfold Chat.chunk_content. cbn [contains]. rewrite Hc. reflexivity.
  - rewrite stream_loop_data, (eqb_str_neq _ _ Hp), Hl.
    unfold Chat.chunk_content. cbn [contains getitem]. rewrite Hc.
    reflexivity.
Qed.

Lemma stream_loop_aborts json_loads ev e rest full :
  aborts json_loads ev e ->
  Chat.stream_loop json_loads (ev :: rest) full = Raise e.
Proof.
  intros [e'| |p e' Hp Hl He|p chunk Hp Hl Hs]; [reflexivity|reflexivity| |].
  - rewrite stream_loop_data, (eqb_str_neq _ _ Hp), Hl.
    destruct e'; try reflexivity. contradiction.
  - rewrite stream_loop_data, (eqb_str_neq _ _ Hp), Hl,
      (chunk_content_scalar _ Hs). reflexivity.
Qed.

(** What [send_message] does with the outcome of the streamed request. *)
Lemma send_message_stream json_loads post describe cwd listdir c message :
  Chat.send_message json_loads post describe cwd listdir c message true =
  let c1 := Chat.set_history c
              (Chat.conversation_history c ++ [user_says message]) in
  match post (request_of describe cwd listdir c message true) with
  | Raise e => (error_reply describe e, c1)
  | Ok response =>
      match Chat.resp_status response with
      | Some e => (error_reply describe e, c1)
      | None =>
          match Chat.stream_loop json_loads (Chat.resp_lines response) [] with
          | Raise e => (error_reply describe e, c1)
          | Ok full =>
              (JStr full,
               Chat.set_history c
                 (Chat.conversation_history c
                  ++ [user_says message; assistant_says (JStr full)]))
          end
      end
  end.
Proof.
  unfold Chat.send_message, Chat._stream_response, request_of.
  cbn [Chat.api_key Chat.model Chat.conversation_history Chat.set_history].
  destruct (post _) as [response|e]; [|reflexivity].
  destruct (Chat.resp_status response); [reflexivity|].
  destruct (Chat.stream_loop _ _ _); [|reflexivity].
  cbn [fst snd]. unfold Chat.set_history.
  cbn [Chat.api_key Chat.model Chat.conversation_history].
  rewrite <- app_assoc. reflexivity.
Qed.

(** X8. Whatever the server does, [send_message] changes neither the key nor
    the model of the client, and the history grows at its end only: by the
    user's message and the reply returned, or, when the reply is the text of
    an error, by the user's message alone, which then stays in the history
    without an answer. *)
Theorem X8_history_after_send json_loads post describe cwd listdir c message
  stream :
  let r := Chat.send_message json_loads post describe cwd listdir c message
             stream in
  Chat.api_key (snd r) = Chat.api_key c
  /\ Chat.model (snd r) = Chat.model c
  /\ ((exists e, fst r = error_reply describe e
                 /\ Chat.conversation_history (snd r)
                    = Chat.conversation_history c ++ [user_says message])
      \/ Chat.conversation_history (snd r)
         = Chat.conversation_history c
           ++ [user_says message; assistant_says (fst r)]).
Proof.
  destruct stream.
  - cbv zeta. rewrite send_message_stream. cbv zeta.
    destruct (post _) as [response|e];
      [|split; [reflexivity|split; [reflexivity|left; exists e; split; reflexivity]]].
    destruct (Chat.resp_status response) as [e|];
      [split; [reflexivity|split; [reflexivity|left; exists e; split; reflexivity]]|].
    destruct (Chat.stream_loop _ _ _) as [full|e];
      [|split; [reflexivity|split; [reflexivity|left; exists e; split; reflexivity]]].
    split; [reflexivity|split; [reflexivity|right; reflexivity]].
  - cbv zeta. unfold Chat.send_message.
    cbn [Chat.api_key Chat.model Chat.conversation_history Chat.set_history].
    destruct (post _) as [response|e];
      [|split; [reflexivity|split; [reflexivity|left; exists e; split; reflexivity]]].
    destruct (Chat.resp_status response) as [e|];
      [split; [reflexivity|split; [reflexivity|left; exists e; split; reflexivity]]|].
    destruct (Chat.resp_json response) as [result|e];
      [|split; [reflexivity|split; [reflexivity|left; exists e; split; reflexivity]]].
    destruct (getitem result _) as [choices|e];
      [|split; [reflexivity|split; [reflexivity|left; exists e; split; reflexivity]]].
    destruct (getitem0 choices) as [first|e];
      [|split; [reflexivity|split; [reflexivity|left; exists e; split; reflexivity]]].
    destruct (getitem first _) as [msg|e];
      [|split; [reflexivity|split; [reflexivity|left; exists e; split; reflexivity]]].
    destruct (getitem msg _) as [reply|e];
      [|split; [reflexivity|split; [reflexivity|left; exists e; split; reflexivity]]].
    split; [reflexivity|split; [reflexivity|right]].
    cbn [fst snd Chat.conversation_history]. rewrite <- app_assoc. reflexivity.
Qed.

(** X9. The line [data: [DONE]] ends the stream: whatever comes after it,
    further text, undecodable bytes or a failure of the connection, has no
    effect, and the loop gives what it gives on the lines before it. *)
Theorem X9_done_ends_the_stream json_loads a b full :
  Chat.stream_loop json_loads (a ++ done_line :: b) full
  = Chat.stream_loop json_loads a full.
Proof.
  rewrite <- (app_nil_r a) at 2.
  apply stream_loop_app. intros full'. reflexivity.
Qed.

(** X10. A line without the [data: ] prefix (an empty line, a comment,
    another field of the event stream), a payload that the parser rejects
    with [JSONDecodeError], and an object without [choices] or with no
    choice, such as the report of an error, are passed over in silence
    wherever they stand: the loop gives what it gives on the stream without
    that line.  (A payload on which the parser raises another exception,
    as [RecursionError] on deep nesting, is not passed over: see X12.) *)
Theorem X10_skipped_lines_leave_no_trace json_loads a ev b full :
  skipped json_loads ev ->
  Chat.stream_loop json_loads (a ++ ev :: b) full
  = Chat.stream_loop json_loads (a ++ b) full.
Proof.
  intros H. apply stream_loop_app. intros full'.
  apply stream_loop_skipped, H.
Qed.

Lemma X10_skipped_lines_leave_no_trace_witness :
  skipped sample_loads (data_line (lit "not json"))
  /\ Chat.stream_loop sample_loads
       ([data_line (lit "{a}")] ++ data_line (lit "not json")
        :: [data_line (lit "{b}")]) []
     = Ok (lit "Hello").
Proof.
  assert (H : skipped sample_loads (data_line (lit "not json"))).
  { apply skipped_invalid; [discriminate | reflexivity]. }
  split; [exact H|].
  rewrite (X10_skipped_lines_leave_no_trace sample_loads
             [data_line (lit "{a}")] (data_line (lit "not json"))
             [data_line (lit "{b}")] [] H).
  reflexivity.
Defined.

(** X11. When the request succeeds and the stream is made of chunks of the
    usual form, ended by [data: [DONE]] or by the end of the body, the reply
    of [send_message] is the concatenation of their texts in order, and the
    history gains the user's message and that reply. *)
Theorem X11_reply_is_the_concatenation json_loads post describe cwd listdir
  c message response items tail :
  post (request_of describe cwd listdir c message true) = Ok response ->
  Chat.resp_status response = None ->
  Chat.resp_lines response = map (fun i => data_line (fst i)) items ++ tail ->
  Forall (carries json_loads) items ->
  tail = [] \/ (exists b, tail = done_line :: b) ->
  Chat.send_message json_loads post describe cwd listdir c message true
  = (JStr (concat (map snd items)),
     Chat.set_history c
       (Chat.conversation_history c
        ++ [user_says message;
            assistant_says (JStr (concat (map snd items)))])).
Proof.
  intros Hpost Hstatus Hlines Hitems Htail.
  rewrite send_message_stream. cbv zeta.
  rewrite Hpost, Hstatus, Hlines, (stream_loop_carries _ _ Hitems).
  destruct Htail as [-> | [b ->]]; reflexivity.
Qed.

Lemma X11_reply_is_the_concatenation_witness :
  Chat.send_message sample_loads
    (fun _ => Ok (Chat.MkResponse None
                    [data_line (lit "{a}"); data_line (lit "{b}"); done_line]
                    (Raise JSONDecodeError)))
    (fun _ => []) (lit "/home") (Ok [])
    (Chat.MkClient (lit "key") (lit "m") []) (lit "Hi") true
  = (JStr (lit "Hello"),
     Chat.MkClient (lit "key") (lit "m")
       [user_says (lit "Hi"); assistant_says (JStr (lit "Hello"))]).
Proof.
  refine (X11_reply_is_the_concatenation sample_loads
            (fun _ => Ok (Chat.MkResponse None
                            [data_line (lit "{a}"); data_line (lit "{b}");
                             done_line]
                            (Raise JSONDecodeError)))
            (fun _ => []) (lit "/home") (Ok [])
            (Chat.MkClient (lit "key") (lit "m") []) (lit "Hi")
            (Chat.MkResponse None
               [data_line (lit "{a}"); data_line (lit "{b}"); done_line]
               (Raise JSONDecodeError))
            [(lit "{a}", lit "Hel"); (lit "{b}", lit "lo")] [done_line]
            _ _ _ _ _).
  - reflexivity.
  - reflexivity.
  - reflexivity.
  - repeat constructor; try discriminate; eexists; split; reflexivity.
  - right. exists []. reflexivity.
Defined.

(** X12. When the stream fails after some text has arrived, through a
    failure of the connection, bytes that are not UTF-8, a payload on which
    the parser raises anything but [JSONDecodeError], or a payload that is
    [null], a boolean or a number, the text received so far is lost:
    [send_message] returns the text of the error, and the history gains the
    user's message only. *)
Theorem X12_failure_loses_partial_reply json_loads post describe cwd listdir
  c message response items ev b e :
  post (request_of describe cwd listdir c message true) = Ok response ->
  Chat.resp_status response = None ->
  Chat.resp_lines response
  = map (fun i => data_line (fst i)) items ++ ev :: b ->
  Forall (carries json_loads) items ->
  aborts json_loads ev e ->
  Chat.send_message json_loads post describe cwd listdir c message true
  = (error_reply describe e,
     Chat.set_history c
       (Chat.conversation_history c ++ [user_says message])).
Proof.
  intros Hpost Hstatus Hlines Hitems Hev.
  rewrite send_message_stream. cbv zeta.
  rewrite Hpost, Hstatus, Hlines, (stream_loop_carries _ _ Hitems),
    (stream_loop_aborts _ _ _ _ _ Hev).
  reflexivity.
Qed.

Lemma X12_failure_loses_partial_reply_witness :
  Chat.send_message sample_loads
    (fun _ => Ok (Chat.MkResponse None
                    [data_line (lit "{a}"); data_line (lit "null");
                     data_line (lit "{b}"); done_line]
                    (Raise JSONDecodeError)))
    (fun _ => lit "boom") (lit "/home") (Ok [])
    (Chat.MkClient (lit "key") (lit "m") []) (lit "Hi") true
  = (JStr (lit "Error communicating with AI: boom"),
     Chat.MkClient (lit "key") (lit "m") [user_says (lit "Hi")]).
Proof.
  refine (X12_failure_loses_partial_reply sample_loads
            (fun _ => Ok (Chat.MkResponse None
                            [data_line (lit "{a}"); data_line (lit "null");
                             data_line (lit "{b}"); done_line]
                            (Raise JSONDecodeError)))
            (fun _ => lit "boom") (lit "/home") (Ok [])
            (Chat.MkClient (lit "key") (lit "m") []) (lit "Hi")
            (Chat.MkResponse None
               [data_line (lit "{a}"); data_line (lit "null");
                data_line (lit "{b}"); done_line]
               (Raise JSONDecodeError))
            [(lit "{a}", lit "Hel")] (data_line (lit "null"))
            [data_line (lit "{b}"); done_line] TypeError _ _ _ _ _).
  - reflexivity.
  - reflexivity.
  - reflexivity.
  - repeat constructor; try discriminate; eexists; split; reflexivity.
  - apply aborts_scalar with (chunk := JNull);
      [discriminate | reflexivity | reflexivity].
Defined.

(** * The configuration file *)

Lemma lookup_dict_set_same k v d : lookup k (dict_set k v d) = Some v.
Proof.
  induction d as [|[k' v'] d IH]; simpl.
  - rewrite eqb_str_refl. reflexivity.
  - destruct (eqb_str k' k) eqn:E; simpl; rewrite E; [reflexivity|exact IH].
Qed.

Lemma lookup_dict_set_other k k' v d :
  k' <> k -> lookup k' (dict_set k v d) = lookup k' d.
Proof.
  intros Hk. induction d as [|[k0 v0] d IH]; simpl.
  - rewrite eqb_str_neq by congruence. reflexivity.
  - destruct (eqb_str k0 k) eqn:E; simpl.
    + apply eqb_str_eq in E. subst k0.
      rewrite eqb_str_neq by congruence. reflexivity.
    + rewrite IH. reflexivity.
Qed.

Lemma keys_dict_set k v d :
  map fst (dict_set k v d)
  = match lookup k d with
    | Some _ => map fst d
    | None => map fst d ++ [k]
    end.
Proof.
  induction d as [|[k0 v0] d IH]; simpl; [reflexivity|].
  destruct (eqb_str k0 k) eqn:E; simpl; [reflexivity|].
  rewrite IH. destruct (lookup k d); reflexivity.
Qed.

(** X13. On a missing configuration file or on one that holds an object:
    when the file system takes the write, [Config.set_api_key] returns and
    [Config.get_api_key] then gives the key that was saved, whatever the
    environment variable is; except that an empty key, though saved, is not
    returned: the environment variable is, or [None] where there is none.
    When creating the directory or opening the file raises,
    [Config.set_api_key] raises and the file is as it was.  When the write
    fails once the file is open, [Config.set_api_key] raises and the file
    is left unreadable, so that [Config.get_api_key] raises too. *)
Theorem X13_saved_key_is_read_back f api_key env :
  f = Config.Absent \/ (exists d, f = Config.Holds (JDict d)) ->
  (exists f',
     Config.set_api_key Config.Writable f api_key = (f', None)
     /\ Config.get_api_key f' env
        = Ok (match api_key with
              | [] => env_value env
              | _ :: _ => JStr api_key
              end))
  /\ (forall e,
        Config.set_api_key (Config.Refuses e) f api_key = (f, Some e))
  /\ (forall e,
        exists f',
          Config.set_api_key (Config.Fails e) f api_key = (f', Some e)
          /\ Config.get_api_key f' env = Raise JSONDecodeError).
Proof.
  intros [-> | [d ->]].
  - split; [|split].
    + eexists. split; [reflexivity|]. destruct api_key; reflexivity.
    + reflexivity.
    + intros e. eexists. split; reflexivity.
  - split; [|split].
    + eexists. split; [reflexivity|].
      unfold Config.get_api_key, Config.load. cbn [get].
      rewrite lookup_dict_set_same. destruct api_key; reflexivity.
    + reflexivity.
    + intros e. eexists. split; reflexivity.
Qed.

Lemma X13_saved_key_is_read_back_witness :
  (exists f',
     Config.set_api_key Config.Writable
       (Config.Holds (JDict [(lit "model", JStr (lit "m"))])) (lit "sk-1")
     = (f', None)
     /\ Config.get_api_key f' (Some (lit "sk-env")) = Ok (JStr (lit "sk-1")))
  /\ (forall e,
        Config.set_api_key (Config.Refuses e)
          (Config.Holds (JDict [(lit "model", JStr (lit "m"))])) (lit "sk-1")
        = (Config.Holds (JDict [(lit "model", JStr (lit "m"))]), Some e))
  /\ (forall e,
        exists f',
          Config.set_api_key (Config.Fails e)
            (Config.Holds (JDict [(lit "model", JStr (lit "m"))]))
            (lit "sk-1")
          = (f', Some e)
          /\ Config.get_api_key f' (Some (lit "sk-env"))
             = Raise JSONDecodeError).
Proof.
  apply (X13_saved_key_is_read_back
           (Config.Holds (JDict [(lit "model", JStr (lit "m"))]))
           (lit "sk-1") (Some (lit "sk-env"))).
  right. eexists. reflexivity.
Defined.

(** X14. When the file system takes the write, [Config.set_api_key] keeps
    every other setting of the file: each key other than [api_key] has the
    value it had, and the keys stay in their order, with [api_key] added at
    the end when it was not there.  When creating the directory or opening
    the file raises, the file and its settings are as they were. *)
Theorem X14_other_settings_are_kept d api_key key :
  key <> lit "api_key" ->
  (exists d',
     Config.set_api_key Config.Writable (Config.Holds (JDict d)) api_key
     = (Config.Holds (JDict d'), None)
     /\ lookup key d' = lookup key d
     /\ map fst d' = match lookup (lit "api_key") d with
                     | Some _ => map fst d
                     | None => map fst d ++ [lit "api_key"]
                     end)
  /\ (forall e,
        Config.set_api_key (Config.Refuses e) (Config.Holds (JDict d)) api_key
        = (Config.Holds (JDict d), Some e)).
Proof.
  intros Hkey. split; [|reflexivity].
  eexists. split; [reflexivity|]. split.
  - apply lookup_dict_set_other, Hkey.
  - apply keys_dict_set.
Qed.

Lemma X14_other_settings_are_kept_witness :
  (exists d',
     Config.set_api_key Config.Writable
       (Config.Holds (JDict [(lit "model", JStr (lit "m"))])) (lit "sk-1")
     = (Config.Holds (JDict d'), None)
     /\ lookup (lit "model") d' = Some (JStr (lit "m"))
     /\ map fst d' = [lit "model"; lit "api_key"])
  /\ (forall e,
        Config.set_api_key (Config.Refuses e)
          (Config.Holds (JDict [(lit "model", JStr (lit "m"))])) (lit "sk-1")
        = (Config.Holds (JDict [(lit "model", JStr (lit "m"))]), Some e)).
Proof.
  apply (X14_other_settings_are_kept [(lit "model", JStr (lit "m"))]
           (lit "sk-1") (lit "model")).
  discriminate.
Defined.

(** X15. A configuration file that cannot be read or parsed, or that holds
    a JSON value other than an object, makes both [Config.get_api_key] and
    [Config.set_api_key] raise: the environment variable is not consulted,
    and saving a new key does not replace the file, whatever the file
    system would do with a write. *)
Theorem X15_broken_config_is_not_bypassed v e api_key env d :
  is_dict v = false ->
  Config.get_api_key (Config.Unreadable e) env = Raise e
  /\ Config.set_api_key d (Config.Unreadable e) api_key
     = (Config.Unreadable e, Some e)
  /\ Config.get_api_key (Config.Holds v) env = Raise AttributeError
  /\ Config.set_api_key d (Config.Holds v) api_key
     = (Config.Holds v, Some TypeError).
Proof.
  intros Hv. destruct v; try discriminate; repeat split; reflexivity.
Qed.

Lemma X15_broken_config_is_not_bypassed_witness :
  Config.get_api_key (Config.Unreadable JSONDecodeError) (Some (lit "sk-env"))
  = Raise JSONDecodeError
  /\ Config.set_api_key Config.Writable (Config.Unreadable JSONDecodeError)
       (lit "sk-1")
     = (Config.Unreadable JSONDecodeError, Some JSONDecodeError)
  /\ Config.get_api_key (Config.Holds (JList [])) (Some (lit "sk-env"))
     = Raise AttributeError
  /\ Config.set_api_key Config.Writable (Config.Holds (JList [])) (lit "sk-1")
     = (Config.Holds (JList []), Some TypeError).
Proof.
  apply (X15_broken_config_is_not_bypassed (JList []) JSONDecodeError
           (lit "sk-1") (Some (lit "sk-env")) Config.Writable).
  reflexivity.
Defined.

(** * The interactive loop *)

Lemma lstrip_app_last (p : char -> bool) (l : str) (c : char) :
  p c = false -> lstrip p (l ++ [c]) <> [].
Proof.
  intros Hc. induction l as [|a l IH]; simpl.
  - rewrite Hc. discriminate.
  - destruct (p a); [exact IH | discriminate].
Qed.

(** A text that starts with a character that is not whitespace is not
    blank. *)
Lemma strip_hd_nonspace (c : char) (s : str) :
  isspace c = false -> strip (c :: s) <> [].
Proof.
  intros Hc. unfold strip. cbn [lstrip]. rewrite Hc.
  unfold rstrip. cbn [rev]. intros H.
  apply (f_equal (@rev char)) in H. rewrite rev_involutive in H.
  exact (lstrip_app_last isspace (rev s) c Hc H).
Qed.

Lemma split_once_word (word rest : str) :
  word <> [] ->
  forallb nonspace word = true ->
  starts_outside nonspace rest ->
  Shell.split_once (word ++ rest)
  = match lstrip isspace rest with
    | [] => [word]
    | d :: r => [word; d :: r]
    end.
Proof.
  intros Hne Hword Hrest. destruct word as [|c w]; [contradiction|].
  assert (Hc : isspace c = false).
  { simpl in Hword. apply andb_true_iff in Hword as [Hc _].
    unfold nonspace in Hc. now apply negb_true_iff in Hc. }
  unfold Shell.split_once.
  change ((c :: w) ++ rest) with (c :: (w ++ rest)) at 1.
  cbn [lstrip]. rewrite Hc.
  change (c :: (w ++ rest)) with ((c :: w) ++ rest).
  change (fun c0 : char => negb (isspace c0)) with nonspace.
  rewrite (prefix_len_run nonspace (c :: w) rest Hword Hrest).
  rewrite skipn_app, skipn_all, Nat.sub_diag, firstn_app, firstn_all,
    Nat.sub_diag.
  cbn [skipn firstn app]. rewrite app_nil_r.
  destruct (lstrip isspace rest); reflexivity.
Qed.

(** A line that starts with a slash and a word goes to [command] and is
    split at the end of the word. *)
Lemma on_line_command (world : Type) B markup_error json_loads post describe
  cwd listdir lower read_file write_file (st : Shell.state world) word rest :
  is_prefix (lit "/") word = true ->
  Shell.on_line world B markup_error json_loads post describe cwd listdir
    lower read_file write_file st (word ++ rest)
  = Shell.command world markup_error describe lower read_file st
      (word ++ rest).
Proof.
  intros Hw. destruct word as [|c w]; [discriminate|].
  change (lit "/") with [47] in Hw. cbn [is_prefix] in Hw.
  apply andb_true_iff in Hw as [Hc _]. apply Z.eqb_eq in Hc. subst c.
  unfold Shell.on_line.
  change ((47 :: w) ++ rest) with (47 :: (w ++ rest)).
  destruct (strip (47 :: w ++ rest)) eqn:E.
  - exfalso. exact (strip_hd_nonspace 47 (w ++ rest) eq_refl E).
  - reflexivity.
Qed.

(** The handler changes no variable of the loop. *)
Lemma handler_state (world : Type) markup_error describe
  (st : Shell.state world) shown e :
  fst (fst (Shell.handler world markup_error describe st shown e)) = st.
Proof. unfold Shell.handler. now destruct (rejected markup_error _). Qed.


(** What [/write] and a file name do: the write is pending before the
    announcement is printed. *)
Lemma command_write (world : Type) markup_error describe lower read_file
  (st : Shell.state world) c target :
  lower (lit "/write") = lit "/write" ->
  isspace c = false ->
  Shell.command world markup_error describe lower read_file st
    (lit "/write" ++ (32 :: c :: target))
  = if rejected markup_error (announcement (c :: target))
    then Shell.handler world markup_error describe
           (Shell.MkState (Shell.client st) (Some (c :: target))
              (Shell.files st)) [] MarkupError
    else (Shell.MkState (Shell.client st) (Some (c :: target))
            (Shell.files st),
          [Shell.say (announcement (c :: target))], Shell.Continue).
Proof.
  intros Hlower Hc. unfold Shell.command.
  rewrite split_once_word;
    [|discriminate|reflexivity|reflexivity].
  cbn [lstrip]. change (isspace 32) with true. cbv iota. rewrite Hc.
  cbv beta iota zeta. rewrite Hlower.
  change (eqb_str (lit "/write") (lit "/exit")) with false.
  change (eqb_str (lit "/write") (lit "/quit")) with false.
  change (eqb_str (lit "/write") (lit "/clear")) with false.
  change (eqb_str (lit "/write") (lit "/read")) with false.
  change (eqb_str (lit "/write") (lit "/write")) with true.
  reflexivity.
Qed.

(** X16. A line that starts with a slash is never sent to the model and
    never written to a file, whether a [/write] is pending or not: what
    the loop does with it does not depend on the server, on the parser, on
    the renderer or on [write_file]; the file system stays as it is, the key
    and the model of the client too, and the history is kept or emptied. *)
Theorem X16_commands_stay_local (world : Type) B B' markup_error json_loads
  json_loads' post post' describe cwd cwd' listdir listdir' lower read_file
  write_file write_file' (st : Shell.state world) user_input :
  is_prefix (lit "/") user_input = true ->
  let r := Shell.step world B markup_error json_loads post describe cwd
             listdir lower read_file write_file st
             (Shell.Typed user_input) in
  Shell.step world B' markup_error json_loads' post' describe cwd' listdir'
    lower read_file write_file' st (Shell.Typed user_input) = r
  /\ Shell.files (fst (fst r)) = Shell.files st
  /\ Chat.api_key (Shell.client (fst (fst r))) = Chat.api_key (Shell.client st)
  /\ Chat.model (Shell.client (fst (fst r))) = Chat.model (Shell.client st)
  /\ (Chat.conversation_history (Shell.client (fst (fst r)))
      = Chat.conversation_history (Shell.client st)
      \/ Chat.conversation_history (Shell.client (fst (fst r))) = []).
Proof.
  intros H. cbv zeta. cbn [Shell.step].
  rewrite <- (app_nil_r user_input).
  rewrite !on_line_command by exact H.
  split; [reflexivity|].
  unfold Shell.command.
  destruct (Shell.split_once (user_input ++ [])) as [|first rest'];
    [rewrite handler_state; repeat split; left; reflexivity|].
  destruct (eqb_str (lower first) (lit "/exit")
            || eqb_str (lower first) (lit "/quit"));
    [repeat split; left; reflexivity|].
  destruct (eqb_str (lower first) (lit "/clear"));
    [repeat split; right; reflexivity|].
  destruct (eqb_str (lower first) (lit "/read")
            && (1 <? length (first :: rest'))%nat).
  { cbv zeta. destruct (_ || _);
      [rewrite handler_state|]; repeat split; left; reflexivity. }
  destruct (eqb_str (lower first) (lit "/write")
            && (1 <? length (first :: rest'))%nat);
    [|repeat split; left; reflexivity].
  cbv zeta. destruct (rejected markup_error _);
    [rewrite handler_state|]; repeat split; left; reflexivity.
Qed.

Lemma X16_commands_stay_local_witness :
  let st := Shell.MkState
              (Chat.MkClient (lit "key") (lit "m") [user_says (lit "Hi")])
              (Some (lit "notes.txt")) [] in
  let r := Shell.step (list (str * str)) no_backends sample_console
             sample_loads (fun _ _ => Raise (Raised [])) (fun _ => [])
             (lit "/home") (fun _ => Ok []) sample_lower sample_read
             sample_write st (Shell.Typed (lit "/Clear now")) in
  Shell.step (list (str * str)) no_backends sample_console
    (fun _ => Raise JSONDecodeError)
    (fun _ _ => Ok (Chat.MkResponse None [] (Raise JSONDecodeError)))
    (fun _ => []) (lit "/tmp") (fun _ => Raise (Raised [])) sample_lower
    sample_read (fun w _ _ => ([], w)) st (Shell.Typed (lit "/Clear now"))
  = r
  /\ Shell.files (fst (fst r)) = Shell.files st
  /\ Chat.api_key (Shell.client (fst (fst r))) = Chat.api_key (Shell.client st)
  /\ Chat.model (Shell.client (fst (fst r))) = Chat.model (Shell.client st)
  /\ (Chat.conversation_history (Shell.client (fst (fst r)))
      = Chat.conversation_history (Shell.client st)
      \/ Chat.conversation_history (Shell.client (fst (fst r))) = []).
Proof.
  exact (X16_commands_stay_local (list (str * str))
           no_backends no_backends sample_console sample_loads
           (fun _ => Raise JSONDecodeError)
           (fun _ _ => Raise (Raised []))
           (fun _ _ => Ok (Chat.MkResponse None [] (Raise JSONDecodeError)))
           (fun _ => []) (lit "/home") (lit "/tmp")
           (fun _ => Ok []) (fun _ => Raise (Raised []))
           sample_lower sample_read sample_write (fun w _ _ => ([], w))
           (Shell.MkState
              (Chat.MkClient (lit "key") (lit "m") [user_says (lit "Hi")])
              (Some (lit "notes.txt")) [])
           (lit "/Clear now") eq_refl).
Defined.



(** X18. [/exit] and [/quit], in any letter case and with anything after
    the command, end the loop at once: nothing typed later is read, the
    client and the files stay as they are, and a pending [/write] is
    dropped without writing. *)
Theorem X18_quit_ends_the_loop (world : Type) B markup_error json_loads post
  describe cwd listdir lower read_file write_file (st : Shell.state world)
  word rest later :
  is_prefix (lit "/") word = true ->
  forallb nonspace word = true ->
  starts_outside nonspace rest ->
  lower word = lit "/exit" \/ lower word = lit "/quit" ->
  Shell.loop world B markup_error json_loads post describe cwd listdir lower
    read_file write_file (Shell.Typed (word ++ rest) :: later) st
  = (st, [Shell.say (lit "[yellow]Goodbye![/yellow]")], None).
Proof.
  intros Hslash Hword Hrest Hlower.
  cbn [Shell.loop Shell.step].
  rewrite on_line_command by exact Hslash.
  unfold Shell.command.
  rewrite split_once_word; [|destruct word; discriminate|exact Hword|exact Hrest].
  assert (Hq : eqb_str (lower word) (lit "/exit")
               || eqb_str (lower word) (lit "/quit") = true).
  { destruct Hlower as [-> | ->]; reflexivity. }
  destruct (lstrip isspace rest); cbv beta iota zeta; rewrite Hq; reflexivity.
Qed.

Lemma X18_quit_ends_the_loop_witness :
  Shell.loop (list (str * str)) no_backends sample_console sample_loads
    (fun _ _ => Raise (Raised [])) (fun _ => []) (lit "/home")
    (fun _ => Ok []) sample_lower sample_read sample_write
    (Shell.Typed (lit "/QUIT now") :: [Shell.Typed (lit "more")])
    (Shell.MkState (Chat.MkClient (lit "key") (lit "m") [])
       (Some (lit "notes.txt")) [])
  = (Shell.MkState (Chat.MkClient (lit "key") (lit "m") [])
       (Some (lit "notes.txt")) [],
     [Shell.say (lit "[yellow]Goodbye![/yellow]")], None).
Proof.
  exact (X18_quit_ends_the_loop (list (str * str)) no_backends sample_console
           sample_loads (fun _ _ => Raise (Raised [])) (fun _ => [])
           (lit "/home") (fun _ => Ok []) sample_lower sample_read
           sample_write
           (Shell.MkState (Chat.MkClient (lit "key") (lit "m") [])
              (Some (lit "notes.txt")) [])
           (lit "/QUIT") (lit " now") [Shell.Typed (lit "more")]
           eq_refl eq_refl eq_refl (or_intror eq_refl)).
Defined.

(** X19. When the console rejects the announcement of [/write], as it does
    for a file name that holds a closing tag, and rejects the report of
    that error as well, the exception of the report leaves the loop:
    [interactive_mode] ends with [MarkupError], nothing typed later is
    read, and nothing is written. *)
Theorem X19_rejected_announcement_ends_the_loop (world : Type) B markup_error
  json_loads post describe cwd listdir lower read_file write_file
  (st : Shell.state world) c target later :
  lower (lit "/write") = lit "/write" ->
  isspace c = false ->
  rejected markup_error (announcement (c :: target)) = true ->
  rejected markup_error (error_text describe MarkupError) = true ->
  let r := Shell.loop world B markup_error json_loads post describe cwd
             listdir lower read_file write_file
             (Shell.Typed (lit "/write " ++ c :: target) :: later) st in
  snd r = Some MarkupError
  /\ snd (fst r) = []
  /\ Shell.files (fst (fst r)) = Shell.files st
  /\ Shell.client (fst (fst r)) = Shell.client st.
Proof.
  intros Hlower Hc Hsay Herr. cbv zeta.
  change (lit "/write " ++ c :: target)
    with (lit "/write" ++ (32 :: c :: target)).
  cbn [Shell.loop Shell.step].
  rewrite on_line_command by reflexivity.
  rewrite (command_write world markup_error describe lower read_file st c
             target Hlower Hc), Hsay.
  unfold Shell.handler. fold (error_text describe MarkupError).
  rewrite Herr. repeat split.
Qed.

Lemma X19_rejected_announcement_ends_the_loop_witness :
  let r := Shell.loop (list (str * str)) no_backends sample_console
             sample_loads (fun _ _ => Raise (Raised []))
             (fun _ => lit "closing tag '[/x]' doesn't match any open tag")
             (lit "/home") (fun _ => Ok []) sample_lower sample_read
             sample_write
             (Shell.Typed (lit "/write [/x]")
              :: [Shell.Typed (lit "buy milk")])
             (Shell.MkState (Chat.MkClient (lit "key") (lit "m") []) None [])
  in
  snd r = Some MarkupError
  /\ snd (fst r) = []
  /\ Shell.files (fst (fst r)) = []
  /\ Shell.client (fst (fst r)) = Chat.MkClient (lit "key") (lit "m") [].
Proof.
  exact (X19_rejected_announcement_ends_the_loop (list (str * str))
           no_backends sample_console sample_loads
           (fun _ _ => Raise (Raised []))
           (fun _ => lit "closing tag '[/x]' doesn't match any open tag")
           (lit "/home") (fun _ => Ok []) sample_lower sample_read
           sample_write
           (Shell.MkState (Chat.MkClient (lit "key") (lit "m") []) None [])
           91 (lit "/x]") [Shell.Typed (lit "buy milk")]
           eq_refl eq_refl eq_refl eq_refl).
Defined.
